(** * Air_Quality_Analysis: the entity-resolution and load pipeline

    A shallow embedding of
      - [classes/data_processor.py]  ([DataProcessor.process_air_quality_data],
        [DataProcessor.create_parameter_tables]),
      - [classes/data_loader.py]     ([DataLoader._upload_data] and its helpers),
      - [main.py]                    ([AirQualityProcessor.fetch_process_load_data]),
      - [classes/db_connector.py]    ([DBConnector.__init__] and what it calls),
    followed by the properties of the specification, stated on the embedding,
    and by further properties of the code.

    Conventions of the embedding.
      - Python [int] is [Z]; Python [str] is [string], one [ascii] per code
        point (code points 0..255; the text handled here is ASCII or Latin-1).
      - Python [float] is an abstract type [F] with decidable equality: the
        code only stores floats and compares them with [==] (as parts of
        dictionary keys and of merge keys), never computes with them.  NaN,
        the one float that is different from itself, is not a member of [F].
      - A Python [dict] used as a map is a [gmap].  A raw JSON record is a
        record of [option]s, [None] standing for an absent key.  The fields
        [location], [city], [country], [coordinates] and [measurements] of
        a record can also be present with the value null ([Some None]); a
        name that is null is the Python value [None], so the names of the
        rows are [option string].  The fields of the coordinates and of a
        measurement entry are absent or hold a value of the type the API
        documents.
      - A pandas frame is the list of its rows, a row a record of its
        columns; the frame built from no rows is [[]] and has no columns.
        (A frame that has its columns and no rows is [[]] as well: the code
        meets one only as the measurements that deduplication leaves, where
        it tests nothing but [.empty].)  Row order is kept where pandas
        keeps it; the outer merge of the deduplication sorts its result,
        which the model leaves out.
      - pandas' timestamp parser is a parameter ([to_datetime]); what
        [Series.dt.tz_localize(None)] does with its results is modelled.
      - A raised exception is the [Raise] branch of the result type [res].
      - The database is threaded explicitly.  A statement fails when the
        environment says so, a predicate on the state of the store and on
        the statement with its data; a statement that does not fail has the
        effect written out here.  The store holds the rows as they were
        handed to [to_sql]; what its columns keep of them (microseconds of a
        timestamp, 256 characters of a [VARCHAR(256)]) is applied where the
        tables are read ([read_sql]). *)

From Stdlib Require Import ZArith QArith Qcanon String Ascii List.
From stdpp Require Import base tactics option list list_numbers gmap strings sorting.

Open Scope string_scope.
Open Scope list_scope.
Open Scope Z_scope.

(** ** Exceptions and results *)

Inductive exn : Type :=
  | KeyError (key : string)          (* subscripting with an absent key *)
  | TypeError (msg : string)         (* subscripting or iterating [None] *)
  | AttributeError (msg : string)    (* [.dt] on a column that is not datetime-like *)
  | SQLAlchemyError                  (* raised by the database layer *)
  | RuntimeError (cause : exn).      (* [raise RuntimeError(f"...: {error}")] *)

Inductive res (A : Type) : Type :=
  | Ok (a : A)
  | Raise (e : exn).
Arguments Ok {A} a.
Arguments Raise {A} e.

#[global] Instance res_ret : MRet res := @Ok.
#[global] Instance res_bind : MBind res :=
  λ A B f m, match m with Ok a => f a | Raise e => Raise e end.

#[global] Instance exn_eq_dec : EqDecision exn.
Proof. solve_decision. Defined.

(** [d[key]] on a JSON object whose field [key] is [field]. *)
Definition getitem {A} (key : string) (field : option A) : res A :=
  match field with
  | Some v => Ok v
  | None => Raise (KeyError key)
  end.

(** [obj[key]] where [obj] is a JSON object or [None]. *)
Definition subscript {A B} (obj : option A) (key : string) (field : A → option B)
    : res B :=
  match obj with
  | Some d => getitem key (field d)
  | None => Raise (TypeError "'NoneType' object is not subscriptable")
  end.

(** [for m in obj] where [obj] is a JSON array or [None]. *)
Definition iter {A} (obj : option (list A)) : res (list A) :=
  match obj with
  | Some l => Ok l
  | None => Raise (TypeError "'NoneType' object is not iterable")
  end.

(** ** Table-name sanitisation ([data_loader.py], lines 198-199) *)

Module TableName.

Definition code (c : ascii) : N := N_of_ascii c.

(** [\s] of a [str] pattern: the code points for which [str.isspace] holds
    (below 256: TAB..CR, FS..US, SPACE, NEL, NBSP). *)
Definition is_space (c : ascii) : bool :=
  let n := code c in
  ((9 <=? n) && (n <=? 13) || (28 <=? n) && (n <=? 32)
   || (n =? 133) || (n =? 160))%N.

(** The character class [[\s/_%-]]. *)
Definition in_class (c : ascii) : bool :=
  is_space c
  || Ascii.eqb c "/" || Ascii.eqb c "_" || Ascii.eqb c "%" || Ascii.eqb c "-".

(** [re.sub(cls, repl, s)] for a pattern that is one character class: every
    character of the class is a match of its own and is replaced. *)
Fixpoint re_sub (cls : ascii → bool) (repl : string) (s : string) : string :=
  match s with
  | EmptyString => EmptyString
  | String c s' =>
      if cls c then repl +:+ re_sub cls repl s' else String c (re_sub cls repl s')
  end.

(** [str.lower] on one code point below 256: A-Z, and the Latin-1 capitals
    U+00C0..U+00DE except the multiplication sign U+00D7. *)
Definition lower_char (c : ascii) : ascii :=
  let n := code c in
  if ((65 <=? n) && (n <=? 90)
      || (192 <=? n) && (n <=? 222) && negb (n =? 215))%N
  then ascii_of_N (n + 32) else c.

Fixpoint lower (s : string) : string :=
  match s with
  | EmptyString => EmptyString
  | String c s' => String (lower_char c) (lower s')
  end.

(** [re.sub(r'[\s/_%-]', '_', table_name).lower()] *)
Definition sanitize (table_name : string) : string :=
  lower (re_sub in_class "_" table_name).

(** [f'de10_na_openaq_{parameter}_{unit}'], then sanitised. *)
Definition parameter_table_name (parameter unit_ : string) : string :=
  sanitize ("de10_na_openaq_" +:+ parameter +:+ "_" +:+ unit_).

(** The rule in the words of the specification, for comparison: a run of
    one or more characters of the class becomes one underscore, then the
    string is lower-cased. *)
Fixpoint collapse_runs (cls : ascii → bool) (in_run : bool) (s : string) : string :=
  match s with
  | EmptyString => EmptyString
  | String c s' =>
      if cls c
      then (if in_run then collapse_runs cls true s'
            else String "_" (collapse_runs cls true s'))
      else String c (collapse_runs cls false s')
  end.

Definition spec_sanitize (table_name : string) : string :=
  lower (collapse_runs in_class false table_name).

(** What [sanitize] does to one character. *)
Definition sanitize_char (c : ascii) : ascii :=
  if in_class c then "_"%char else lower_char c.

Fixpoint map_string (f : ascii → ascii) (s : string) : string :=
  match s with
  | EmptyString => EmptyString
  | String c s' => String (f c) (map_string f s')
  end.

(** No two neighbouring characters of [s] are both in the class. *)
Fixpoint isolated (cls : ascii → bool) (prev : bool) (s : string) : bool :=
  match s with
  | EmptyString => true
  | String c s' => negb (prev && cls c) && isolated cls (cls c) s'
  end.

End TableName.

(** ** Data model: the rows of the four relations

    A name is a [str] or [None]. *)

Module Country.
Record t : Type := Build { country_id : Z; country_name : option string }.
#[global] Instance eq_dec : EqDecision t.
Proof. solve_decision. Defined.
End Country.

Module City.
Record t : Type := Build { city_id : Z; city_name : option string; country_id : Z }.
#[global] Instance eq_dec : EqDecision t.
Proof. solve_decision. Defined.
End City.

Module Location.
Record t (F : Type) : Type := Build {
  location_id : Z; location_name : option string; city_id : Z;
  latitude : F; longitude : F }.
Arguments Build {F} _ _ _ _ _.
Arguments location_id {F} _.
Arguments location_name {F} _.
Arguments city_id {F} _.
Arguments latitude {F} _.
Arguments longitude {F} _.
#[global] Instance eq_dec `{EqDecision F} : EqDecision (t F).
Proof. solve_decision. Defined.
End Location.

(** A measurement row; [T] is the type of the [last_updated] column: [string]
    as collected from the raw records, [option Z] once normalised (a naive
    timestamp in nanoseconds since 1970-01-01T00:00:00, [None] for NaT). *)
Module Measurement.
Record t (F T : Type) : Type := Build {
  location_id : Z; parameter : string; value : F;
  last_updated : T; unit : string }.
Arguments Build {F T} _ _ _ _ _.
Arguments location_id {F T} _.
Arguments parameter {F T} _.
Arguments value {F T} _.
Arguments last_updated {F T} _.
Arguments unit {F T} _.
#[global] Instance eq_dec `{EqDecision F, EqDecision T} : EqDecision (t F T).
Proof. solve_decision. Defined.
End Measurement.

(** A row of a parameter table: a measurement row without its [parameter] and
    [unit] columns. *)
Module ParameterRow.
Record t (F : Type) : Type := Build {
  location_id : Z; value : F; last_updated : option Z }.
Arguments Build {F} _ _ _.
Arguments location_id {F} _.
Arguments value {F} _.
Arguments last_updated {F} _.
End ParameterRow.

(** ** Raw records, as fetched ([None]: the key is absent; [Some None]: the
    field is null) *)

Module Raw.
Record meas (F : Type) : Type := Meas {
  parameter : option string; value : option F;
  lastUpdated : option string; unit : option string }.
Arguments Meas {F} _ _ _ _.
Arguments parameter {F} _.
Arguments value {F} _.
Arguments lastUpdated {F} _.
Arguments unit {F} _.

Record coords (F : Type) : Type := Coords {
  latitude : option F; longitude : option F }.
Arguments Coords {F} _ _.
Arguments latitude {F} _.
Arguments longitude {F} _.

Record result (F : Type) : Type := Result {
  location : option (option string);
  city : option (option string);
  country : option (option string);
  coordinates : option (option (coords F));
  measurements : option (option (list (meas F))) }.
Arguments Result {F} _ _ _ _ _.
Arguments location {F} _.
Arguments city {F} _.
Arguments country {F} _.
Arguments coordinates {F} _.
Arguments measurements {F} _.
End Raw.

(** ** Timestamps

    What [pd.to_datetime(s, format='ISO8601', errors='coerce')] returns for
    one string: NaT ([None]) or a [Timestamp], which is a wall-clock reading
    together with the UTC offset written in the string, if any (both in
    nanoseconds).  A timestamp without offset is tz-naive. *)
Record Timestamp : Type := MkTimestamp { wall_clock : Z; utcoffset : option Z }.

(** The instant a timestamp denotes, as a naive UTC reading. *)
Definition utc_instant (ts : Timestamp) : Z :=
  match utcoffset ts with
  | Some off => wall_clock ts - off
  | None => wall_clock ts
  end.

(** [Series.dt] exists for a column of timestamps that are all tz-naive or
    all carry the same offset; NaT fits either. *)
Definition datetimelike (col : list (option Timestamp)) : bool :=
  match omap (λ ts : option Timestamp, utcoffset <$> ts) col with
  | [] => true
  | tz :: tzs => forallb (λ tz', bool_decide (tz' = tz)) tzs
  end.

(** [col.dt.tz_localize(None)]: the offset is removed and the wall-clock
    reading kept. *)
Definition dt_tz_localize_none (col : list (option Timestamp)) : res (list (option Z)) :=
  if datetimelike col then Ok ((λ ts : option Timestamp, wall_clock <$> ts) <$> col)
  else Raise (AttributeError "Can only use .dt accessor with datetimelike values").

(** ** Generic frame operations *)

(** [df.drop_duplicates()] over all columns: the first of equal rows stays. *)
Fixpoint drop_duplicates_from `{EqDecision A} (seen : list A) (l : list A) : list A :=
  match l with
  | [] => []
  | x :: l' =>
      if decide (x ∈ seen) then drop_duplicates_from seen l'
      else x :: drop_duplicates_from (x :: seen) l'
  end.

Definition drop_duplicates `{EqDecision A} (l : list A) : list A :=
  drop_duplicates_from [] l.

(** [left.merge(right, on=<all columns>, how='outer', indicator=True)]
    restricted to [_merge == 'left_only']: the rows of [left] that equal no
    row of [right].  (pandas returns them sorted by key; a frame is modelled
    up to the order of its rows.) *)
Definition merge_left_only `{EqDecision A} (left right : list A) : list A :=
  filter (λ x, x ∉ right) left.

(** [for _, row in df.iterrows(): id_map[key] = row[id_col];
    counter = max(counter, row[id_col] + 1)], returning the filled map with
    the counter. *)
Definition populate_id_map {R K : Type} `{Countable K}
    (df : list R) (id_map : gmap K Z) (id_col : R → Z) (key_cols : R → K)
    (counter : Z) : gmap K Z * Z :=
  foldl (λ acc row,
           (<[key_cols row := id_col row]> (acc.1),
            Z.max (acc.2) (id_col row + 1)))
        (id_map, counter) df.

(** [id_map[key]] *)
Definition dict_getitem {K : Type} `{Countable K}
    (name : string) (id_map : gmap K Z) (key : K) : res Z :=
  match id_map !! key with
  | Some v => Ok v
  | None => Raise (KeyError name)
  end.

(** The four frames that [process_air_quality_data] returns; the rows it
    reads back from the store have the same shape. *)
Record frames (F : Type) : Type := Frames {
  countries_df : list Country.t;
  cities_df : list City.t;
  locations_df : list (Location.t F);
  measurements_df : list (Measurement.t F (option Z)) }.
Arguments Frames {F} _ _ _ _.
Arguments countries_df {F} _.
Arguments cities_df {F} _.
Arguments locations_df {F} _.
Arguments measurements_df {F} _.

(** ** [DataProcessor.process_air_quality_data] ([data_processor.py]) *)

Section DataProcessor.

Context {F : Type} `{Countable F}.

(** [pd.to_datetime(_, format='ISO8601', errors='coerce')] on one string;
    the parser belongs to pandas and is a parameter of the development. *)
Variable to_datetime : string → option Timestamp.

(** The variables of lines 74-86 that the loop of lines 88-130 updates. *)
Record state : Type := State {
  country_id_map : gmap (option string) Z;
  city_id_map : gmap (option string * Z) Z;
  location_id_map : gmap (option string * Z * F * F) Z;
  country_id_counter : Z;
  city_id_counter : Z;
  location_id_counter : Z;
  countries : list Country.t;
  cities : list City.t;
  locations : list (Location.t F);
  measurements : list (Measurement.t F string) }.

(** What one iteration resolved: the three identity keys and the three ids
    bound to [country_id], [city_id] and [location_id]. *)
Record resolved : Type := Resolved {
  country_key : option string;        res_country_id : Z;
  city_key : option string * Z;       res_city_id : Z;
  location_key : option string * Z * F * F;  res_location_id : Z }.

Definition city_key_cols (row : City.t) : option string * Z :=
  (City.city_name row, City.country_id row).

Definition location_key_cols (row : Location.t F) : option string * Z * F * F :=
  (Location.location_name row, Location.city_id row,
   Location.latitude row, Location.longitude row).

(** Lines 74-86: empty accumulators, and the three id maps filled from the
    stored rows. *)
Definition initial_state (existing_countries : list Country.t)
    (existing_cities : list City.t) (existing_locations : list (Location.t F))
    : state :=
  let '(country_id_map, country_id_counter) :=
    populate_id_map existing_countries ∅ Country.country_id Country.country_name 1 in
  let '(city_id_map, city_id_counter) :=
    populate_id_map existing_cities ∅ City.city_id city_key_cols 1 in
  let '(location_id_map, location_id_counter) :=
    populate_id_map existing_locations ∅ Location.location_id location_key_cols 1 in
  State country_id_map city_id_map location_id_map
        country_id_counter city_id_counter location_id_counter
        [] [] [] [].

(** The list comprehension of lines 124-130, for one entry [m]. *)
Definition measurement_row (location_id : Z) (m : Raw.meas F)
    : res (Measurement.t F string) :=
  parameter ← getitem "parameter" (Raw.parameter m);
  value ← getitem "value" (Raw.value m);
  last_updated ← getitem "lastUpdated" (Raw.lastUpdated m);
  unit_ ← getitem "unit" (Raw.unit m);
  mret (Measurement.Build location_id parameter value last_updated unit_).

(** The body of [for result in results], lines 89-130. *)
Definition loop_body (st : state) (result : Raw.result F) : res (state * resolved) :=
  location_name ← getitem "location" (Raw.location result);
  city ← getitem "city" (Raw.city result);
  country ← getitem "country" (Raw.country result);
  coordinates ← getitem "coordinates" (Raw.coordinates result);
  (* Country processing *)
  let '(country_id_map', country_id_counter', countries') :=
    match country_id_map st !! country with
    | None =>
        (<[country := country_id_counter st]> (country_id_map st),
         country_id_counter st + 1,
         countries st ++ [Country.Build (country_id_counter st) country])
    | Some _ => (country_id_map st, country_id_counter st, countries st)
    end in
  country_id ← dict_getitem "country" country_id_map' country;
  let city_key := (city, country_id) in
  (* City processing *)
  let '(city_id_map', city_id_counter', cities') :=
    match city_id_map st !! city_key with
    | None =>
        (<[city_key := city_id_counter st]> (city_id_map st),
         city_id_counter st + 1,
         cities st ++ [City.Build (city_id_counter st) city country_id])
    | Some _ => (city_id_map st, city_id_counter st, cities st)
    end in
  city_id ← dict_getitem "city_key" city_id_map' city_key;
  latitude ← subscript coordinates "latitude" Raw.latitude;
  longitude ← subscript coordinates "longitude" Raw.longitude;
  let location_key := (location_name, city_id, latitude, longitude) in
  (* Location processing *)
  let '(location_id_map', location_id_counter', locations') :=
    match location_id_map st !! location_key with
    | None =>
        (<[location_key := location_id_counter st]> (location_id_map st),
         location_id_counter st + 1,
         locations st ++ [Location.Build (location_id_counter st) location_name
                                         city_id latitude longitude])
    | Some _ => (location_id_map st, location_id_counter st, locations st)
    end in
  location_id ← dict_getitem "location_key" location_id_map' location_key;
  (* Append measurements data *)
  measurements_field ← getitem "measurements" (Raw.measurements result);
  entries ← iter measurements_field;
  rows ← mapM (measurement_row location_id) entries;
  mret (State country_id_map' city_id_map' location_id_map'
              country_id_counter' city_id_counter' location_id_counter'
              countries' cities' locations' (measurements st ++ rows),
        Resolved country country_id city_key city_id location_key location_id).

(** [for result in results: ...]; the resolutions are collected on the
    side, one per record. *)
Fixpoint run_loop (st : state) (results : list (Raw.result F))
    : res (state * list resolved) :=
  match results with
  | [] => mret (st, [])
  | result :: results' =>
      '(st1, r) ← loop_body st result;
      '(st2, rs) ← run_loop st1 results';
      mret (st2, r :: rs)
  end.

(** Line 138.  Subscripting the frame built from an empty list of rows
    raises: that frame has no columns. *)
Definition normalise_last_updated (measurements_df : list (Measurement.t F string))
    : res (list (Measurement.t F (option Z))) :=
  column ← match measurements_df with
           | [] => Raise (KeyError "last_updated")
           | _ => Ok (Measurement.last_updated <$> measurements_df)
           end;
  naive ← dt_tz_localize_none (to_datetime <$> column);
  mret (zip_with (λ (row : Measurement.t F string) (ts : option Z),
                    Measurement.Build (Measurement.location_id row)
                      (Measurement.parameter row) (Measurement.value row)
                      ts (Measurement.unit row))
                 measurements_df naive).

(** Lines 140-145. *)
Definition deduplicate (measurements_df existing_measurements
    : list (Measurement.t F (option Z))) : list (Measurement.t F (option Z)) :=
  match existing_measurements with
  | _ :: _ => drop_duplicates (merge_left_only measurements_df existing_measurements)
  | [] => drop_duplicates measurements_df
  end.

(** Lines 74-147, with the four frames read at lines 69-72 as [existing]. *)
Definition process_frames (existing : frames F) (results : list (Raw.result F))
    : res (frames F) :=
  '(st, _) ← run_loop (initial_state (countries_df existing) (cities_df existing)
                                     (locations_df existing)) results;
  normalised ← normalise_last_updated (measurements st);
  mret (Frames (countries st) (cities st) (locations st)
               (deduplicate normalised (measurements_df existing))).

(** The resolutions of a run, for stating properties of them. *)
Definition resolutions (existing : frames F) (results : list (Raw.result F))
    : res (list resolved) :=
  '(_, rs) ← run_loop (initial_state (countries_df existing) (cities_df existing)
                                     (locations_df existing)) results;
  mret rs.

End DataProcessor.

Arguments state F {_ _}.
Arguments resolved : clear implicits.

(** ** The store, [DataLoader] ([data_loader.py]) and the orchestrator ([main.py]) *)

Inductive table : Type :=
  | CountriesTable | CitiesTable | LocationsTable | MeasurementsTable
  | ParameterTable (name : string).

#[global] Instance table_eq_dec : EqDecision table.
Proof. solve_decision. Defined.

Inductive constraint_type : Type := PRIMARY_KEY | FOREIGN_KEY.

(** A frame handed to [to_sql]. *)
Inductive dataframe (F : Type) : Type :=
  | CountriesDf (rows : list Country.t)
  | CitiesDf (rows : list City.t)
  | LocationsDf (rows : list (Location.t F))
  | MeasurementsDf (rows : list (Measurement.t F (option Z)))
  | ParameterDf (rows : list (ParameterRow.t F)).
Arguments CountriesDf {F} _.
Arguments CitiesDf {F} _.
Arguments LocationsDf {F} _.
Arguments MeasurementsDf {F} _.
Arguments ParameterDf {F} _.

(** The statements sent to the database, [to_sql] with the frame it
    writes. *)
Inductive db_op (F : Type) : Type :=
  | CheckTableExists (t : table)
  | SelectAll (t : table)
  | ToSql (df : dataframe F) (t : table)
  | CastDataTypes (t : table)
  | CheckKeyExists (t : table) (key : constraint_type)
  | AddPrimaryKey (t : table)
  | AddForeignKey (t : table).
Arguments CheckTableExists {F} _.
Arguments SelectAll {F} _.
Arguments ToSql {F} _ _.
Arguments CastDataTypes {F} _.
Arguments CheckKeyExists {F} _ _.
Arguments AddPrimaryKey {F} _.
Arguments AddForeignKey {F} _.

(** The store: the rows written to the four core tables (a table that does
    not exist yet has none), the rows written to the parameter tables, by
    name, and the tables that carry a primary-key or a foreign-key
    constraint. *)
Record database (F : Type) : Type := Database {
  stored : frames F;
  parameter_tables : gmap string (list (ParameterRow.t F));
  primary_keys : list table;
  foreign_keys : list table }.
Arguments Database {F} _ _ _ _.
Arguments stored {F} _.
Arguments parameter_tables {F} _.
Arguments primary_keys {F} _.
Arguments foreign_keys {F} _.

(** *** What the store keeps of a row

    pandas hands a timestamp to the database as a [datetime], which has
    microseconds, and a PostgreSQL [TIMESTAMP] keeps microseconds: the
    nanoseconds below are dropped.  The casts of [_upload_data] to
    [VARCHAR(256)] ([USING column::VARCHAR(256)], lines 153-155 and 65)
    keep the first 256 characters.  [country_name] is cast to the length of
    the longest name, and integers and floats are kept as they are.
    (Once a column has its type, a write with a longer string is refused:
    a failure of that write, which is for the environment to say.) *)
Definition microseconds (ns : Z) : Z := ns / 1000 * 1000.

Definition varchar (n : nat) (s : string) : string := String.substring 0 n s.

Definition as_stored_city (row : City.t) : City.t :=
  City.Build (City.city_id row) (varchar 256 <$> City.city_name row)
             (City.country_id row).

Definition as_stored_location {F} (row : Location.t F) : Location.t F :=
  Location.Build (Location.location_id row)
                 (varchar 256 <$> Location.location_name row)
                 (Location.city_id row) (Location.latitude row)
                 (Location.longitude row).

Definition as_stored_measurement {F} (row : Measurement.t F (option Z))
    : Measurement.t F (option Z) :=
  Measurement.Build (Measurement.location_id row)
                    (varchar 256 (Measurement.parameter row))
                    (Measurement.value row)
                    (microseconds <$> Measurement.last_updated row)
                    (varchar 256 (Measurement.unit row)).

(** What [pd.read_sql("SELECT * FROM ...")] returns of the rows written to
    the four core tables. *)
Definition read_sql {F} (written : frames F) : frames F :=
  Frames (countries_df written)
         (as_stored_city <$> cities_df written)
         (as_stored_location <$> locations_df written)
         (as_stored_measurement <$> measurements_df written).

(** How the run of [fetch_process_load_data] ended: the early return of
    lines 30-32, the normal end of line 37, or the handler of lines 38-39. *)
Inductive outcome : Type :=
  | NoNewData
  | Loaded
  | ErrorLogged (e : exn).

(** [create_parameter_tables] groups by [(parameter, unit)]; pandas yields
    the groups in increasing order of the key. *)
Definition group_le (a b : string * string) : Prop :=
  match String.compare a.1 b.1 with
  | Lt => True
  | Eq => String.leb a.2 b.2 = true
  | Gt => False
  end.

#[global] Instance group_le_dec : RelDecision group_le.
Proof. intros a b. unfold group_le. destruct (String.compare a.1 b.1); apply _. Defined.

Section DataLoader.

Context {F : Type} `{Countable F}.
Variable to_datetime : string → option Timestamp.

(** The environment: whether a statement fails, given the state of the
    store it is sent to. *)
Variable fails : database F → db_op F → bool.

(** A database action: the store is updated in place, also when the action
    ends in an exception. *)
Definition action (A : Type) : Type := database F → database F * res A.

Definition ret {A} (a : A) : action A := λ db, (db, Ok a).
Definition raise {A} (e : exn) : action A := λ db, (db, Raise e).
(** A computation that does not touch the store. *)
Definition lift {A} (r : res A) : action A := λ db, (db, r).
Definition bind {A B} (m : action A) (f : A → action B) : action B :=
  λ db, match m db with
        | (db', Ok a) => f a db'
        | (db', Raise e) => (db', Raise e)
        end.
Definition try_except {A} (m : action A) (handler : exn → action A) : action A :=
  λ db, match m db with
        | (db', Ok a) => (db', Ok a)
        | (db', Raise e) => handler e db'
        end.

Notation "m >> k" := (bind m (λ _, k)) (at level 65, right associativity).

Fixpoint for_each {A} (f : A → action ()) (l : list A) : action () :=
  match l with
  | [] => ret ()
  | x :: l' => f x >> for_each f l'
  end.

(** [df.to_sql(table_name, ..., if_exists='append')]: the rows are added,
    as they are handed over, when the frame has the columns of the table.
    (Whether the database takes them is for the environment to say, see
    [__upload_to_db]; what its columns keep of them is in [read_sql].) *)
Definition to_sql (df : dataframe F) (t : table) (db : database F)
    : option (database F) :=
  let s := stored db in
  match df, t with
  | CountriesDf rows, CountriesTable =>
      Some (Database (Frames (countries_df s ++ rows) (cities_df s)
                             (locations_df s) (measurements_df s))
                     (parameter_tables db) (primary_keys db) (foreign_keys db))
  | CitiesDf rows, CitiesTable =>
      Some (Database (Frames (countries_df s) (cities_df s ++ rows)
                             (locations_df s) (measurements_df s))
                     (parameter_tables db) (primary_keys db) (foreign_keys db))
  | LocationsDf rows, LocationsTable =>
      Some (Database (Frames (countries_df s) (cities_df s)
                             (locations_df s ++ rows) (measurements_df s))
                     (parameter_tables db) (primary_keys db) (foreign_keys db))
  | MeasurementsDf rows, MeasurementsTable =>
      Some (Database (Frames (countries_df s) (cities_df s)
                             (locations_df s) (measurements_df s ++ rows))
                     (parameter_tables db) (primary_keys db) (foreign_keys db))
  | ParameterDf rows, ParameterTable name =>
      Some (Database s
                     (<[name := default [] (parameter_tables db !! name) ++ rows]>
                        (parameter_tables db))
                     (primary_keys db) (foreign_keys db))
  | _, _ => None
  end.

(** [__upload_to_db], lines 31-46: a failure is logged and raised again. *)
Definition __upload_to_db (df : dataframe F) (t : table) : action () :=
  λ db, if fails db (ToSql df t) then (db, Raise SQLAlchemyError)
        else match to_sql df t db with
             | Some db' => (db', Ok ())
             | None => (db, Raise SQLAlchemyError)
             end.

(** [__cast_data_types], lines 48-71; what the column types keep of the
    rows is applied in [read_sql].  The statements name the table without
    quotes, so they fail, for one, on a parameter table whose name has a
    dot ("de10_na_openaq_pm2.5_ug_m3"): the environment says so. *)
Definition __cast_data_types (t : table) : action () :=
  λ db, if fails db (CastDataTypes t) then (db, Raise (RuntimeError SQLAlchemyError))
        else (db, Ok ()).

(** [__check_key_exists], lines 92-119: an error reads as "no such key". *)
Definition __check_key_exists (t : table) (key : constraint_type) : action bool :=
  λ db, if fails db (CheckKeyExists t key) then (db, Ok false)
        else (db, Ok (bool_decide (t ∈ match key with
                                       | PRIMARY_KEY => primary_keys db
                                       | FOREIGN_KEY => foreign_keys db
                                       end))).

(** The column that [primary_keys] (lines 159-164) names for a table. *)
Definition primary_key_column (t : table) (s : frames F) : list Z :=
  match t with
  | CountriesTable => Country.country_id <$> countries_df s
  | CitiesTable => City.city_id <$> cities_df s
  | LocationsTable => Location.location_id <$> locations_df s
  | _ => []
  end.

(** [__add_primary_key], lines 73-90; a table has at most one primary key,
    and its key column holds no value twice. *)
Definition __add_primary_key (t : table) : action () :=
  λ db, if fails db (AddPrimaryKey t) || bool_decide (t ∈ primary_keys db)
           || negb (bool_decide (NoDup (primary_key_column t (stored db))))
        then (db, Raise (RuntimeError SQLAlchemyError))
        else (Database (stored db) (parameter_tables db)
                       (t :: primary_keys db) (foreign_keys db), Ok ()).

(** [__add_foreign_key], lines 121-139. *)
Definition __add_foreign_key (t : table) : action () :=
  λ db, if fails db (AddForeignKey t) then (db, Raise (RuntimeError SQLAlchemyError))
        else (Database (stored db) (parameter_tables db)
                       (primary_keys db) (t :: foreign_keys db), Ok ()).

(** The dictionaries [primary_keys] and [foreign_keys] of lines 159-172,
    as far as the loop tests them. *)
Definition primary_key (t : table) : option string :=
  match t with
  | CountriesTable => Some "country_id"
  | CitiesTable => Some "city_id"
  | LocationsTable => Some "location_id"
  | _ => None
  end.

Definition fk_dict (t : table) : bool :=
  match t with
  | CitiesTable | LocationsTable | MeasurementsTable => true
  | _ => false
  end.

(** The body of the loop of lines 184-192. *)
Definition upload_and_configure (entry : dataframe F * table) : action () :=
  let '(df, table_name) := entry in
  __upload_to_db df table_name >>
  __cast_data_types table_name >>
  match primary_key table_name with
  | Some _ =>
      bind (__check_key_exists table_name PRIMARY_KEY)
           (λ present, if present then ret () else __add_primary_key table_name)
  | None => ret ()
  end >>
  (if fk_dict table_name
   then bind (__check_key_exists table_name FOREIGN_KEY)
             (λ present, if present then ret () else __add_foreign_key table_name)
   else ret ()).

(** [measurements_df.groupby(['parameter', 'unit'])] with the body of the
    loop of [create_parameter_tables], for a frame that has these columns:
    the groups in increasing order of the key, flattened to the order in
    which lines 196-197 of [data_loader.py] visit the nested dictionary. *)
Definition groupby_parameter_unit (measurements_df : list (Measurement.t F (option Z)))
    : list (string * string * list (ParameterRow.t F)) :=
  let keys := merge_sort group_le
                (remove_dups ((λ row, (Measurement.parameter row, Measurement.unit row))
                                <$> measurements_df)) in
  (λ key : string * string,
     (key,
      (λ row, ParameterRow.Build (Measurement.location_id row)
                (Measurement.value row) (Measurement.last_updated row))
        <$> filter (λ row, (Measurement.parameter row, Measurement.unit row) = key)
                   measurements_df))
    <$> keys.

(** [DataProcessor.create_parameter_tables], [data_processor.py] lines
    150-168.  On the frame built from no rows, which has no columns,
    [groupby] raises. *)
Definition create_parameter_tables (measurements_df : list (Measurement.t F (option Z)))
    : res (list (string * string * list (ParameterRow.t F))) :=
  match measurements_df with
  | [] => Raise (KeyError "parameter")
  | _ :: _ => Ok (groupby_parameter_unit measurements_df)
  end.

(** The body of the loops of lines 196-202. *)
Definition upload_parameter_table (entry : string * string * list (ParameterRow.t F))
    : action () :=
  let '(parameter, unit_, df) := entry in
  let table_name := ParameterTable (TableName.parameter_table_name parameter unit_) in
  __upload_to_db (ParameterDf df) table_name >>
  __cast_data_types table_name >>
  __add_foreign_key table_name.

(** The list [table_data] of lines 175-180. *)
Definition table_data (out : frames F) : list (dataframe F * table) :=
  [ (CountriesDf (countries_df out), CountriesTable);
    (CitiesDf (cities_df out), CitiesTable);
    (LocationsDf (locations_df out), LocationsTable);
    (MeasurementsDf (measurements_df out), MeasurementsTable) ].

(** [_upload_data], lines 141-207. *)
Definition _upload_data (out : frames F) : action () :=
  try_except
    (for_each upload_and_configure (table_data out) >>
     bind (lift (create_parameter_tables (measurements_df out)))
          (for_each upload_parameter_table))
    (λ e, raise (RuntimeError e)).

(** [__check_table_exists] and [__fetch_table_as_dataframe],
    [data_processor.py] lines 15-57: a table that is missing or cannot be
    read gives the empty frame; [rows] is what the query returns when it
    does not fail. *)
Definition __fetch_table_as_dataframe {R} (db : database F) (t : table)
    (rows : list R) : list R :=
  if fails db (CheckTableExists t) then []
  else if fails db (SelectAll t) then []
  else rows.

(** [process_air_quality_data], lines 59-147: the four reads of lines
    69-72, then [process_frames]. *)
Definition process_air_quality_data (db : database F) (results : list (Raw.result F))
    : res (frames F) :=
  let existing_countries :=
    __fetch_table_as_dataframe db CountriesTable (countries_df (read_sql (stored db))) in
  let existing_cities :=
    __fetch_table_as_dataframe db CitiesTable (cities_df (read_sql (stored db))) in
  let existing_locations :=
    __fetch_table_as_dataframe db LocationsTable (locations_df (read_sql (stored db))) in
  let existing_measurements :=
    __fetch_table_as_dataframe db MeasurementsTable
      (measurements_df (read_sql (stored db))) in
  process_frames to_datetime
    (Frames existing_countries existing_cities existing_locations existing_measurements)
    results.

(** [fetch_process_load_data], [main.py] lines 22-42; [results] is what
    [fetch_air_quality_data] returned. *)
Definition fetch_process_load_data (results : list (Raw.result F))
    (db : database F) : database F * outcome :=
  match process_air_quality_data db results with
  | Raise e => (db, ErrorLogged e)
  | Ok out =>
      match measurements_df out with
      | [] => (db, NoNewData)
      | _ :: _ =>
          match _upload_data out db with
          | (db', Ok _) => (db', Loaded)
          | (db', Raise e) => (db', ErrorLogged e)
          end
      end
  end.

End DataLoader.

(** ** Notions used to state and prove the properties *)

(** *** One key registry

    Lines 92-97, 101-106 and 110-121 are three copies of one pattern over
    an id map, its counter and the list of new rows:
    [if key not in id_map: id_map[key] = counter; rows.append(...);
     counter += 1]. *)
Section Registry.

Context {K R : Type} `{Countable K}.
Variables (key_cols : R → K) (id_col : R → Z) (new_row : K → Z → R).

Definition resolve_key (key : K) (reg : gmap K Z * Z * list R)
    : gmap K Z * Z * list R :=
  match reg.1.1 !! key with
  | None => (<[key := reg.1.2]> (reg.1.1), reg.1.2 + 1, reg.2 ++ [new_row key (reg.1.2)])
  | Some _ => reg
  end.

(** What holds of a registry that started from the map [m0] and the counter
    [c0] with no new rows, after the keys of [tr] were resolved to the ids
    of [tr]. *)
Record registry_inv (m0 : gmap K Z) (c0 : Z) (tr : list (K * Z))
    (reg : gmap K Z * Z * list R) : Prop := RegistryInv {
  inv_seed : m0 ⊆ reg.1.1;
  inv_ids : id_col <$> reg.2 = seqZ c0 (Z.of_nat (length (reg.2)));
  inv_counter : reg.1.2 = c0 + Z.of_nat (length (reg.2));
  inv_nodup : NoDup (key_cols <$> reg.2);
  inv_new : ∀ k, k ∈ key_cols <$> reg.2 ↔ k ∈ tr.*1 ∧ m0 !! k = None;
  inv_map : ∀ k i, reg.1.1 !! k = Some i ↔
              m0 !! k = Some i ∨ ∃ row, row ∈ reg.2 ∧ key_cols row = k ∧ id_col row = i;
  inv_populate : populate_id_map (reg.2) m0 id_col key_cols c0 = (reg.1.1, reg.1.2);
  inv_trace : ∀ k i, (k, i) ∈ tr → reg.1.1 !! k = Some i }.

End Registry.

(** [M] is the maximum id of the stored rows, 0 when there are none. *)
Definition is_max_id (M : Z) (ids : list Z) : Prop :=
  (ids = [] ∧ M = 0) ∨ (M ∈ ids ∧ ∀ i, i ∈ ids → i ≤ M).

(** New rows are allocated monotonically: when the store holds the rows
    [existing], with maximum id [M], and the keys [unseen] are the distinct
    keys among [resolved_keys] that no stored row has, the new rows carry the
    ids [first], [first + 1], ... in the order of allocation, one row per
    unseen key.  [first] is given as a function of [M]. *)
Definition allocates_from {K R : Type} (first : Z → Z)
    (key_cols : R → K) (id_col : R → Z)
    (existing : list R) (resolved_keys : list K) (new_rows : list R) : Prop :=
  ∀ (M : Z) (unseen : list K),
    is_max_id M (id_col <$> existing) →
    NoDup unseen →
    (∀ k, k ∈ unseen ↔ k ∈ resolved_keys ∧ k ∉ key_cols <$> existing) →
    id_col <$> new_rows = seqZ (first M) (Z.of_nat (length unseen))
    ∧ key_cols <$> new_rows ≡ₚ unseen.

Section ProcessorNotions.

Context {F : Type} `{Countable F}.

Definition new_country (key : option string) (id : Z) : Country.t :=
  Country.Build id key.
Definition new_city (key : option string * Z) (id : Z) : City.t :=
  City.Build id (key.1) (key.2).
Definition new_location (key : option string * Z * F * F) (id : Z) : Location.t F :=
  Location.Build id (key.1.1.1) (key.1.1.2) (key.1.2) (key.2).

Definition country_registry (st : state F)
    : gmap (option string) Z * Z * list Country.t :=
  (country_id_map st, country_id_counter st, countries st).
Definition city_registry (st : state F)
    : gmap (option string * Z) Z * Z * list City.t :=
  (city_id_map st, city_id_counter st, cities st).
Definition location_registry (st : state F)
    : gmap (option string * Z * F * F) Z * Z * list (Location.t F) :=
  (location_id_map st, location_id_counter st, locations st).

Definition country_trace (rs : list (resolved F)) : list (option string * Z) :=
  (λ r, (country_key r, res_country_id r)) <$> rs.
Definition city_trace (rs : list (resolved F)) : list (option string * Z * Z) :=
  (λ r, (city_key r, res_city_id r)) <$> rs.
Definition location_trace (rs : list (resolved F))
    : list (option string * Z * F * F * Z) :=
  (λ r, (location_key r, res_location_id r)) <$> rs.

(** A city key holds the country id resolved just before, a location key
    the city id. *)
Definition chained (r : resolved F) : Prop :=
  (city_key r).2 = res_country_id r ∧ (location_key r).1.1.2 = res_city_id r.

(** The state [st] reached from the initial state [st0] by the resolutions [rs]. *)
Record state_inv (st0 : state F) (rs : list (resolved F)) (st : state F) : Prop := StateInv {
  inv_countries :
    registry_inv Country.country_name Country.country_id
      (country_id_map st0) (country_id_counter st0) (country_trace rs)
      (country_registry st);
  inv_cities :
    registry_inv city_key_cols City.city_id
      (city_id_map st0) (city_id_counter st0) (city_trace rs) (city_registry st);
  inv_locations :
    registry_inv location_key_cols Location.location_id
      (location_id_map st0) (location_id_counter st0) (location_trace rs)
      (location_registry st);
  inv_chained : Forall chained rs;
  inv_measurements :
    ∀ row, row ∈ measurements st →
      ∃ r, r ∈ rs ∧ Measurement.location_id row = res_location_id r }.

(** The resolution [t] is that of the record [r]: its keys are built from
    the fields of [r] and from the ids resolved before. *)
Definition resolution_of (r : Raw.result F) (t : resolved F) : Prop :=
  Raw.country r = Some (country_key t)
  ∧ Raw.city r = Some ((city_key t).1)
  ∧ Raw.location r = Some ((location_key t).1.1.1)
  ∧ (∃ c, Raw.coordinates r = Some (Some c)
          ∧ Raw.latitude c = Some ((location_key t).1.2)
          ∧ Raw.longitude c = Some ((location_key t).2))
  ∧ chained t.

(** The row [row] carries the fields of the raw entry [m]. *)
Definition row_of_entry {T} (last_updated : string → T)
    (m : Raw.meas F) (row : Measurement.t F T) : Prop :=
  Raw.parameter m = Some (Measurement.parameter row)
  ∧ Raw.value m = Some (Measurement.value row)
  ∧ Raw.unit m = Some (Measurement.unit row)
  ∧ ∃ s, Raw.lastUpdated m = Some s ∧ Measurement.last_updated row = last_updated s.



(** A measurement row after line 138: [last_updated] parsed, its offset
    dropped. *)
Definition normalised_row (to_datetime : string → option Timestamp)
    (row : Measurement.t F string) : Measurement.t F (option Z) :=
  Measurement.Build (Measurement.location_id row) (Measurement.parameter row)
    (Measurement.value row)
    (wall_clock <$> to_datetime (Measurement.last_updated row))
    (Measurement.unit row).

(** A record that has every field the loop reads, its coordinates and its
    measurements not null.  (Its names may be null.) *)
Definition complete_measurement (m : Raw.meas F) : Prop :=
  is_Some (Raw.parameter m) ∧ is_Some (Raw.value m)
  ∧ is_Some (Raw.lastUpdated m) ∧ is_Some (Raw.unit m).

Definition complete_record (r : Raw.result F) : Prop :=
  is_Some (Raw.location r) ∧ is_Some (Raw.city r) ∧ is_Some (Raw.country r)
  ∧ (∃ c, Raw.coordinates r = Some (Some c)
          ∧ is_Some (Raw.latitude c) ∧ is_Some (Raw.longitude c))
  ∧ (∃ ms, Raw.measurements r = Some (Some ms) ∧ Forall complete_measurement ms).

(** A record without one of the fields location, city, country, coordinates
    (the key is absent). *)
Definition lacks_required_field (r : Raw.result F) : Prop :=
  Raw.location r = None ∨ Raw.city r = None ∨ Raw.country r = None
  ∨ Raw.coordinates r = None.

(** The measurement entries of a batch, in order. *)
Definition record_entries (r : Raw.result F) : list (Raw.meas F) :=
  default [] (default None (Raw.measurements r)).

Definition raw_measurements (results : list (Raw.result F)) : list (Raw.meas F) :=
  results ≫= record_entries.

(** The exception that the body of the loop raises on an entry and on a
    record, if any, from the subscripts of lines 89, 107 and 124-130 in the
    order in which they are evaluated.  (It does not depend on the state of
    the loop: a key looked up in an id map was bound just before.) *)
Definition entry_error (m : Raw.meas F) : option exn :=
  match Raw.parameter m with None => Some (KeyError "parameter") | Some _ =>
  match Raw.value m with None => Some (KeyError "value") | Some _ =>
  match Raw.lastUpdated m with None => Some (KeyError "lastUpdated") | Some _ =>
  match Raw.unit m with None => Some (KeyError "unit") | Some _ => None
  end end end end.

Definition record_error (r : Raw.result F) : option exn :=
  match Raw.location r with None => Some (KeyError "location") | Some _ =>
  match Raw.city r with None => Some (KeyError "city") | Some _ =>
  match Raw.country r with None => Some (KeyError "country") | Some _ =>
  match Raw.coordinates r with
  | None => Some (KeyError "coordinates")
  | Some None => Some (TypeError "'NoneType' object is not subscriptable")
  | Some (Some c) =>
  match Raw.latitude c with None => Some (KeyError "latitude") | Some _ =>
  match Raw.longitude c with None => Some (KeyError "longitude") | Some _ =>
  match Raw.measurements r with
  | None => Some (KeyError "measurements")
  | Some None => Some (TypeError "'NoneType' object is not iterable")
  | Some (Some ms) => head (omap entry_error ms)
  end end end end end end end.

(** The raw [lastUpdated] strings of a batch, in order. *)
Definition raw_timestamps (results : list (Raw.result F)) : list string :=
  omap Raw.lastUpdated (raw_measurements results).

(** The store after the first [n] of the four frames of [out] were appended. *)
Definition append_first (n : nat) (s out : frames F) : frames F :=
  Frames (countries_df s ++ (if (1 <=? n)%nat then countries_df out else []))
         (cities_df s ++ (if (2 <=? n)%nat then cities_df out else []))
         (locations_df s ++ (if (3 <=? n)%nat then locations_df out else []))
         (measurements_df s ++ (if (4 <=? n)%nat then measurements_df out else [])).

(** The store updated with the four frames of a run. *)
Definition append_frames (s out : frames F) : frames F := append_first 4 s out.

(** An action that leaves the four core tables as they are. *)
Definition keeps_stored {A} (m : database F → database F * res A) : Prop :=
  ∀ db, stored (m db).1 = stored db.

End ProcessorNotions.

(** ** [DBConnector] ([db_connector.py])

    The credentials read from the YAML file are a map from strings to
    strings, as the annotations of the source say. *)

Module DBConnector.

Inductive error : Type :=
  | ValueError (msg : string)
  | KeyError (key : string)
  | FileNotFoundError
  | YAMLError
  | SQLAlchemyError
  | RuntimeError (cause : error).

Inductive result (A : Type) : Type :=
  | Return (a : A)
  | Raised (e : error).
Arguments Return {A} a.
Arguments Raised {A} e.

(** The keyword arguments of [URL.create], lines 88-95. *)
Record url_args : Type := UrlArgs {
  drivername : string; username : string; password : string;
  host : string; port : string; database : string }.

Definition required_keys : list string :=
  ["USER"; "PASSWORD"; "HOST"; "PORT"; "DATABASE"; "DRIVER"].

(** [sep.join(l)] *)
Fixpoint join (sep : string) (l : list string) : string :=
  match l with
  | [] => ""
  | [x] => x
  | x :: l' => x +:+ sep +:+ join sep l'
  end.

(** [[key for key in required_keys if key not in db_creds]] *)
Definition missing_keys (db_creds : gmap string string) : list string :=
  filter (λ key, db_creds !! key = None) required_keys.

(** [__validate_db_creds], lines 56-71. *)
Definition __validate_db_creds (db_creds : gmap string string) : result () :=
  match missing_keys db_creds with
  | [] => Return ()
  | _ :: _ =>
      Raised (ValueError ("Error: Missing required database credentials: "
                          +:+ join ", " (missing_keys db_creds)))
  end.

(** [db_creds[key]] *)
Definition creds_getitem (db_creds : gmap string string) (key : string) : result string :=
  match db_creds !! key with
  | Some v => Return v
  | None => Raised (KeyError key)
  end.

(** The exceptions that [_init_db_engine] turns into [RuntimeError], line 117. *)
Definition handled (e : error) : bool :=
  match e with
  | SQLAlchemyError | ValueError _ | FileNotFoundError | YAMLError => true
  | KeyError _ | RuntimeError _ => false
  end.

Section Engine.

(** [urllib.parse.quote_plus], [sqlalchemy.engine.URL.create] and
    [sqlalchemy.create_engine] belong to libraries and are parameters. *)
Context {URL Engine : Type}.
Variable quote_plus : string → string.
Variable URL_create : url_args → result URL.
Variable create_engine : URL → result Engine.

(** [__build_url_object], lines 74-99: the keyword arguments are evaluated
    in the order written, then [URL.create] is called; its [ValueError] is
    logged and raised again. *)
Definition __build_url_object (db_creds : gmap string string) : result URL :=
  match creds_getitem db_creds "DRIVER" with
  | Raised e => Raised e
  | Return driver =>
  match creds_getitem db_creds "USER" with
  | Raised e => Raised e
  | Return user =>
  match creds_getitem db_creds "PASSWORD" with
  | Raised e => Raised e
  | Return pass =>
  match creds_getitem db_creds "HOST" with
  | Raised e => Raised e
  | Return host =>
  match creds_getitem db_creds "PORT" with
  | Raised e => Raised e
  | Return port =>
  match creds_getitem db_creds "DATABASE" with
  | Raised e => Raised e
  | Return database =>
      URL_create (UrlArgs driver user (quote_plus pass) host port database)
  end end end end end end.

(** The body of the [try] of [_init_db_engine], lines 108-116; [read] is
    what [__read_db_creds] returned or raised. *)
Definition init_db_engine_body (read : result (gmap string string))
    : result (URL * Engine) :=
  match read with
  | Raised e => Raised e
  | Return db_creds =>
      match __validate_db_creds db_creds with
      | Raised e => Raised e
      | Return _ =>
          match __build_url_object db_creds with
          | Raised e => Raised e
          | Return db_url =>
              match create_engine db_url with
              | Raised e => Raised e
              | Return engine => Return (db_url, engine)
              end
          end
      end
  end.

(** [_init_db_engine], lines 101-119. *)
Definition _init_db_engine (read : result (gmap string string))
    : result (URL * Engine) :=
  match init_db_engine_body read with
  | Return r => Return r
  | Raised e => if handled e then Raised (RuntimeError e) else Raised e
  end.

(** [DBConnector.__init__], lines 17-32: every exception becomes a
    [RuntimeError]. *)
Definition __init__ (read : result (gmap string string)) : result (URL * Engine) :=
  match _init_db_engine read with
  | Return r => Return r
  | Raised e => Raised (RuntimeError e)
  end.

End Engine.

End DBConnector.

(** ** Further notions for the properties of the loader *)

(** The row of a parameter table made from a measurement row
    ([group.drop(columns=['parameter', 'unit'])]). *)
Definition parameter_row {F : Type} (row : Measurement.t F (option Z))
    : ParameterRow.t F :=
  ParameterRow.Build (Measurement.location_id row) (Measurement.value row)
                     (Measurement.last_updated row).

(** The group key of a measurement row. *)
Definition group_key {F : Type} (row : Measurement.t F (option Z)) : string * string :=
  (Measurement.parameter row, Measurement.unit row).

(** The rows of a parameter table; a table that does not exist has none. *)
Definition parameter_table {F : Type} (db : database F) (name : string)
    : list (ParameterRow.t F) :=
  default [] (parameter_tables db !! name).

(** [db'] holds everything [db] holds, in the same place: every table of
    [db] is a prefix of the same table of [db'], and every constraint of
    [db] is one of [db']. *)
Record db_extends {F : Type} (db db' : database F) : Prop := DbExtends {
  ext_countries : countries_df (stored db) `prefix_of` countries_df (stored db');
  ext_cities : cities_df (stored db) `prefix_of` cities_df (stored db');
  ext_locations : locations_df (stored db) `prefix_of` locations_df (stored db');
  ext_measurements :
    measurements_df (stored db) `prefix_of` measurements_df (stored db');
  ext_parameters :
    ∀ name, parameter_table db name `prefix_of` parameter_table db' name;
  ext_primary_keys : ∀ t, t ∈ primary_keys db → t ∈ primary_keys db';
  ext_foreign_keys : ∀ t, t ∈ foreign_keys db → t ∈ foreign_keys db' }.

(** The store after the write of the country rows of [out], the first
    write of [_upload_data]. *)
Definition countries_appended {F : Type} (out : frames F) (db : database F)
    : database F :=
  Database (Frames (countries_df (stored db) ++ countries_df out)
                   (cities_df (stored db)) (locations_df (stored db))
                   (measurements_df (stored db)))
           (parameter_tables db) (primary_keys db) (foreign_keys db).


(** The characters of a string. *)
Fixpoint chars (s : string) : list ascii :=
  match s with
  | EmptyString => []
  | String c s' => c :: chars s'
  end.

(** A table whose existence check or whose read fails; lines 26-33 and
    50-57 of [data_processor.py] then answer with "no table" and with an
    empty frame. *)
Definition unreadable {F : Type} (fails : database F → db_op F → bool)
    (db : database F) (t : table) : Prop :=
  fails db (CheckTableExists t) = true ∨ fails db (SelectAll t) = true.

(** An action that only adds to the store, whether it ends normally or in
    an exception. *)
Definition only_extends {F A : Type} (m : database F → database F * res A) : Prop :=
  ∀ db, db_extends db (m db).1.

(** The constraints that the loop of lines 184-192 of [data_loader.py]
    puts on a core table: a primary key when [primary_keys] names one, a
    foreign key when [foreign_keys] names one. *)
Definition constrained {F : Type} (db : database F) (t : table) : Prop :=
  (is_Some (primary_key t) → t ∈ primary_keys db)
  ∧ (fk_dict t = true → t ∈ foreign_keys db).

(** The rows [rows] that a registry seeded with [m0] has made while the
    keys of [tr] were resolved: one row per key that [m0] does not bind, in
    the order in which these keys first occur in [tr], each row built from
    its key and its id alone. *)
Definition allocated_in_order {K R : Type} `{Countable K}
    (key_cols : R → K) (id_col : R → Z) (new_row : K → Z → R)
    (m0 : gmap K Z) (tr : list (K * Z)) (rows : list R) : Prop :=
  key_cols <$> rows = drop_duplicates (filter (λ k, m0 !! k = None) (tr.*1))
  ∧ Forall (λ row, row = new_row (key_cols row) (id_col row)) rows.

(** ** Sample data, for the examples

    Floats are rationals here; [to_datetime] is the pandas parser on the
    strings of the samples. *)

Module Sample.

Definition float : Type := Qc.
Definition float_of (q : Q) : float := Q2Qc q.

(** 2024-01-01T00:00:00 is 1704067200 s after the epoch. *)
Definition to_datetime (s : string) : option Timestamp :=
  if String.eqb s "2024-01-01T00:00:00Z"
  then Some (MkTimestamp 1704067200000000000 (Some 0))
  else if String.eqb s "2024-01-01T05:00:00+05:00"
  then Some (MkTimestamp 1704085200000000000 (Some 18000000000000))
  else if String.eqb s "2024-01-01T00:00:00"
  then Some (MkTimestamp 1704067200000000000 None)
  else if String.eqb s "2024-01-01T00:00:00.123456789Z"
  then Some (MkTimestamp 1704067200123456789 (Some 0))
  else None.

Definition entry (parameter : string) (value : Q) (lastUpdated unit_ : string)
    : Raw.meas float :=
  Raw.Meas (Some parameter) (Some (float_of value)) (Some lastUpdated) (Some unit_).

Definition record (location city country : string) (entries : list (Raw.meas float))
    : Raw.result float :=
  Raw.Result (Some (Some location)) (Some (Some city)) (Some (Some country))
    (Some (Some (Raw.Coords (Some (float_of (538 # 10))) (Some (float_of (-15 # 10))))))
    (Some (Some entries)).

(** The record of the example of the specification. *)
Definition station_a : Raw.result float :=
  record "Station A" "Leeds" "UK" [entry "pm25" 12 "2024-01-01T00:00:00Z" "ug/m3"].

Definition station_b : Raw.result float :=
  record "Station B" "Leeds" "UK"
    [entry "pm25" 7 "2024-01-01T00:00:00Z" "ug/m3";
     entry "pm25" 7 "2024-01-01T00:00:00Z" "ug/m3";
     entry "pm10" 9 "not a date" "ug/m3"].

Definition station_c : Raw.result float :=
  record "Station C" "Lyon" "FR" [entry "pm25" 3 "2024-01-01T00:00:00Z" "ug/m3"].

(** [station_a] without its [city] field. *)
Definition no_city : Raw.result float :=
  Raw.Result (Some (Some "Station A")) None (Some (Some "UK"))
    (Some (Some (Raw.Coords (Some (float_of (538 # 10))) (Some (float_of (-15 # 10))))))
    (Some (Some [entry "pm25" 12 "2024-01-01T00:00:00Z" "ug/m3"])).

(** [station_a] with its [city] given as null, and with its [coordinates]
    given as null. *)
Definition null_city : Raw.result float :=
  Raw.Result (Some (Some "Station A")) (Some None) (Some (Some "UK"))
    (Some (Some (Raw.Coords (Some (float_of (538 # 10))) (Some (float_of (-15 # 10))))))
    (Some (Some [entry "pm25" 12 "2024-01-01T00:00:00Z" "ug/m3"])).

Definition null_coordinates : Raw.result float :=
  Raw.Result (Some (Some "Station A")) (Some (Some "Leeds")) (Some (Some "UK"))
    (Some None)
    (Some (Some [entry "pm25" 12 "2024-01-01T00:00:00Z" "ug/m3"])).

(** A reading stamped to the nanosecond. *)
Definition station_ns : Raw.result float :=
  record "Station N" "Leeds" "UK"
    [entry "pm25" 5 "2024-01-01T00:00:00.123456789Z" "ug/m3"].

(** A reading stamped five hours east of UTC. *)
Definition station_east : Raw.result float :=
  record "Station E" "Karachi" "PK" [entry "pm25" 40 "2024-01-01T05:00:00+05:00" "ug/m3"].

Definition no_rows : frames float := Frames [] [] [] [].

(** The store after [station_a] was loaded into the empty store. *)
Definition after_station_a : frames float :=
  Frames [Country.Build 1 (Some "UK")] [City.Build 1 (Some "Leeds") 1]
         [Location.Build 1 (Some "Station A") 1
            (float_of (538 # 10)) (float_of (-15 # 10))]
         [Measurement.Build 1 "pm25" (float_of 12) (Some 1704067200000000000) "ug/m3"].

Definition empty_db : database float := Database no_rows ∅ [] [].

Definition never (db : database float) (op : db_op float) : bool := false.

Definition cities_upload_fails (db : database float) (op : db_op float) : bool :=
  match op with
  | ToSql _ CitiesTable => true
  | _ => false
  end.

(** [station_a] reporting no measurement. *)
Definition silent_station : Raw.result float := record "Station A" "Leeds" "UK" [].

(** Measurement rows of two parameters. *)
Definition readings : list (Measurement.t float (option Z)) :=
  [ Measurement.Build 1 "pm25" (float_of 12) (Some 1704067200000000000) "ug/m3";
    Measurement.Build 1 "pm10" (float_of 9) None "ug/m3";
    Measurement.Build 2 "pm25" (float_of 7) (Some 1704067200000000000) "ug/m3" ].

(** The database after a run has loaded [station_a] into the empty one,
    and a database that cannot read its countries table. *)
Definition loaded_db : database float :=
  Eval vm_compute in (fetch_process_load_data to_datetime never [station_a] empty_db).1.

Definition countries_unreadable (db : database float) (op : db_op float) : bool :=
  match op with
  | SelectAll CountriesTable => true
  | _ => false
  end.

(** Credentials, complete and without the port; a URL is its arguments and
    an engine is made for every URL. *)
Definition creds : gmap string string :=
  list_to_map [("USER", "aq"); ("PASSWORD", "s3cret"); ("HOST", "localhost");
               ("PORT", "5432"); ("DATABASE", "openaq"); ("DRIVER", "postgresql")].

Definition creds_without_port : gmap string string := delete "PORT" creds.

Definition quote_plus (s : string) : string := s.

Definition URL_create (args : DBConnector.url_args)
    : DBConnector.result DBConnector.url_args :=
  DBConnector.Return args.

Definition create_engine (url : DBConnector.url_args) : DBConnector.result () :=
  DBConnector.Return ().

(** A database on which the check for a primary key fails. *)
Definition key_check_fails (db : database float) (op : db_op float) : bool :=
  match op with
  | CheckKeyExists _ PRIMARY_KEY => true
  | _ => false
  end.

End Sample.

(** * Properties *)

#[local] Set Warnings "-clear-no-such-hyp".

(** ** Facts about [populate_id_map] and about one registry *)

Section RegistryFacts.

Context {K R : Type} `{Countable K}.
Variables (key_cols : R → K) (id_col : R → Z) (new_row : K → Z → R).
Hypothesis key_new_row : ∀ k i, key_cols (new_row k i) = k.
Hypothesis id_new_row : ∀ k i, id_col (new_row k i) = i.

Lemma populate_id_map_app (l1 l2 : list R) (m : gmap K Z) (c : Z) :
  populate_id_map (l1 ++ l2) m id_col key_cols c =
  populate_id_map l2 (populate_id_map l1 m id_col key_cols c).1 id_col key_cols
                  (populate_id_map l1 m id_col key_cols c).2.
Proof.
  unfold populate_id_map. rewrite foldl_app.
  by destruct (foldl _ (m, c) l1).
Qed.

Lemma populate_id_map_snoc (l : list R) (row : R) (m : gmap K Z) (c : Z) :
  populate_id_map (l ++ [row]) m id_col key_cols c =
  (<[key_cols row := id_col row]> (populate_id_map l m id_col key_cols c).1,
   Z.max (populate_id_map l m id_col key_cols c).2 (id_col row + 1)).
Proof. by rewrite populate_id_map_app. Qed.

Lemma populate_id_map_lookup (l : list R) (m : gmap K Z) (c : Z) (k : K) (i : Z) :
  (populate_id_map l m id_col key_cols c).1 !! k = Some i →
  m !! k = Some i ∨ ∃ row, row ∈ l ∧ key_cols row = k ∧ id_col row = i.
Proof.
  induction l as [|row l IH] using rev_ind.
  - by left.
  - rewrite populate_id_map_snoc. simpl.
    destruct (decide (key_cols row = k)) as [<-|Hne].
    + rewrite lookup_insert_eq. intros [= <-]. right. exists row.
      split; [apply elem_of_app; right; by apply list_elem_of_singleton|done].
    + rewrite lookup_insert_ne by done. intros [?|(row' & ? & ? & ?)]%IH; [by left|].
      right. exists row'. split; [apply elem_of_app; by left|done].
Qed.

Lemma populate_id_map_lookup_None (l : list R) (m : gmap K Z) (c : Z) (k : K) :
  (populate_id_map l m id_col key_cols c).1 !! k = None ↔
  m !! k = None ∧ k ∉ key_cols <$> l.
Proof.
  induction l as [|row l IH] using rev_ind.
  - simpl. split; [intros ?; split; [done|by apply not_elem_of_nil]|by intros []].
  - rewrite populate_id_map_snoc, fmap_app. simpl.
    destruct (decide (key_cols row = k)) as [<-|Hne].
    + rewrite lookup_insert_eq. split; [done|]. intros [_ []].
      apply elem_of_app. right. by apply list_elem_of_singleton.
    + rewrite lookup_insert_ne, IH by done. rewrite not_elem_of_app.
      split; [intros []; repeat split; try done|naive_solver].
      by intros ?%list_elem_of_singleton.
Qed.

(** With unique keys in the store, every stored row is found under its key. *)
Lemma populate_id_map_lookup_unique (l : list R) (m : gmap K Z) (c : Z) (row : R) :
  NoDup (key_cols <$> l) → row ∈ l →
  (populate_id_map l m id_col key_cols c).1 !! key_cols row = Some (id_col row).
Proof.
  induction l as [|row' l IH] using rev_ind; [by intros _ ?%not_elem_of_nil|].
  rewrite fmap_app, populate_id_map_snoc. simpl.
  intros [Hl [Hnew _]]%NoDup_app [Hin| ->%list_elem_of_singleton]%elem_of_app.
  - rewrite lookup_insert_ne; [by apply IH|].
    intros Heq. apply (Hnew (key_cols row)).
    + by apply list_elem_of_fmap_2.
    + rewrite <- Heq. by apply list_elem_of_singleton.
  - by rewrite lookup_insert_eq.
Qed.

Lemma populate_id_map_counter_ge (l : list R) (m : gmap K Z) (c : Z) :
  c ≤ (populate_id_map l m id_col key_cols c).2.
Proof.
  induction l as [|row l IH] using rev_ind; [done|].
  rewrite populate_id_map_snoc. simpl. lia.
Qed.

Lemma populate_id_map_counter_gt (l : list R) (m : gmap K Z) (c : Z) (row : R) :
  row ∈ l → id_col row < (populate_id_map l m id_col key_cols c).2.
Proof.
  induction l as [|row' l IH] using rev_ind; [by intros ?%not_elem_of_nil|].
  rewrite populate_id_map_snoc. simpl.
  intros [Hin| ->%list_elem_of_singleton]%elem_of_app; [|lia].
  specialize (IH Hin). lia.
Qed.

Lemma populate_id_map_counter_cases (l : list R) (m : gmap K Z) (c : Z) :
  (populate_id_map l m id_col key_cols c).2 = c
  ∨ ∃ row, row ∈ l ∧ (populate_id_map l m id_col key_cols c).2 = id_col row + 1.
Proof.
  induction l as [|row l IH] using rev_ind; [by left|].
  rewrite populate_id_map_snoc. simpl.
  destruct (Z.max_spec (populate_id_map l m id_col key_cols c).2 (id_col row + 1))
    as [[_ ->]|[_ ->]].
  - right. exists row. split; [|done].
    apply elem_of_app. right. by apply list_elem_of_singleton.
  - destruct IH as [?|(row' & ? & ?)]; [by left|].
    right. exists row'. split; [apply elem_of_app; by left|done].
Qed.

(** The counter after seeding: one more than the maximum stored id, and at
    least the initial counter. *)
Lemma populate_id_map_counter_max (l : list R) (m : gmap K Z) (M : Z) :
  is_max_id M (id_col <$> l) →
  (populate_id_map l m id_col key_cols 1).2 = Z.max 1 (M + 1).
Proof.
  intros [[Hnil ->]|[HM Hle]].
  - apply fmap_nil_inv in Hnil as ->. done.
  - apply list_elem_of_fmap in HM as (rowM & -> & HrowM).
    pose proof (populate_id_map_counter_ge l m 1) as Hge.
    pose proof (populate_id_map_counter_gt l m 1 rowM HrowM) as Hgt.
    destruct (populate_id_map_counter_cases l m 1) as [Heq|(row & Hrow & Heq)]; [lia|].
    assert (id_col row ≤ id_col rowM) by (apply Hle; by apply list_elem_of_fmap_2).
    lia.
Qed.

Lemma registry_inv_init (m0 : gmap K Z) (c0 : Z) :
  registry_inv key_cols id_col m0 c0 [] (m0, c0, []).
Proof.
  constructor; simpl; try done.
  - lia.
  - apply NoDup_nil_2.
  - intros k. split; [by intros ?%not_elem_of_nil|by intros [?%not_elem_of_nil _]].
  - intros k i. split; [by left|]. by intros [?|(? & ?%not_elem_of_nil & _)].
  - by intros k i ?%not_elem_of_nil.
Qed.

Lemma registry_inv_step (m0 : gmap K Z) (c0 : Z) (tr : list (K * Z))
    (reg : gmap K Z * Z * list R) (k : K) :
  registry_inv key_cols id_col m0 c0 tr reg →
  ∃ i, (resolve_key new_row k reg).1.1 !! k = Some i
       ∧ registry_inv key_cols id_col m0 c0 (tr ++ [(k, i)]) (resolve_key new_row k reg).
Proof.
  destruct reg as [[m c] rows]. intros [Hseed Hids Hc Hnd Hnew Hmap Hpop Htr].
  simpl in *. unfold resolve_key. simpl.
  destruct (m !! k) as [i|] eqn:Hk.
  - exists i. split; [done|]. constructor; simpl; try done.
    + intros k'. rewrite Hnew, fmap_app, elem_of_app. simpl.
      split; [naive_solver|]. intros [[?| ->%list_elem_of_singleton] Hk']; [done|].
      apply Hmap in Hk as [?|(row & ? & ? & ?)]; [congruence|].
      split; [|done]. apply Hnew. subst k. by apply list_elem_of_fmap_2.
    + intros k' i' [?|[= -> ->]%list_elem_of_singleton]%elem_of_app; [by apply Htr|done].
  - assert (m0 !! k = None) as Hk0.
    { destruct (m0 !! k) as [i|] eqn:E; [|done].
      eapply lookup_weaken in E; [|done]. congruence. }
    assert (k ∉ key_cols <$> rows) as Hfresh.
    { intros (row & -> & Hrow)%list_elem_of_fmap.
      assert (m !! key_cols row = Some (id_col row)); [|congruence].
      apply Hmap. right. by exists row. }
    exists c. split; [simpl; by rewrite lookup_insert_eq|]. constructor; simpl.
    + by apply insert_subseteq_r.
    + rewrite fmap_app, length_app, Nat2Z.inj_add, seqZ_app by lia. simpl.
      rewrite Hids, id_new_row. f_equal. rewrite seqZ_cons, seqZ_nil by lia.
      by rewrite Hc.
    + rewrite length_app. simpl. lia.
    + rewrite fmap_app. simpl. rewrite key_new_row. apply NoDup_app.
      split; [done|]. split; [|apply NoDup_singleton].
      by intros k' ? ->%list_elem_of_singleton.
    + intros k'. rewrite !fmap_app, !elem_of_app. simpl.
      rewrite key_new_row, !list_elem_of_singleton, Hnew. naive_solver.
    + intros k' i'. destruct (decide (k = k')) as [<-|Hne].
      * rewrite lookup_insert_eq. split.
        -- intros [= <-]. right. exists (new_row k c).
           split; [apply elem_of_app; right; by apply list_elem_of_singleton|done].
        -- intros [?|(row & [Hrow| ->%list_elem_of_singleton]%elem_of_app & Hkey & Hid)].
           ++ congruence.
           ++ destruct Hfresh. subst k. by apply list_elem_of_fmap_2.
           ++ by rewrite <- Hid, id_new_row.
      * rewrite lookup_insert_ne, Hmap by done. split.
        -- intros [?|(row & ? & ? & ?)]; [by left|].
           right. exists row. split; [apply elem_of_app; by left|done].
        -- intros [?|(row & [Hrow| ->%list_elem_of_singleton]%elem_of_app & Hkey & Hid)].
           ++ by left.
           ++ right. by exists row.
           ++ by rewrite key_new_row in Hkey.
    + rewrite populate_id_map_snoc, Hpop. simpl.
      rewrite key_new_row, id_new_row. f_equal. lia.
    + intros k' i' [Hin|[= -> ->]%list_elem_of_singleton]%elem_of_app.
      * rewrite lookup_insert_ne; [by apply Htr|]. intros <-.
        apply Htr in Hin. congruence.
      * by rewrite lookup_insert_eq.
Qed.

(** A resolved id is the id of a seeded key or of a new row. *)
Lemma registry_inv_origin (m0 : gmap K Z) (c0 : Z) (tr : list (K * Z))
    (reg : gmap K Z * Z * list R) (k : K) (i : Z) :
  registry_inv key_cols id_col m0 c0 tr reg → (k, i) ∈ tr →
  m0 !! k = Some i ∨ ∃ row, row ∈ reg.2 ∧ key_cols row = k ∧ id_col row = i.
Proof. intros Hinv Hin. apply (inv_map _ _ _ _ _ _ Hinv), (inv_trace _ _ _ _ _ _ Hinv), Hin. Qed.

(** A new row was made for a key that was resolved, with the id it got. *)
Lemma registry_inv_row (m0 : gmap K Z) (c0 : Z) (tr : list (K * Z))
    (reg : gmap K Z * Z * list R) (row : R) :
  registry_inv key_cols id_col m0 c0 tr reg → row ∈ reg.2 →
  (key_cols row, id_col row) ∈ tr ∧ m0 !! key_cols row = None.
Proof.
  intros Hinv Hrow.
  assert (key_cols row ∈ key_cols <$> reg.2) as Hkey by by apply list_elem_of_fmap_2.
  apply (inv_new _ _ _ _ _ _ Hinv) in Hkey as [Hkey Hnone]. split; [|done].
  apply list_elem_of_fmap in Hkey as ([k i] & Hk & Hin). simpl in Hk. subst k.
  assert (reg.1.1 !! key_cols row = Some (id_col row)) as Hid.
  { apply (inv_map _ _ _ _ _ _ Hinv). right. by exists row. }
  apply (inv_trace _ _ _ _ _ _ Hinv) in Hin as Hi.
  rewrite Hid in Hi. by injection Hi as <-.
Qed.

(** The same key is never resolved to two ids. *)
Lemma registry_inv_stable (m0 : gmap K Z) (c0 : Z) (tr : list (K * Z))
    (reg : gmap K Z * Z * list R) (k : K) (i j : Z) :
  registry_inv key_cols id_col m0 c0 tr reg → (k, i) ∈ tr → (k, j) ∈ tr → i = j.
Proof.
  intros Hinv Hi%(inv_trace _ _ _ _ _ _ Hinv) Hj%(inv_trace _ _ _ _ _ _ Hinv).
  congruence.
Qed.

(** A seeded key is resolved to its seeded id. *)
Lemma registry_inv_seeded (m0 : gmap K Z) (c0 : Z) (tr : list (K * Z))
    (reg : gmap K Z * Z * list R) (k : K) (i j : Z) :
  registry_inv key_cols id_col m0 c0 tr reg → (k, i) ∈ tr → m0 !! k = Some j → i = j.
Proof.
  intros Hinv Hi%(inv_trace _ _ _ _ _ _ Hinv) Hj.
  eapply lookup_weaken in Hj; [|apply Hinv]. congruence.
Qed.

(** After seeding from the stored rows, allocation starts at
    [max 1 (M + 1)] and makes one row per unseen key. *)
Lemma registry_inv_allocates (existing : list R) (tr : list (K * Z))
    (reg : gmap K Z * Z * list R) :
  registry_inv key_cols id_col
    (populate_id_map existing ∅ id_col key_cols 1).1
    (populate_id_map existing ∅ id_col key_cols 1).2 tr reg →
  allocates_from (λ M, Z.max 1 (M + 1)) key_cols id_col existing (tr.*1) (reg.2).
Proof.
  intros Hinv M unseen HM Hnd Hunseen.
  assert (key_cols <$> reg.2 ≡ₚ unseen) as Hperm.
  { apply NoDup_Permutation; [apply Hinv|done|].
    intros k. rewrite (inv_new _ _ _ _ _ _ Hinv), Hunseen.
    rewrite populate_id_map_lookup_None, lookup_empty. naive_solver. }
  split; [|done].
  rewrite <- Hperm, length_fmap, <- (populate_id_map_counter_max existing ∅ M HM).
  apply Hinv.
Qed.

End RegistryFacts.

(** ** Facts about the loop of [process_air_quality_data] *)

Lemma res_bind_Ok {A B} (m : res A) (f : A → res B) (b : B) :
  m ≫= f = Ok b ↔ ∃ a, m = Ok a ∧ f a = Ok b.
Proof. destruct m; simpl; naive_solver. Qed.

Lemma res_bind_Raise {A B} (m : res A) (f : A → res B) (e : exn) :
  m ≫= f = Raise e ↔ m = Raise e ∨ ∃ a, m = Ok a ∧ f a = Raise e.
Proof. destruct m; simpl; naive_solver. Qed.

Lemma getitem_Ok {A} (key : string) (field : option A) (v : A) :
  getitem key field = Ok v ↔ field = Some v.
Proof. destruct field; simpl; naive_solver. Qed.

Lemma dict_getitem_Ok {K} `{Countable K} (name : string) (m : gmap K Z) (k : K) (v : Z) :
  dict_getitem name m k = Ok v ↔ m !! k = Some v.
Proof. unfold dict_getitem. destruct (m !! k); naive_solver. Qed.

Lemma subscript_Ok {A B} (obj : option A) (key : string) (field : A → option B) (v : B) :
  subscript obj key field = Ok v ↔ ∃ d, obj = Some d ∧ field d = Some v.
Proof.
  destruct obj as [d|]; simpl; [rewrite getitem_Ok|]; naive_solver.
Qed.

Lemma iter_Ok {A} (obj : option (list A)) (l : list A) : iter obj = Ok l ↔ obj = Some l.
Proof. destruct obj; simpl; naive_solver. Qed.

Section ProcessorFacts.

Context {F : Type} `{Countable F}.
Implicit Types (st : state F) (r : Raw.result F) (t : resolved F).

Lemma measurement_row_Ok (location_id : Z) (m : Raw.meas F)
    (row : Measurement.t F string) :
  measurement_row location_id m = Ok row ↔
  Raw.parameter m = Some (Measurement.parameter row)
  ∧ Raw.value m = Some (Measurement.value row)
  ∧ Raw.lastUpdated m = Some (Measurement.last_updated row)
  ∧ Raw.unit m = Some (Measurement.unit row)
  ∧ Measurement.location_id row = location_id.
Proof.
  unfold measurement_row. destruct m as [[p|] [v|] [l|] [u|]], row; simpl;
    (split; [intros [= <- <- <- <- <-]; done|intros (? & ? & ? & ? & ?)]);
    by simplify_eq.
Qed.

Lemma mapM_res_Ok {A B} (f : A → res B) (l : list A) (k : list B) :
  mapM f l = Ok k ↔ Forall2 (λ a b, f a = Ok b) l k.
Proof.
  revert k. induction l as [|a l IH]; intros k; simpl.
  - split; [intros [= <-]; constructor|by intros ->%Forall2_nil_inv_l].
  - rewrite res_bind_Ok. split.
    + intros (b & Hb & (k' & Hk' & [= <-])%res_bind_Ok).
      constructor; [done|by apply IH].
    + intros (b & k' & Hb & Hk' & ->)%Forall2_cons_inv_l.
      exists b. split; [done|]. apply res_bind_Ok. exists k'. split; [by apply IH|done].
Qed.

Lemma loop_body_Ok st r st' t :
  loop_body st r = Ok (st', t) →
  Raw.country r = Some (country_key t)
  ∧ Raw.city r = Some ((city_key t).1)
  ∧ Raw.location r = Some ((location_key t).1.1.1)
  ∧ (∃ c, Raw.coordinates r = Some (Some c)
          ∧ Raw.latitude c = Some ((location_key t).1.2)
          ∧ Raw.longitude c = Some ((location_key t).2))
  ∧ chained t
  ∧ country_registry st' = resolve_key new_country (country_key t) (country_registry st)
  ∧ country_id_map st' !! country_key t = Some (res_country_id t)
  ∧ city_registry st' = resolve_key new_city (city_key t) (city_registry st)
  ∧ city_id_map st' !! city_key t = Some (res_city_id t)
  ∧ location_registry st' = resolve_key new_location (location_key t) (location_registry st)
  ∧ location_id_map st' !! location_key t = Some (res_location_id t)
  ∧ ∃ entries rows,
      Raw.measurements r = Some (Some entries)
      ∧ mapM (measurement_row (res_location_id t)) entries = Ok rows
      ∧ measurements st' = measurements st ++ rows.
Proof.
  unfold loop_body.
  intros (location_name & ->%getitem_Ok & Hr)%res_bind_Ok.
  apply res_bind_Ok in Hr as (city & ->%getitem_Ok & Hr).
  apply res_bind_Ok in Hr as (country & ->%getitem_Ok & Hr).
  apply res_bind_Ok in Hr as (coordinates & ->%getitem_Ok & Hr).
  unfold country_registry, city_registry, location_registry, resolve_key. simpl.
  destruct (country_id_map st !! country) as [ci|] eqn:Hcountry;
    apply res_bind_Ok in Hr as (country_id & Hci%dict_getitem_Ok & Hr);
    (destruct (city_id_map st !! (city, country_id)) as [cj|] eqn:Hcity;
     apply res_bind_Ok in Hr as (city_id & Hcj%dict_getitem_Ok & Hr);
     apply res_bind_Ok in Hr as (latitude & (c & -> & Hlat)%subscript_Ok & Hr);
     apply res_bind_Ok in Hr as (longitude & (c' & [= <-] & Hlon)%subscript_Ok & Hr);
     (destruct (location_id_map st !! (location_name, city_id, latitude, longitude))
        as [cl|] eqn:Hlocation;
      apply res_bind_Ok in Hr as (location_id & Hcl%dict_getitem_Ok & Hr);
      apply res_bind_Ok in Hr as (measurements_field & ->%getitem_Ok & Hr);
      apply res_bind_Ok in Hr as (entries & ->%iter_Ok & Hr);
      apply res_bind_Ok in Hr as (rows & Hrows & Hr);
      injection Hr as <- <-; simpl;
      rewrite ?Hcountry, ?Hcity, ?Hlocation;
      repeat split; try done; eauto; congruence)).
Qed.

Lemma city_key_new_city (k : option string * Z) (i : Z) :
  city_key_cols (new_city k i) = k.
Proof. by destruct k. Qed.

Lemma location_key_new_location (k : option string * Z * F * F) (i : Z) :
  location_key_cols (new_location k i) = k.
Proof. by destruct k as [[[??]?]?]. Qed.

Lemma state_inv_init (st0 : state F) :
  countries st0 = [] → cities st0 = [] → locations st0 = [] → measurements st0 = [] →
  state_inv st0 [] st0.
Proof.
  intros Hc Hci Hl Hm.
  constructor; unfold country_registry, city_registry, location_registry;
    rewrite ?Hc, ?Hci, ?Hl, ?Hm.
  - apply registry_inv_init.
  - apply registry_inv_init.
  - apply registry_inv_init.
  - constructor.
  - by intros row ?%not_elem_of_nil.
Qed.

Lemma initial_state_rows (ec : list Country.t) (eci : list City.t)
    (el : list (Location.t F)) :
  countries (initial_state ec eci el) = []
  ∧ cities (initial_state ec eci el) = []
  ∧ locations (initial_state ec eci el) = []
  ∧ measurements (initial_state ec eci el) = [].
Proof.
  unfold initial_state.
  destruct (populate_id_map ec _ _ _ _), (populate_id_map eci _ _ _ _),
    (populate_id_map el _ _ _ _). done.
Qed.

Lemma initial_state_maps (ec : list Country.t) (eci : list City.t)
    (el : list (Location.t F)) :
  let st0 := initial_state ec eci el in
  (country_id_map st0, country_id_counter st0) =
    populate_id_map ec ∅ Country.country_id Country.country_name 1
  ∧ (city_id_map st0, city_id_counter st0) =
    populate_id_map eci ∅ City.city_id city_key_cols 1
  ∧ (location_id_map st0, location_id_counter st0) =
    populate_id_map el ∅ Location.location_id location_key_cols 1.
Proof.
  unfold initial_state.
  destruct (populate_id_map ec _ _ _ _), (populate_id_map eci _ _ _ _),
    (populate_id_map el _ _ _ _). done.
Qed.

Lemma state_inv_initial (ec : list Country.t) (eci : list City.t)
    (el : list (Location.t F)) :
  state_inv (initial_state ec eci el) [] (initial_state ec eci el).
Proof.
  destruct (initial_state_rows ec eci el) as (? & ? & ? & ?).
  by apply state_inv_init.
Qed.

Lemma loop_body_resolution st r st' t :
  loop_body st r = Ok (st', t) → resolution_of r t.
Proof.
  intros (? & ? & ? & ? & ? & _)%loop_body_Ok. by unfold resolution_of.
Qed.

Lemma state_inv_step (st0 : state F) (rs : list (resolved F)) st r st' t :
  state_inv st0 rs st → loop_body st r = Ok (st', t) →
  state_inv st0 (rs ++ [t]) st'.
Proof.
  intros [Hc Hci Hl Hch Hm]
    (_ & _ & _ & _ & Hcht & Hrc & Hlc & Hrci & Hlci & Hrl & Hll
       & entries & rows & _ & Hrows & Hms)%loop_body_Ok.
  constructor.
  - destruct (registry_inv_step Country.country_name Country.country_id new_country
                (λ _ _, eq_refl) (λ _ _, eq_refl) _ _ _ _ (country_key t) Hc)
      as (i & Hi & Hinv).
    rewrite <- Hrc in Hi, Hinv. simpl in Hi. rewrite Hlc in Hi. injection Hi as <-.
    unfold country_trace. by rewrite fmap_app.
  - destruct (registry_inv_step city_key_cols City.city_id new_city
                city_key_new_city (λ _ _, eq_refl)
                _ _ _ _ (city_key t) Hci)
      as (i & Hi & Hinv).
    rewrite <- Hrci in Hi, Hinv. simpl in Hi. rewrite Hlci in Hi. injection Hi as <-.
    unfold city_trace. by rewrite fmap_app.
  - destruct (registry_inv_step location_key_cols Location.location_id new_location
                location_key_new_location (λ _ _, eq_refl)
                _ _ _ _ (location_key t) Hl)
      as (i & Hi & Hinv).
    rewrite <- Hrl in Hi, Hinv. simpl in Hi. rewrite Hll in Hi. injection Hi as <-.
    unfold location_trace. by rewrite fmap_app.
  - apply Forall_app. split; [done|by constructor].
  - intros row. rewrite Hms. intros [Hin|Hin]%elem_of_app.
    + destruct (Hm row Hin) as (r0 & ? & ?). exists r0.
      split; [apply elem_of_app; by left|done].
    + exists t. split; [apply elem_of_app; right; by apply list_elem_of_singleton|].
      apply mapM_res_Ok in Hrows.
      apply list_elem_of_lookup in Hin as [j Hj].
      destruct (Forall2_lookup_r _ _ _ _ _ Hrows Hj) as (m & _ & Hrow).
      by apply measurement_row_Ok in Hrow as (_ & _ & _ & _ & ?).
Qed.

Lemma run_loop_Ok_cons st r (results : list (Raw.result F)) st' (ts : list (resolved F)) :
  run_loop st (r :: results) = Ok (st', ts) ↔
  ∃ st1 t ts', loop_body st r = Ok (st1, t)
               ∧ run_loop st1 results = Ok (st', ts') ∧ ts = t :: ts'.
Proof.
  simpl. rewrite res_bind_Ok. split.
  - intros ([st1 t] & Hbody & ([st2 ts'] & Hrest & [= <- <-])%res_bind_Ok).
    by exists st1, t, ts'.
  - intros (st1 & t & ts' & Hbody & Hrest & ->). exists (st1, t).
    split; [done|]. apply res_bind_Ok. by exists (st', ts').
Qed.

Lemma run_loop_inv (st0 : state F) (rs : list (resolved F)) st
    (results : list (Raw.result F)) st' (ts : list (resolved F)) :
  state_inv st0 rs st → run_loop st results = Ok (st', ts) →
  state_inv st0 (rs ++ ts) st' ∧ Forall2 resolution_of results ts.
Proof.
  revert rs st ts. induction results as [|r results IH]; intros rs st ts Hinv.
  - intros [= <- <-]. rewrite app_nil_r. split; [done|constructor].
  - intros (st1 & t & ts' & Hbody & Hrest & ->)%run_loop_Ok_cons.
    destruct (IH (rs ++ [t]) st1 ts') as [Hinv' Hres];
      [by eapply state_inv_step|done|].
    rewrite <- app_assoc in Hinv'. split; [done|].
    constructor; [by eapply loop_body_resolution|done].
Qed.








Lemma mapM_measurement_row_total (location_id : Z) (ms : list (Raw.meas F)) :
  Forall complete_measurement ms →
  ∃ rows, mapM (measurement_row location_id) ms = Ok rows.
Proof.
  induction 1 as [|m ms ([p Hp] & [v Hv] & [l Hl] & [u Hu]) _ [rows IH]].
  - by exists [].
  - destruct m as [pm vm lm um]. simpl in Hp, Hv, Hl, Hu. subst.
    exists (Measurement.Build location_id p v l u :: rows).
    apply mapM_res_Ok. constructor; [done|by apply mapM_res_Ok].
Qed.

(** A record with all its fields is processed without exception. *)
Lemma loop_body_total st r :
  complete_record r → ∃ st' t, loop_body st r = Ok (st', t).
Proof.
  intros ([location_name Hloc] & [city Hcity] & [country Hcountry]
          & (c & Hcoord & [lat Hlat] & [lon Hlon]) & ms & Hms & Hcomplete).
  unfold loop_body. rewrite Hloc, Hcity, Hcountry, Hcoord. simpl.
  unfold subscript.
  assert (∃ country_id,
    dict_getitem "country"
      (match country_id_map st !! country with
       | None => (<[country := country_id_counter st]> (country_id_map st),
                  country_id_counter st + 1,
                  countries st ++ [Country.Build (country_id_counter st) country])
       | Some _ => (country_id_map st, country_id_counter st, countries st)
       end).1.1 country = Ok country_id) as [country_id Hci].
  { destruct (country_id_map st !! country) as [i|] eqn:E; eexists;
      apply dict_getitem_Ok; simpl; [done|apply lookup_insert_eq]. }
  destruct (country_id_map st !! country); simpl in Hci |- *; rewrite Hci; simpl;
  (assert (∃ city_id,
     dict_getitem "city_key"
       (match city_id_map st !! (city, country_id) with
        | None => (<[(city, country_id) := city_id_counter st]> (city_id_map st),
                   city_id_counter st + 1,
                   cities st ++ [City.Build (city_id_counter st) city country_id])
        | Some _ => (city_id_map st, city_id_counter st, cities st)
        end).1.1 (city, country_id) = Ok city_id) as [city_id Hcj]
     by (destruct (city_id_map st !! (city, country_id)) as [i|] eqn:E; eexists;
         apply dict_getitem_Ok; simpl; [done|apply lookup_insert_eq]);
   destruct (city_id_map st !! (city, country_id)); simpl in Hcj |- *;
   rewrite Hcj; simpl; rewrite Hlat, Hlon; simpl;
   (assert (∃ location_id,
      dict_getitem "location_key"
        (match location_id_map st !! (location_name, city_id, lat, lon) with
         | None => (<[(location_name, city_id, lat, lon) := location_id_counter st]>
                      (location_id_map st),
                    location_id_counter st + 1,
                    locations st ++ [Location.Build (location_id_counter st)
                                       location_name city_id lat lon])
         | Some _ => (location_id_map st, location_id_counter st, locations st)
         end).1.1 (location_name, city_id, lat, lon) = Ok location_id)
      as [location_id Hcl]
      by (destruct (location_id_map st !! (location_name, city_id, lat, lon))
            as [i|] eqn:E; eexists;
          apply dict_getitem_Ok; simpl; [done|apply lookup_insert_eq]);
    destruct (location_id_map st !! (location_name, city_id, lat, lon));
    simpl in Hcl |- *; rewrite Hcl; simpl; rewrite Hms; simpl;
    destruct (mapM_measurement_row_total location_id ms Hcomplete) as [rows ->];
    simpl; by eexists _, _)).
Qed.

Lemma run_loop_total st (results : list (Raw.result F)) :
  Forall complete_record results → ∃ st' ts, run_loop st results = Ok (st', ts).
Proof.
  intros Hall. revert st. induction Hall as [|r results Hr _ IH]; intros st.
  - by exists st, [].
  - destruct (loop_body_total st r Hr) as (st1 & t & Hbody).
    destruct (IH st1) as (st2 & ts & Hrest).
    exists st2, (t :: ts). apply run_loop_Ok_cons. by exists st1, t, ts.
Qed.

Lemma raw_measurements_cons r (results : list (Raw.result F)) :
  raw_measurements (r :: results) = record_entries r ++ raw_measurements results.
Proof. done. Qed.

(** The measurement rows a run collects are those of the raw entries, in
    order. *)
Lemma run_loop_rows st (results : list (Raw.result F)) st' (ts : list (resolved F)) :
  run_loop st results = Ok (st', ts) →
  ∃ rows, measurements st' = measurements st ++ rows
          ∧ Forall2 (row_of_entry (λ s, s)) (raw_measurements results) rows.
Proof.
  revert st ts. induction results as [|r results IH]; intros st ts.
  - intros [= <- <-]. exists []. rewrite app_nil_r. split; [done|constructor].
  - intros (st1 & t & ts' & Hbody & Hrest & ->)%run_loop_Ok_cons.
    apply loop_body_Ok in Hbody
      as (_ & _ & _ & _ & _ & _ & _ & _ & _ & _ & _ & entries & rows1 & He & Hrows1 & Hms1).
    destruct (IH st1 ts' Hrest) as (rows2 & Hms2 & Hall2).
    exists (rows1 ++ rows2). split; [by rewrite Hms2, Hms1, app_assoc|].
    rewrite raw_measurements_cons. unfold record_entries. rewrite He. simpl.
    apply Forall2_app; [|done].
    apply mapM_res_Ok in Hrows1. eapply Forall2_impl; [done|].
    intros m row (? & ? & ? & ? & _)%measurement_row_Ok. repeat split; eauto.
Qed.

Lemma rows_last_updated (results : list (Raw.result F))
    (rows : list (Measurement.t F string)) :
  Forall2 (row_of_entry (λ s, s)) (raw_measurements results) rows →
  Measurement.last_updated <$> rows = raw_timestamps results.
Proof.
  unfold raw_timestamps. generalize (raw_measurements results). intros ms Hall.
  induction Hall as [|m row ms rows (_ & _ & _ & s & Hs & Hrow) _ IH]; [done|].
  rewrite fmap_cons, Hrow. simpl. rewrite Hs. by f_equal.
Qed.

(** *** Exceptions of the loop

    What the body of the loop raises on a record is [record_error]. *)
Lemma entry_error_Some (location_id : Z) (m : Raw.meas F) (e : exn) :
  entry_error m = Some e → measurement_row location_id m = Raise e.
Proof.
  unfold entry_error, measurement_row.
  destruct m as [[p|] [v|] [l|] [u|]]; simpl; congruence.
Qed.

Lemma entry_error_None (m : Raw.meas F) :
  entry_error m = None ↔ complete_measurement m.
Proof.
  unfold entry_error, complete_measurement.
  destruct m as [[p|] [v|] [l|] [u|]]; simpl;
    rewrite <- ?not_eq_None_Some; naive_solver.
Qed.

Lemma mapM_entry_error_Some (location_id : Z) (ms : list (Raw.meas F)) (e : exn) :
  head (omap entry_error ms) = Some e →
  mapM (measurement_row location_id) ms = Raise e.
Proof.
  induction ms as [|m ms IH]; simpl; [done|].
  destruct (entry_error m) as [e'|] eqn:Hm; simpl.
  - intros [= <-]. by rewrite (entry_error_Some location_id m e').
  - intros He. apply entry_error_None in Hm.
    destruct (mapM_measurement_row_total location_id [m]) as [rows Hrows];
      [by constructor|].
    simpl in Hrows. destruct (measurement_row location_id m) as [row|]; [|done].
    simpl. by rewrite (IH He).
Qed.

Lemma mapM_entry_error_None (ms : list (Raw.meas F)) :
  head (omap entry_error ms) = None ↔ Forall complete_measurement ms.
Proof.
  induction ms as [|m ms IH]; simpl; [by split; [constructor|]|].
  rewrite Forall_cons, <- IH, <- entry_error_None.
  destruct (entry_error m); simpl; naive_solver.
Qed.

Lemma record_error_None r : record_error r = None ↔ complete_record r.
Proof.
  unfold record_error, complete_record.
  destruct r as [[location|] [city|] [country|] [[[[lat|] [lon|]]|]|] [[ms|]|]];
    simpl; rewrite ?mapM_entry_error_None, <- ?not_eq_None_Some;
    split; try done; try naive_solver.
Qed.

Lemma loop_body_record_error st r (e : exn) :
  record_error r = Some e → loop_body st r = Raise e.
Proof.
  unfold record_error, loop_body.
  destruct (Raw.location r) as [location_name|]; simpl; [|congruence].
  destruct (Raw.city r) as [city|]; simpl; [|congruence].
  destruct (Raw.country r) as [country|]; simpl; [|congruence].
  destruct (Raw.coordinates r) as [coordinates|]; simpl; [|congruence].
  intros He.
  assert (∃ country_id,
    dict_getitem "country"
      (match country_id_map st !! country with
       | None => (<[country := country_id_counter st]> (country_id_map st),
                  country_id_counter st + 1,
                  countries st ++ [Country.Build (country_id_counter st) country])
       | Some _ => (country_id_map st, country_id_counter st, countries st)
       end).1.1 country = Ok country_id) as [country_id Hci].
  { destruct (country_id_map st !! country) as [i|] eqn:E; eexists;
      apply dict_getitem_Ok; simpl; [done|apply lookup_insert_eq]. }
  destruct (country_id_map st !! country); simpl in Hci |- *; rewrite Hci; simpl;
  (assert (∃ city_id,
     dict_getitem "city_key"
       (match city_id_map st !! (city, country_id) with
        | None => (<[(city, country_id) := city_id_counter st]> (city_id_map st),
                   city_id_counter st + 1,
                   cities st ++ [City.Build (city_id_counter st) city country_id])
        | Some _ => (city_id_map st, city_id_counter st, cities st)
        end).1.1 (city, country_id) = Ok city_id) as [city_id Hcj]
     by (destruct (city_id_map st !! (city, country_id)) as [i|] eqn:E; eexists;
         apply dict_getitem_Ok; simpl; [done|apply lookup_insert_eq]);
   destruct (city_id_map st !! (city, country_id)); simpl in Hcj |- *;
   rewrite Hcj; simpl;
   (destruct coordinates as [c|]; simpl; [|congruence]);
   (destruct (Raw.latitude c) as [lat|]; simpl; [|congruence]);
   (destruct (Raw.longitude c) as [lon|]; simpl; [|congruence]);
   (assert (∃ location_id,
      dict_getitem "location_key"
        (match location_id_map st !! (location_name, city_id, lat, lon) with
         | None => (<[(location_name, city_id, lat, lon) := location_id_counter st]>
                      (location_id_map st),
                    location_id_counter st + 1,
                    locations st ++ [Location.Build (location_id_counter st)
                                       location_name city_id lat lon])
         | Some _ => (location_id_map st, location_id_counter st, locations st)
         end).1.1 (location_name, city_id, lat, lon) = Ok location_id)
      as [location_id Hcl]
      by (destruct (location_id_map st !! (location_name, city_id, lat, lon))
            as [i|] eqn:E; eexists;
          apply dict_getitem_Ok; simpl; [done|apply lookup_insert_eq]);
    destruct (location_id_map st !! (location_name, city_id, lat, lon));
    simpl in Hcl |- *; rewrite Hcl; simpl;
    (destruct (Raw.measurements r) as [[ms|]|]; simpl; [|congruence..]);
    by rewrite (mapM_entry_error_Some location_id ms e He))).
Qed.

(** The loop raises the exception of the first record that has one. *)
Lemma run_loop_first_error st (before after : list (Raw.result F)) r (e : exn) :
  Forall (λ r', record_error r' = None) before → record_error r = Some e →
  run_loop st (before ++ r :: after) = Raise e.
Proof.
  intros Hbefore He. revert st.
  induction Hbefore as [|r' before Hr' _ IH]; intros st; simpl.
  - by rewrite (loop_body_record_error st r e He).
  - apply record_error_None in Hr'.
    destruct (loop_body_total st r' Hr') as (st1 & t & ->). simpl.
    by rewrite IH.
Qed.

(** A batch with a record that has an error splits at the first of them. *)
Lemma first_record_error (results : list (Raw.result F)) r :
  r ∈ results → is_Some (record_error r) →
  ∃ before r0 after e,
    results = before ++ r0 :: after
    ∧ Forall (λ r', record_error r' = None) before
    ∧ record_error r0 = Some e.
Proof.
  induction results as [|r' results IH]; [by intros ?%not_elem_of_nil|].
  intros Hin Hr.
  destruct (record_error r') as [e|] eqn:Hr'.
  - by exists [], r', results, e.
  - apply elem_of_cons in Hin as [->|Hin]; [rewrite Hr' in Hr; by destruct Hr|].
    destruct (IH Hin Hr) as (before & r0 & after & e & -> & Hbefore & He).
    exists (r' :: before), r0, after, e. split; [done|]. split; [|done].
    by constructor.
Qed.

(** A record that lacks a required field raises [KeyError] for the first
    of them that is absent. *)
Lemma record_error_lacking r :
  lacks_required_field r → ∃ key, record_error r = Some (KeyError key).
Proof.
  unfold lacks_required_field, record_error.
  destruct (Raw.location r); [|by eexists].
  destruct (Raw.city r); [|by eexists].
  destruct (Raw.country r); [|by eexists].
  destruct (Raw.coordinates r); [|by eexists].
  intros [?|[?|[?|?]]]; done.
Qed.

End ProcessorFacts.

(** ** Facts about normalisation and deduplication *)

Section FrameFacts.

Context {A : Type} `{EqDecision A}.

Lemma elem_of_drop_duplicates_from (seen l : list A) (x : A) :
  x ∈ drop_duplicates_from seen l ↔ x ∈ l ∧ x ∉ seen.
Proof.
  revert seen. induction l as [|y l IH]; intros seen; simpl.
  - split; [by intros ?%not_elem_of_nil|by intros [?%not_elem_of_nil _]].
  - destruct (decide (y ∈ seen)) as [Hy|Hy].
    + rewrite IH, elem_of_cons. split; [naive_solver|].
      intros [[->|?] ?]; [done|by split].
    + rewrite !elem_of_cons, IH, not_elem_of_cons. split.
      * intros [->|[? [? ?]]]; [by split; [left|]|by split; [right|]].
      * intros [[->|?] ?]; [by left|].
        destruct (decide (x = y)) as [->|?]; [by left|by right].
Qed.

Lemma NoDup_drop_duplicates_from (seen l : list A) :
  NoDup (drop_duplicates_from seen l).
Proof.
  revert seen. induction l as [|y l IH]; intros seen; simpl; [constructor|].
  destruct (decide (y ∈ seen)); [apply IH|].
  constructor; [|apply IH].
  rewrite elem_of_drop_duplicates_from, not_elem_of_cons. naive_solver.
Qed.

Lemma elem_of_drop_duplicates (l : list A) (x : A) : x ∈ drop_duplicates l ↔ x ∈ l.
Proof.
  unfold drop_duplicates. rewrite elem_of_drop_duplicates_from.
  split; [by intros []|]. intros ?. split; [done|apply not_elem_of_nil].
Qed.

Lemma NoDup_drop_duplicates (l : list A) : NoDup (drop_duplicates l).
Proof. apply NoDup_drop_duplicates_from. Qed.




Lemma elem_of_merge_left_only (left right : list A) (x : A) :
  x ∈ merge_left_only left right ↔ x ∈ left ∧ x ∉ right.
Proof. unfold merge_left_only. rewrite list_elem_of_filter. naive_solver. Qed.

End FrameFacts.

Section NormaliseFacts.

Context {F : Type} `{Countable F}.
Variable to_datetime : string → option Timestamp.

Lemma elem_of_deduplicate (new existing : list (Measurement.t F (option Z)))
    (x : Measurement.t F (option Z)) :
  x ∈ deduplicate new existing ↔ x ∈ new ∧ x ∉ existing.
Proof.
  unfold deduplicate. destruct existing as [|y existing].
  - rewrite elem_of_drop_duplicates. split; [|by intros []].
    intros ?. split; [done|apply not_elem_of_nil].
  - by rewrite elem_of_drop_duplicates, elem_of_merge_left_only.
Qed.

Lemma NoDup_deduplicate (new existing : list (Measurement.t F (option Z))) :
  NoDup (deduplicate new existing).
Proof. unfold deduplicate. destruct existing; apply NoDup_drop_duplicates. Qed.



(** Once the rows kept by a deduplication are stored, deduplicating the
    same rows again keeps nothing. *)
Lemma deduplicate_again (new existing : list (Measurement.t F (option Z))) :
  deduplicate new (existing ++ deduplicate new existing) = [].
Proof.
  apply elem_of_nil_inv. intros x [Hnew Hex]%elem_of_deduplicate.
  apply Hex, elem_of_app.
  destruct (decide (x ∈ existing)); [by left|right].
  by apply elem_of_deduplicate.
Qed.

Lemma normalise_last_updated_Ok (rows : list (Measurement.t F string))
    (normalised : list (Measurement.t F (option Z))) :
  normalise_last_updated to_datetime rows = Ok normalised ↔
  rows ≠ []
  ∧ datetimelike (to_datetime <$> (Measurement.last_updated <$> rows)) = true
  ∧ normalised = normalised_row to_datetime <$> rows.
Proof.
  assert (∀ l : list (Measurement.t F string),
    zip_with (λ (row : Measurement.t F string) (ts : option Z),
                Measurement.Build (Measurement.location_id row)
                  (Measurement.parameter row) (Measurement.value row)
                  ts (Measurement.unit row))
      l ((λ ts : option Timestamp, wall_clock <$> ts)
           <$> (to_datetime <$> (Measurement.last_updated <$> l)))
    = normalised_row to_datetime <$> l) as Hzip.
  { induction l as [|row l IH]; [done|]. simpl. f_equal. apply IH. }
  unfold normalise_last_updated, dt_tz_localize_none.
  destruct rows as [|row rows]; [simpl; naive_solver|].
  simpl mbind at 1. unfold mbind at 1, res_bind at 1.
  destruct (datetimelike _); simpl.
  - unfold mret, res_ret. split.
    + intros [= <-]. repeat split; [done|]. apply (Hzip (row :: rows)).
    + intros (_ & _ & ->). f_equal. apply (Hzip (row :: rows)).
  - split; [done|]. by intros (_ & ? & _).
Qed.

Lemma process_frames_Ok (existing : frames F) (results : list (Raw.result F))
    (out : frames F) :
  process_frames to_datetime existing results = Ok out ↔
  ∃ st ts,
    run_loop (initial_state (countries_df existing) (cities_df existing)
                            (locations_df existing)) results = Ok (st, ts)
    ∧ measurements st ≠ []
    ∧ datetimelike (to_datetime <$> (Measurement.last_updated <$> measurements st)) = true
    ∧ out = Frames (countries st) (cities st) (locations st)
              (deduplicate (normalised_row to_datetime <$> measurements st)
                           (measurements_df existing)).
Proof.
  unfold process_frames. rewrite res_bind_Ok. split.
  - intros ([st ts] & Hloop & (n & (? & ? & ->)%normalise_last_updated_Ok
                                & [= <-])%res_bind_Ok).
    by exists st, ts.
  - intros (st & ts & Hloop & Hne & Hdt & ->). exists (st, ts). split; [done|].
    apply res_bind_Ok. exists (normalised_row to_datetime <$> measurements st).
    split; [by apply normalise_last_updated_Ok|done].
Qed.

Lemma resolutions_Ok (existing : frames F) (results : list (Raw.result F))
    (ts : list (resolved F)) :
  resolutions existing results = Ok ts ↔
  ∃ st, run_loop (initial_state (countries_df existing) (cities_df existing)
                                (locations_df existing)) results = Ok (st, ts).
Proof.
  unfold resolutions. rewrite res_bind_Ok. split.
  - intros ([st ts'] & ? & [= <-]). by exists st.
  - intros (st & ?). by exists (st, ts).
Qed.

End NormaliseFacts.

(** ** The properties of the specification: entity resolution *)

Section Resolution.

Context {F : Type} `{Countable F}.
Variable to_datetime : string → option Timestamp.

(** What a completed run provides: the final state of the loop, with the
    invariant, and the frames in terms of that state. *)
Lemma run_facts (existing : frames F) (results : list (Raw.result F)) (out : frames F) :
  process_frames to_datetime existing results = Ok out →
  ∃ st ts,
    let st0 := initial_state (countries_df existing) (cities_df existing)
                             (locations_df existing) in
    run_loop st0 results = Ok (st, ts)
    ∧ resolutions existing results = Ok ts
    ∧ state_inv st0 ts st
    ∧ Forall2 resolution_of results ts
    ∧ measurements st ≠ []
    ∧ out = Frames (countries st) (cities st) (locations st)
              (deduplicate (normalised_row to_datetime <$> measurements st)
                           (measurements_df existing)).
Proof.
  intros (st & ts & Hloop & Hne & _ & ->)%process_frames_Ok.
  exists st, ts. simpl.
  destruct (run_loop_inv _ [] _ _ _ _ (state_inv_initial _ _ _) Hloop) as [Hinv Hres].
  simpl in Hinv.
  split; [done|]. split; [apply resolutions_Ok; by exists st|]. by repeat (split; [done|]).
Qed.

Lemma elem_of_trace {A} (f : resolved F → A) (ts : list (resolved F)) (t : resolved F) :
  t ∈ ts → f t ∈ f <$> ts.
Proof. apply list_elem_of_fmap_2. Qed.

(** C1 — Key stability.  In a run that completes, the identity keys of the
    records are resolved one after the other ([ts], one resolution per
    record).  (1) Two resolutions of the same country, city or location key
    in the run give the same id.  (2) A key that the seeded registry (the
    id map filled from the stored rows) already binds is resolved to the
    id bound there; when the stored keys are unique that is the id of the
    stored row.  (3) A second resolution allocates nothing: the new rows
    have pairwise different keys, none of them bound by the seeded
    registry. *)
Theorem key_stability (existing : frames F) (results : list (Raw.result F))
    (out : frames F) :
  process_frames to_datetime existing results = Ok out →
  let st0 := initial_state (countries_df existing) (cities_df existing)
                           (locations_df existing) in
  ∃ ts,
    resolutions existing results = Ok ts
    ∧ Forall2 resolution_of results ts
    ∧ (∀ t1 t2, t1 ∈ ts → t2 ∈ ts →
         (country_key t1 = country_key t2 → res_country_id t1 = res_country_id t2)
         ∧ (city_key t1 = city_key t2 → res_city_id t1 = res_city_id t2)
         ∧ (location_key t1 = location_key t2 → res_location_id t1 = res_location_id t2))
    ∧ (∀ t, t ∈ ts →
         (∀ i, country_id_map st0 !! country_key t = Some i → res_country_id t = i)
         ∧ (∀ i, city_id_map st0 !! city_key t = Some i → res_city_id t = i)
         ∧ (∀ i, location_id_map st0 !! location_key t = Some i → res_location_id t = i))
    ∧ (∀ t, t ∈ ts →
         (∀ row, NoDup (Country.country_name <$> countries_df existing) →
                 row ∈ countries_df existing →
                 Country.country_name row = country_key t →
                 res_country_id t = Country.country_id row)
         ∧ (∀ row, NoDup (city_key_cols <$> cities_df existing) →
                   row ∈ cities_df existing →
                   city_key_cols row = city_key t →
                   res_city_id t = City.city_id row)
         ∧ (∀ row, NoDup (location_key_cols <$> locations_df existing) →
                   row ∈ locations_df existing →
                   location_key_cols row = location_key t →
                   res_location_id t = Location.location_id row))
    ∧ (NoDup (Country.country_name <$> countries_df out)
       ∧ ∀ row, row ∈ countries_df out →
                country_id_map st0 !! Country.country_name row = None)
    ∧ (NoDup (city_key_cols <$> cities_df out)
       ∧ ∀ row, row ∈ cities_df out → city_id_map st0 !! city_key_cols row = None)
    ∧ (NoDup (location_key_cols <$> locations_df out)
       ∧ ∀ row, row ∈ locations_df out →
                location_id_map st0 !! location_key_cols row = None).
Proof.
  intros (st & ts & Hloop & Hres & [Hc Hci Hl Hch Hm] & Hrec & Hne & ->)%run_facts.
  cbv zeta.
  destruct (initial_state_maps (countries_df existing) (cities_df existing)
              (locations_df existing)) as (Hmc & Hmci & Hml).
  apply (f_equal fst) in Hmc, Hmci, Hml. simpl in Hmc, Hmci, Hml.
  exists ts. split; [done|]. split; [done|]. split; [|split; [|split; [|split]]].
  - intros t1 t2 Ht1 Ht2. repeat split; intros Hk.
    + eapply (registry_inv_stable _ _ _ _ _ _ _ _ _ Hc);
        [apply (elem_of_trace (λ t, (country_key t, res_country_id t))), Ht1|].
      rewrite Hk. apply (elem_of_trace (λ t, (country_key t, res_country_id t))), Ht2.
    + eapply (registry_inv_stable _ _ _ _ _ _ _ _ _ Hci);
        [apply (elem_of_trace (λ t, (city_key t, res_city_id t))), Ht1|].
      rewrite Hk. apply (elem_of_trace (λ t, (city_key t, res_city_id t))), Ht2.
    + eapply (registry_inv_stable _ _ _ _ _ _ _ _ _ Hl);
        [apply (elem_of_trace (λ t, (location_key t, res_location_id t))), Ht1|].
      rewrite Hk. apply (elem_of_trace (λ t, (location_key t, res_location_id t))), Ht2.
  - intros t Ht. repeat split; intros i Hi.
    + eapply (registry_inv_seeded _ _ _ _ _ _ _ _ _ Hc); [|done].
      apply (elem_of_trace (λ t, (country_key t, res_country_id t))), Ht.
    + eapply (registry_inv_seeded _ _ _ _ _ _ _ _ _ Hci); [|done].
      apply (elem_of_trace (λ t, (city_key t, res_city_id t))), Ht.
    + eapply (registry_inv_seeded _ _ _ _ _ _ _ _ _ Hl); [|done].
      apply (elem_of_trace (λ t, (location_key t, res_location_id t))), Ht.
  - intros t Ht. repeat split; intros row Hnd Hrow Hk.
    + eapply (registry_inv_seeded _ _ _ _ _ _ _ _ _ Hc);
        [apply (elem_of_trace (λ t, (country_key t, res_country_id t))), Ht|].
      rewrite Hmc, <- Hk. by apply populate_id_map_lookup_unique.
    + eapply (registry_inv_seeded _ _ _ _ _ _ _ _ _ Hci);
        [apply (elem_of_trace (λ t, (city_key t, res_city_id t))), Ht|].
      rewrite Hmci, <- Hk. by apply populate_id_map_lookup_unique.
    + eapply (registry_inv_seeded _ _ _ _ _ _ _ _ _ Hl);
        [apply (elem_of_trace (λ t, (location_key t, res_location_id t))), Ht|].
      rewrite Hml, <- Hk. by apply populate_id_map_lookup_unique.
  - split; [apply (inv_nodup _ _ _ _ _ _ Hc)|]. intros row Hrow.
    by apply (registry_inv_row _ _ _ _ _ _ _ Hc) in Hrow as [_ ?].
  - split; [split; [apply (inv_nodup _ _ _ _ _ _ Hci)|]
           |split; [apply (inv_nodup _ _ _ _ _ _ Hl)|]]; intros row Hrow.
    + by apply (registry_inv_row _ _ _ _ _ _ _ Hci) in Hrow as [_ ?].
    + by apply (registry_inv_row _ _ _ _ _ _ _ Hl) in Hrow as [_ ?].
Qed.

Lemma trace_keys {A B} (f : resolved F → A) (g : resolved F → B) (ts : list (resolved F)) :
  ((λ t, (f t, g t)) <$> ts).*1 = f <$> ts.
Proof. by rewrite <- list_fmap_compose. Qed.

(** When no stored id is negative, allocation from [max 1 (M + 1)] is
    allocation from [M + 1]. *)
Lemma allocates_from_max {K R : Type} (key_cols : R → K) (id_col : R → Z)
    (existing : list R) (resolved_keys : list K) (new_rows : list R) :
  Forall (λ row, 0 ≤ id_col row) existing →
  allocates_from (λ M, Z.max 1 (M + 1)) key_cols id_col existing resolved_keys new_rows →
  allocates_from (λ M, M + 1) key_cols id_col existing resolved_keys new_rows.
Proof.
  intros Hpos Halloc M unseen HM Hnd Hunseen.
  destruct (Halloc M unseen HM Hnd Hunseen) as [Hids Hkeys]. split; [|done].
  rewrite Hids. f_equal. apply Z.max_r.
  destruct HM as [[_ ->]|[(row & -> & Hrow)%list_elem_of_fmap _]]; [lia|].
  rewrite Forall_forall in Hpos. specialize (Hpos row Hrow). lia.
Qed.

(** The ids of new rows are positive. *)
Lemma registry_inv_positive {K R : Type} `{Countable K} (key_cols : R → K)
    (id_col : R → Z) (existing : list R) (tr : list (K * Z))
    (reg : gmap K Z * Z * list R) :
  registry_inv key_cols id_col
    (populate_id_map existing ∅ id_col key_cols 1).1
    (populate_id_map existing ∅ id_col key_cols 1).2 tr reg →
  Forall (λ row, 1 ≤ id_col row) (reg.2).
Proof.
  intros Hinv. apply Forall_forall. intros row Hrow.
  assert (id_col row ∈ id_col <$> reg.2) as Hid by by apply list_elem_of_fmap_2.
  rewrite (inv_ids _ _ _ _ _ _ Hinv) in Hid. apply elem_of_seqZ in Hid.
  pose proof (populate_id_map_counter_ge key_cols id_col existing ∅ 1). lia.
Qed.

(** C2 — Monotonic allocation.  The ids that runs allocate are positive
    (numbering starts at 1), so the ids of the stored rows are not
    negative.  On such a store, for each entity type, let [M] be the
    maximum id of the stored rows (0 for an empty store) and let [unseen]
    list, without repetition, the keys resolved in the batch that no stored
    row has, [N] of them.  If the run completes, the new rows carry exactly
    the ids [M + 1], ..., [M + N], and their keys are the unseen keys, one
    row per key.  The new ids are positive again. *)
Theorem monotonic_allocation (existing : frames F) (results : list (Raw.result F))
    (out : frames F) :
  process_frames to_datetime existing results = Ok out →
  Forall (λ row, 0 ≤ Country.country_id row) (countries_df existing) →
  Forall (λ row, 0 ≤ City.city_id row) (cities_df existing) →
  Forall (λ row, 0 ≤ Location.location_id row) (locations_df existing) →
  ∃ ts,
    resolutions existing results = Ok ts
    ∧ allocates_from (λ M, M + 1) Country.country_name Country.country_id
        (countries_df existing) (country_key <$> ts) (countries_df out)
    ∧ allocates_from (λ M, M + 1) city_key_cols City.city_id
        (cities_df existing) (city_key <$> ts) (cities_df out)
    ∧ allocates_from (λ M, M + 1) location_key_cols Location.location_id
        (locations_df existing) (location_key <$> ts) (locations_df out)
    ∧ Forall (λ row, 1 ≤ Country.country_id row) (countries_df out)
    ∧ Forall (λ row, 1 ≤ City.city_id row) (cities_df out)
    ∧ Forall (λ row, 1 ≤ Location.location_id row) (locations_df out).
Proof.
  intros (st & ts & Hloop & Hres & [Hc Hci Hl Hch Hm] & Hrec & Hne & ->)%run_facts
    Hposc Hposci Hposl.
  destruct (initial_state_maps (countries_df existing) (cities_df existing)
              (locations_df existing)) as (Hmc & Hmci & Hml).
  cbv zeta in Hmc, Hmci, Hml.
  exists ts. split; [done|]. simpl.
  split; [|split; [|split; [|split; [|split]]]].
  - apply allocates_from_max; [done|].
    rewrite <- (trace_keys country_key res_country_id).
    apply (registry_inv_allocates _ _ _ _ (country_registry st)).
    by rewrite <- Hmc.
  - apply allocates_from_max; [done|].
    rewrite <- (trace_keys city_key res_city_id).
    apply (registry_inv_allocates _ _ _ _ (city_registry st)).
    by rewrite <- Hmci.
  - apply allocates_from_max; [done|].
    rewrite <- (trace_keys location_key res_location_id).
    apply (registry_inv_allocates _ _ _ _ (location_registry st)).
    by rewrite <- Hml.
  - apply (registry_inv_positive Country.country_name Country.country_id
             (countries_df existing) (country_trace ts) (country_registry st)).
    by rewrite <- Hmc.
  - apply (registry_inv_positive city_key_cols City.city_id
             (cities_df existing) (city_trace ts) (city_registry st)).
    by rewrite <- Hmci.
  - apply (registry_inv_positive location_key_cols Location.location_id
             (locations_df existing) (location_trace ts) (location_registry st)).
    by rewrite <- Hml.
Qed.

(** C3 — Dedup correctness.  The measurement rows returned by a run are
    pairwise different as tuples (location_id, parameter, value,
    last_updated, unit), and none of them equals a stored measurement row. *)
Theorem dedup_correctness (existing : frames F) (results : list (Raw.result F))
    (out : frames F) :
  process_frames to_datetime existing results = Ok out →
  NoDup (measurements_df out)
  ∧ ∀ row, row ∈ measurements_df out → row ∉ measurements_df existing.
Proof.
  intros (st & ts & _ & _ & _ & ->)%process_frames_Ok. simpl. split.
  - apply NoDup_deduplicate.
  - by intros row [_ ?]%elem_of_deduplicate.
Qed.

(** Every id that a run resolved is the id of a stored row or of a new row. *)
Lemma resolved_ids_known (existing : frames F) (st : state F) (ts : list (resolved F))
    (t : resolved F) :
  state_inv (initial_state (countries_df existing) (cities_df existing)
                           (locations_df existing)) ts st →
  t ∈ ts →
  res_country_id t ∈ Country.country_id <$> (countries_df existing ++ countries st)
  ∧ res_city_id t ∈ City.city_id <$> (cities_df existing ++ cities st)
  ∧ res_location_id t ∈ Location.location_id <$> (locations_df existing ++ locations st).
Proof.
  intros [Hc Hci Hl _ _] Ht.
  destruct (initial_state_maps (countries_df existing) (cities_df existing)
              (locations_df existing)) as (Hmc & Hmci & Hml).
  apply (f_equal fst) in Hmc, Hmci, Hml. simpl in Hmc, Hmci, Hml.
  rewrite !fmap_app, !elem_of_app. repeat split.
  - destruct (registry_inv_origin _ _ _ _ _ _ (country_key t) (res_country_id t) Hc)
      as [Hseed|(row & ? & _ & <-)];
      [apply (elem_of_trace (λ t, (country_key t, res_country_id t))), Ht| |].
    + rewrite Hmc in Hseed.
      apply populate_id_map_lookup in Hseed as [Hseed|(row & ? & _ & <-)];
        [by rewrite lookup_empty in Hseed|].
      left. by apply list_elem_of_fmap_2.
    + right. by apply list_elem_of_fmap_2.
  - destruct (registry_inv_origin _ _ _ _ _ _ (city_key t) (res_city_id t) Hci)
      as [Hseed|(row & ? & _ & <-)];
      [apply (elem_of_trace (λ t, (city_key t, res_city_id t))), Ht| |].
    + rewrite Hmci in Hseed.
      apply populate_id_map_lookup in Hseed as [Hseed|(row & ? & _ & <-)];
        [by rewrite lookup_empty in Hseed|].
      left. by apply list_elem_of_fmap_2.
    + right. by apply list_elem_of_fmap_2.
  - destruct (registry_inv_origin _ _ _ _ _ _ (location_key t) (res_location_id t) Hl)
      as [Hseed|(row & ? & _ & <-)];
      [apply (elem_of_trace (λ t, (location_key t, res_location_id t))), Ht| |].
    + rewrite Hml in Hseed.
      apply populate_id_map_lookup in Hseed as [Hseed|(row & ? & _ & <-)];
        [by rewrite lookup_empty in Hseed|].
      left. by apply list_elem_of_fmap_2.
    + right. by apply list_elem_of_fmap_2.
Qed.

(** C4 — No orphan foreign keys.  In the frames a run returns, the
    [country_id] of every city row is the id of a stored or returned
    country row, the [city_id] of every location row is the id of a stored
    or returned city row, and the [location_id] of every measurement row is
    the id of a stored or returned location row. *)
Theorem no_orphans (existing : frames F) (results : list (Raw.result F))
    (out : frames F) :
  process_frames to_datetime existing results = Ok out →
  (∀ row, row ∈ cities_df out →
     City.country_id row ∈
       Country.country_id <$> (countries_df existing ++ countries_df out))
  ∧ (∀ row, row ∈ locations_df out →
       Location.city_id row ∈ City.city_id <$> (cities_df existing ++ cities_df out))
  ∧ (∀ row, row ∈ measurements_df out →
       Measurement.location_id row ∈
         Location.location_id <$> (locations_df existing ++ locations_df out)).
Proof.
  intros (st & ts & Hloop & Hres & Hinv & Hrec & Hne & ->)%run_facts. simpl.
  pose proof Hinv as [Hc Hci Hl Hch Hm].
  repeat split; intros row Hrow.
  - apply (registry_inv_row _ _ _ _ _ _ _ Hci) in Hrow as [Hrow _].
    apply list_elem_of_fmap in Hrow as (t & [= Hkey _] & Ht).
    rewrite Forall_forall in Hch. destruct (Hch t Ht) as [Hchain _].
    replace (City.country_id row) with (res_country_id t)
      by (by rewrite <- Hchain, <- Hkey).
    by apply (resolved_ids_known existing st ts t Hinv Ht).
  - apply (registry_inv_row _ _ _ _ _ _ _ Hl) in Hrow as [Hrow _].
    apply list_elem_of_fmap in Hrow as (t & [= Hkey _] & Ht).
    rewrite Forall_forall in Hch. destruct (Hch t Ht) as [_ Hchain].
    replace (Location.city_id row) with (res_city_id t)
      by (by rewrite <- Hchain, <- Hkey).
    by apply (resolved_ids_known existing st ts t Hinv Ht).
  - apply elem_of_deduplicate in Hrow as [Hrow _].
    apply list_elem_of_fmap in Hrow as (raw & -> & Hraw).
    destruct (Hm raw Hraw) as (t & Ht & Hid). simpl. rewrite Hid.
    by apply (resolved_ids_known existing st ts t Hinv Ht).
Qed.

End Resolution.

(** ** Facts about [_upload_data] *)

Section LoaderFacts.

Context {F : Type} `{Countable F}.
Variable fails : database F → db_op F → bool.

Lemma keeps_stored_ret {A} (a : A) : keeps_stored (ret (F:=F) a).
Proof. done. Qed.

Lemma keeps_stored_bind {A B} (m : action A) (f : A → action B) :
  keeps_stored m → (∀ a, keeps_stored (f a)) → keeps_stored (bind (F:=F) m f).
Proof.
  intros Hm Hf db. unfold bind. specialize (Hm db).
  destruct (m db) as [db' [a|e]]; simpl in *; [|done].
  by rewrite Hf.
Qed.

Lemma keeps_stored_cast (t : table) : keeps_stored (__cast_data_types (F:=F) fails t).
Proof. intros db. unfold __cast_data_types. by destruct (fails _). Qed.

Lemma keeps_stored_check (t : table) (key : constraint_type) :
  keeps_stored (__check_key_exists (F:=F) fails t key).
Proof. intros db. unfold __check_key_exists. by destruct (fails _). Qed.

Lemma keeps_stored_add_primary_key (t : table) :
  keeps_stored (__add_primary_key (F:=F) fails t).
Proof. intros db. unfold __add_primary_key. by destruct (_ || _). Qed.

Lemma keeps_stored_add_foreign_key (t : table) :
  keeps_stored (__add_foreign_key (F:=F) fails t).
Proof. intros db. unfold __add_foreign_key. by destruct (fails _). Qed.

Lemma keeps_stored_for_each {A} (f : A → action ()) (l : list A) :
  (∀ x, keeps_stored (f x)) → keeps_stored (for_each (F:=F) f l).
Proof.
  intros Hf. induction l as [|x l IH]; simpl; [done|].
  apply keeps_stored_bind; [apply Hf|done].
Qed.

Lemma keeps_stored_upload_parameter_table
    (entry : string * string * list (ParameterRow.t F)) :
  keeps_stored (upload_parameter_table fails entry).
Proof.
  destruct entry as [[parameter unit_] df]. unfold upload_parameter_table.
  apply keeps_stored_bind.
  - intros db. unfold __upload_to_db. by destruct (fails _).
  - intros _. apply keeps_stored_bind; [apply keeps_stored_cast|].
    intros _. apply keeps_stored_add_foreign_key.
Qed.

Lemma keeps_stored_lift {A} (r : res A) : keeps_stored (lift (F:=F) r).
Proof. done. Qed.

(** A step of the loop over the core tables is the upload followed by
    statements that leave the rows alone. *)
Lemma upload_and_configure_split (df : dataframe F) (t : table) :
  ∃ configure : action (),
    keeps_stored configure
    ∧ upload_and_configure fails (df, t)
      = bind (__upload_to_db fails df t) (λ _, configure).
Proof.
  eexists. split; [|reflexivity].
  apply keeps_stored_bind; [apply keeps_stored_cast|]. intros _.
  apply keeps_stored_bind.
  - destruct (primary_key t); [|apply keeps_stored_ret].
    apply keeps_stored_bind; [apply keeps_stored_check|].
    intros []; [apply keeps_stored_ret|apply keeps_stored_add_primary_key].
  - intros _. destruct (fk_dict t); [|apply keeps_stored_ret].
    apply keeps_stored_bind; [apply keeps_stored_check|].
    intros []; [apply keeps_stored_ret|apply keeps_stored_add_foreign_key].
Qed.

(** After its upload, the configuration of a table leaves the rows alone. *)
Lemma upload_and_configure_stored (df : dataframe F) (t : table) (db : database F) :
  (stored (upload_and_configure fails (df, t) db).1 = stored db
   ∧ ∃ e, (upload_and_configure fails (df, t) db).2 = Raise e)
  ∨ (∃ db1, to_sql df t db = Some db1
            ∧ stored (upload_and_configure fails (df, t) db).1 = stored db1).
Proof.
  destruct (upload_and_configure_split df t) as (configure & Hkeep & ->).
  unfold bind, __upload_to_db.
  destruct (fails db (ToSql df t)); simpl; [left; split; [done|by eexists]|].
  destruct (to_sql df t db) as [db1|] eqn:Hsql; simpl;
    [|left; split; [done|by eexists]].
  right. exists db1. split; [done|]. apply Hkeep.
Qed.

(** A write that did not fail stays, whatever the statements after it do. *)
Lemma upload_and_configure_written (df : dataframe F) (t : table)
    (db db1 : database F) :
  fails db (ToSql df t) = false → to_sql df t db = Some db1 →
  stored (upload_and_configure fails (df, t) db).1 = stored db1.
Proof.
  intros Hfails Hsql.
  destruct (upload_and_configure_split df t) as (configure & Hkeep & ->).
  unfold bind, __upload_to_db. rewrite Hfails, Hsql. apply Hkeep.
Qed.

(** A write that fails ends the step with the store as it was. *)
Lemma upload_and_configure_refused (df : dataframe F) (t : table) (db : database F) :
  fails db (ToSql df t) = true →
  upload_and_configure fails (df, t) db = (db, Raise SQLAlchemyError).
Proof.
  intros Hfails. unfold upload_and_configure, bind, __upload_to_db.
  by rewrite Hfails.
Qed.

(** Closes a case of the proof below: the store holds the first [n] frames. *)
Local Ltac appended n :=
  exists n; simpl;
  repeat match goal with H : stored _ = _ |- _ => rewrite H; clear H end;
  unfold append_first; simpl; rewrite ?app_nil_r;
  (split; [lia|split; done]).

(** The loop of lines 184-192 over the four core tables appends the
    frames in order and stops at the first exception. *)
Lemma upload_core_tables (out : frames F) (db : database F) :
  let run := for_each (upload_and_configure fails) (table_data out) db in
  ∃ n, (n ≤ 4)%nat
       ∧ stored run.1 = append_first n (stored db) out
       ∧ (run.2 = Ok () → n = 4%nat).
Proof.
  pose proof upload_and_configure_stored as Hstep. revert Hstep.
  generalize (upload_and_configure (F:=F) fails). intros g Hstep.
  unfold table_data. simpl. unfold bind, ret.
  (* countries *)
  destruct (g (CountriesDf (countries_df out), CountriesTable) db)
    as [db1 r1] eqn:E1.
  destruct (Hstep (CountriesDf (countries_df out)) CountriesTable db)
    as [[Hs1 [e He]]|(db' & Hsql & Hs1)]; rewrite E1 in *; simpl in *.
  { subst r1. exists 0%nat. simpl. rewrite Hs1. unfold append_first. simpl.
    rewrite !app_nil_r. split; [lia|split; [by destruct (stored db)|done]]. }
  injection Hsql as <-. simpl in Hs1.
  destruct r1 as [[]|e1]; [|appended 1%nat].
  (* cities *)
  destruct (g (CitiesDf (cities_df out), CitiesTable) db1) as [db2 r2] eqn:E2.
  destruct (Hstep (CitiesDf (cities_df out)) CitiesTable db1)
    as [[Hs2 [e He]]|(db' & Hsql & Hs2)]; rewrite E2 in *; simpl in *.
  { subst r2. appended 1%nat. }
  injection Hsql as <-. simpl in Hs2. rewrite Hs1 in Hs2. simpl in Hs2.
  destruct r2 as [[]|e2]; [|appended 2%nat].
  (* locations *)
  destruct (g (LocationsDf (locations_df out), LocationsTable) db2) as [db3 r3] eqn:E3.
  destruct (Hstep (LocationsDf (locations_df out)) LocationsTable db2)
    as [[Hs3 [e He]]|(db' & Hsql & Hs3)]; rewrite E3 in *; simpl in *.
  { subst r3. appended 2%nat. }
  injection Hsql as <-. simpl in Hs3. rewrite Hs2 in Hs3. simpl in Hs3.
  destruct r3 as [[]|e3]; [|appended 3%nat].
  (* measurements *)
  destruct (g (MeasurementsDf (measurements_df out), MeasurementsTable) db3)
    as [db4 r4] eqn:E4.
  destruct (Hstep (MeasurementsDf (measurements_df out)) MeasurementsTable db3)
    as [[Hs4 [e He]]|(db' & Hsql & Hs4)]; rewrite E4 in *; simpl in *.
  { subst r4. appended 3%nat. }
  injection Hsql as <-. simpl in Hs4. rewrite Hs3 in Hs4. simpl in Hs4.
  destruct r4 as [[]|e4]; appended 4%nat.
Qed.

(** *** How the loops end *)

Lemma bind_Ok {A B} (m : action A) (f : A → action B) (db db' : database F) (b : B) :
  bind (F:=F) m f db = (db', Ok b) ↔
  ∃ db1 a, m db = (db1, Ok a) ∧ f a db1 = (db', Ok b).
Proof.
  unfold bind. destruct (m db) as [db1 [a|e]]; split.
  - intros Hf. by exists db1, a.
  - by intros (? & ? & [= <- <-] & ?).
  - done.
  - by intros (? & ? & [=] & _).
Qed.

Lemma for_each_app {A} (f : A → action ()) (l1 l2 : list A) (db : database F) :
  for_each (F:=F) f (l1 ++ l2) db
  = bind (for_each f l1) (λ _, for_each f l2) db.
Proof.
  revert db. induction l1 as [|x l1 IH]; intros db; simpl; [reflexivity|].
  unfold bind in *. destruct (f x db) as [db1 [[]|e]]; [apply IH|reflexivity].
Qed.

(** A step of the loop over the core tables that ends normally has written
    its frame. *)
Lemma upload_and_configure_Ok_stored (df : dataframe F) (t : table)
    (db db' : database F) :
  upload_and_configure fails (df, t) db = (db', Ok ()) →
  ∃ db1, to_sql df t db = Some db1 ∧ stored db' = stored db1.
Proof.
  intros Hrun. destruct (upload_and_configure_stored df t db)
    as [[_ [e He]]|(db1 & Hsql & Hs)]; rewrite Hrun in *; simpl in *; [done|].
  by exists db1.
Qed.

(** One iteration of the proof below. *)
Local Ltac uploaded Hrun :=
  let d := fresh "d" in let Hstep := fresh "Hstep" in
  let d' := fresh "d" in let Hsql := fresh "Hsql" in let Hs := fresh "Hs" in
  simpl in Hrun; apply bind_Ok in Hrun as (d & [] & Hstep & Hrun);
  apply upload_and_configure_Ok_stored in Hstep as (d' & Hsql & Hs);
  simpl in Hsql; injection Hsql as <-; simpl in Hs.

(** The store after the loop has dealt with the first [k] core tables. *)
Lemma upload_prefix_stored (out : frames F) (db d : database F) (k : nat) :
  (k ≤ 4)%nat →
  for_each (upload_and_configure fails) (take k (table_data out)) db = (d, Ok ()) →
  stored d = append_first k (stored db) out.
Proof.
  intros Hk Hrun. unfold table_data in Hrun.
  destruct k as [|[|[|[|[|k]]]]]; [| | | | |lia]; clear Hk; simpl take in Hrun.
  - injection Hrun as <-. unfold append_first. simpl. rewrite !app_nil_r.
    by destruct (stored db).
  - uploaded Hrun. injection Hrun as <-. unfold append_first. simpl.
    by rewrite Hs, !app_nil_r.
  - do 2 uploaded Hrun. injection Hrun as <-. unfold append_first. simpl.
    by rewrite Hs0, Hs, !app_nil_r.
  - do 3 uploaded Hrun. injection Hrun as <-. unfold append_first. simpl.
    by rewrite Hs1, Hs0, Hs, !app_nil_r.
  - do 4 uploaded Hrun. injection Hrun as <-. unfold append_first. simpl.
    by rewrite Hs2, Hs1, Hs0, Hs.
Qed.

End LoaderFacts.

(** ** The properties of the specification: normalisation and error handling *)

Lemma wall_clock_utc_instant (ts : Timestamp) :
  utcoffset ts = None ∨ utcoffset ts = Some 0 → wall_clock ts = utc_instant ts.
Proof. unfold utc_instant. intros [->| ->]; lia. Qed.

Section Pipeline.

Context {F : Type} `{Countable F}.
Variable to_datetime : string → option Timestamp.

Lemma process_frames_empty_rows (existing : frames F) (results : list (Raw.result F)) :
  Forall complete_record results → raw_measurements results = [] →
  process_frames to_datetime existing results = Raise (KeyError "last_updated").
Proof.
  intros Hcomplete Hempty. unfold process_frames.
  destruct (run_loop_total (initial_state (countries_df existing) (cities_df existing)
              (locations_df existing)) results Hcomplete) as (st & ts & Hloop).
  rewrite Hloop. simpl.
  destruct (run_loop_rows _ _ _ _ Hloop) as (rows & Hrows & Hall).
  destruct (initial_state_rows (countries_df existing) (cities_df existing)
              (locations_df existing)) as (_ & _ & _ & Hm0).
  rewrite Hempty in Hall. apply Forall2_nil_inv_l in Hall as ->.
  rewrite Hm0 in Hrows. simpl in Hrows. unfold normalise_last_updated.
  by rewrite Hrows.
Qed.


Variable fails : database F → db_op F → bool.

(** C6 (as amended) — A malformed record aborts the batch.  When some
    record of the batch lacks its location, city, country or coordinates
    (the key is absent), that record makes the body of the loop raise
    [KeyError], and [process_air_quality_data] raises the exception of the
    first record of the batch on which the body raises: that [KeyError],
    or the exception of an earlier record, which is a [KeyError] for an
    absent key or the [TypeError] for coordinates or measurements that are
    null.  No frame is returned for any record;
    [fetch_process_load_data] logs the exception and leaves the store as it
    was.  (A location, city or country that is null is not lacking: see
    [record_error], and [null_name_is_a_key] below.) *)
Theorem malformed_record_aborts_batch (existing : frames F)
    (results : list (Raw.result F)) (r : Raw.result F) (db : database F) :
  r ∈ results → lacks_required_field r →
  (∃ key, record_error r = Some (KeyError key))
  ∧ ∃ before r0 after e,
      results = before ++ r0 :: after
      ∧ Forall (λ r', record_error r' = None) before
      ∧ record_error r0 = Some e
      ∧ process_frames to_datetime existing results = Raise e
      ∧ fetch_process_load_data to_datetime fails results db = (db, ErrorLogged e).
Proof.
  intros Hin Hlack.
  destruct (record_error_lacking r Hlack) as [key Hkey].
  split; [by exists key|].
  destruct (first_record_error results r Hin) as (before & r0 & after & e & -> & Hbefore & He);
    [by rewrite Hkey|].
  exists before, r0, after, e. split; [done|]. split; [done|]. split; [done|].
  assert (∀ existing' : frames F,
            process_frames to_datetime existing' (before ++ r0 :: after) = Raise e)
    as Hraise.
  { intros existing'. unfold process_frames.
    by rewrite (run_loop_first_error _ before after r0 e Hbefore He). }
  split; [apply Hraise|].
  unfold fetch_process_load_data, process_air_quality_data. by rewrite Hraise.
Qed.

(** C7 (evaluation at the failing input) — The empty batch.  With no
    record fetched, [process_air_quality_data] raises [KeyError] at line
    138, so [fetch_process_load_data] ends in its error handler instead of
    the "No new data to process" return of lines 30-32; the store is left
    as it was. *)
Theorem empty_batch_is_logged_as_error (db : database F) :
  fetch_process_load_data to_datetime fails [] db
  = (db, ErrorLogged (KeyError "last_updated")).
Proof.
  unfold fetch_process_load_data, process_air_quality_data.
  by rewrite process_frames_empty_rows by (done || constructor).
Qed.

(** The other half of C7 holds: frames without measurement rows end the
    run at lines 30-32, and nothing is stored. *)
Lemma no_new_rows_is_a_noop (results : list (Raw.result F)) (db : database F)
    (out : frames F) :
  process_air_quality_data to_datetime fails db results = Ok out →
  measurements_df out = [] →
  fetch_process_load_data to_datetime fails results db = (db, NoNewData).
Proof. unfold fetch_process_load_data. by intros -> ->. Qed.

End Pipeline.

(** C5 (evaluation at the failing input) — Idempotence across runs.  A
    reading stamped to the nanosecond is loaded again by a second run of
    the same batch.  The first run stores one measurement row; the table
    returns it with its timestamp cut to microseconds, so the merge of
    lines 140-143 finds no stored row equal to the row of the second run,
    which is returned as new and appended: the table then holds the reading
    twice.  The entities resolve to the ids of the first run and no
    country, city or location row is added. *)
Theorem second_run_reloads_the_batch :
  ∃ db1 db2 row,
    fetch_process_load_data Sample.to_datetime Sample.never
      [Sample.station_ns] Sample.empty_db = (db1, Loaded)
    ∧ measurements_df (stored db1) = [row]
    ∧ as_stored_measurement row ≠ row
    ∧ process_air_quality_data Sample.to_datetime Sample.never db1 [Sample.station_ns]
      = Ok (Frames [] [] [] [row])
    ∧ fetch_process_load_data Sample.to_datetime Sample.never
        [Sample.station_ns] db1 = (db2, Loaded)
    ∧ measurements_df (stored db2) = [row; row]
    ∧ measurements_df (read_sql (stored db2))
      = [as_stored_measurement row; as_stored_measurement row].
Proof.
  do 3 eexists.
  split; [vm_compute; reflexivity|].
  split; [vm_compute; reflexivity|].
  split; [intros Heq; apply (f_equal Measurement.last_updated) in Heq;
          vm_compute in Heq; discriminate|].
  split; [vm_compute; reflexivity|].
  split; [vm_compute; reflexivity|].
  split; vm_compute; reflexivity.
Qed.

(** ** The properties of the specification: the loader *)

Section Loader.

Context {F : Type} `{Countable F}.
Variable fails : database F → db_op F → bool.

(** The loop over the core tables up to its [k]-th step, when the steps
    before ended normally. *)
Lemma upload_core_step (out : frames F) (db d : database F) (k : nat)
    (df : dataframe F) (t : table) :
  table_data out !! k = Some (df, t) →
  for_each (upload_and_configure fails) (take k (table_data out)) db = (d, Ok ()) →
  for_each (upload_and_configure fails) (table_data out) db
  = bind (upload_and_configure fails (df, t))
         (λ _, for_each (upload_and_configure fails) (drop (S k) (table_data out))) d.
Proof.
  intros Hk Hprefix.
  rewrite <- (take_drop_middle (table_data out) k (df, t) Hk) at 1.
  rewrite for_each_app. unfold bind at 1. by rewrite Hprefix.
Qed.

(** [_upload_data] when the loop over the core tables raises. *)
Lemma upload_core_raises (out : frames F) (db d : database F) (e : exn) :
  for_each (upload_and_configure fails) (table_data out) db = (d, Raise e) →
  _upload_data fails out db = (d, Raise (RuntimeError e)).
Proof. intros Hcore. unfold _upload_data, try_except, bind. by rewrite Hcore. Qed.

(** [_upload_data] when the loop over the core tables ends normally: what
    follows leaves the core tables alone. *)
Lemma upload_core_done (out : frames F) (db d : database F) :
  for_each (upload_and_configure fails) (table_data out) db = (d, Ok ()) →
  stored (_upload_data fails out db).1 = stored d
  ∧ match (_upload_data fails out db).2 with
    | Ok _ => True
    | Raise e => ∃ cause, e = RuntimeError cause
    end.
Proof.
  intros Hcore.
  assert (_upload_data fails out db
          = try_except
              (bind (lift (create_parameter_tables (measurements_df out)))
                    (for_each (upload_parameter_table fails)))
              (λ e, raise (RuntimeError e)) d) as ->.
  { unfold _upload_data, try_except. unfold bind at 1. by rewrite Hcore. }
  pose proof (keeps_stored_bind
                (lift (create_parameter_tables (measurements_df out)))
                (for_each (upload_parameter_table fails))
                (keeps_stored_lift _)
                (λ tables, keeps_stored_for_each (upload_parameter_table fails) tables
                             (keeps_stored_upload_parameter_table fails)) d) as Hkeep.
  unfold try_except.
  destruct (bind (lift _) _ d) as [d' [[]|e]]; simpl in *; split; try done.
  by eexists.
Qed.

(** The write of the [k]-th core table adds its frame. *)
Lemma to_sql_table_data (out : frames F) (d : database F) (k : nat)
    (df : dataframe F) (t : table) :
  table_data out !! k = Some (df, t) →
  ∃ d1, to_sql df t d = Some d1
        ∧ ∀ s, stored d = append_first k s out →
               stored d1 = append_first (S k) s out.
Proof.
  intros Hk. unfold table_data in Hk.
  destruct k as [|[|[|[|k]]]]; simpl in Hk; simplify_eq; simpl;
    eexists; (split; [reflexivity|]); intros s ->; unfold append_first; simpl;
    by rewrite ?app_nil_r.
Qed.

(** C9 (as amended) — Writes are not atomic.  [_upload_data] writes the
    four core frames in the order countries, cities, locations,
    measurements, each in a write of its own, and every write that did not
    fail stays.
    (1) The store is left with the first [n] of the four frames appended,
    for some [n] from 0 to 4; [n] is 4 when [_upload_data] returns
    normally, and when a statement fails it raises [RuntimeError].
    (2) [n] is the number of writes that did not fail.  When the loop has
    dealt with the first [k] tables and the write of the next table fails,
    [_upload_data] raises with exactly the first [k] frames appended; when
    that write does not fail and a statement that configures the table
    does, it raises with exactly the first [k + 1] frames appended.
    (3) When the loop has dealt with all four tables, all four frames stay
    appended, whatever happens to the parameter tables. *)
Theorem upload_appends_a_prefix (out : frames F) (db : database F) :
  (∃ n, (n ≤ 4)%nat
        ∧ stored (_upload_data fails out db).1 = append_first n (stored db) out
        ∧ match (_upload_data fails out db).2 with
          | Ok _ => n = 4%nat
          | Raise e => ∃ cause, e = RuntimeError cause
          end)
  ∧ (∀ k d df t,
       table_data out !! k = Some (df, t) →
       for_each (upload_and_configure fails) (take k (table_data out)) db = (d, Ok ()) →
       stored d = append_first k (stored db) out
       ∧ (fails d (ToSql df t) = true →
            _upload_data fails out db = (d, Raise (RuntimeError SQLAlchemyError)))
       ∧ (fails d (ToSql df t) = false →
            ∀ e, (upload_and_configure fails (df, t) d).2 = Raise e →
              (_upload_data fails out db).2 = Raise (RuntimeError e)
              ∧ stored (_upload_data fails out db).1
                = append_first (S k) (stored db) out))
  ∧ (∀ d, for_each (upload_and_configure fails) (table_data out) db = (d, Ok ()) →
       stored (_upload_data fails out db).1 = append_frames (stored db) out).
Proof.
  split; [|split].
  - destruct (upload_core_tables fails out db) as (n & Hn & Hstored & Hall).
    cbv zeta in Hstored, Hall.
    destruct (for_each (upload_and_configure fails) (table_data out) db)
      as [d [[]|e]] eqn:Hcore; simpl in *.
    + destruct (upload_core_done out db d Hcore) as [Hs Hr].
      exists 4%nat. rewrite Hs, Hstored, (Hall eq_refl). split; [lia|]. split; [done|].
      by destruct (_upload_data fails out db).2.
    + exists n. rewrite (upload_core_raises out db d e Hcore). simpl.
      split; [done|]. split; [done|by eexists].
  - intros k d df t Hk Hprefix.
    assert (k < 4)%nat as Hlt.
    { apply lookup_lt_Some in Hk. unfold table_data in Hk. simpl in Hk. lia. }
    pose proof (upload_prefix_stored fails out db d k ltac:(lia) Hprefix) as Hd.
    pose proof (upload_core_step out db d k df t Hk Hprefix) as Hcore.
    split; [done|]. split.
    + intros Hfails. apply upload_core_raises. rewrite Hcore. unfold bind.
      by rewrite (upload_and_configure_refused fails df t d Hfails).
    + intros Hfails e He.
      destruct (to_sql_table_data out d k df t Hk) as (d1 & Hsql & Hd1).
      pose proof (upload_and_configure_written fails df t d d1 Hfails Hsql) as Hw.
      unfold bind in Hcore.
      destruct (upload_and_configure fails (df, t) d) as [d' r]. simpl in He, Hw.
      subst r. rewrite (upload_core_raises out db d' e Hcore). simpl.
      split; [done|]. rewrite Hw. by apply Hd1.
  - intros d Hcore. destruct (upload_core_done out db d Hcore) as [-> _].
    apply (upload_prefix_stored fails out db d 4); [lia|].
    by rewrite firstn_all2 by (unfold table_data; simpl; lia).
Qed.

End Loader.

(** ** The properties of the specification: table names *)

(** C8 (as amended) — Table-name sanitisation.  The derived table name has
    the length of the group name: every single whitespace, '/', '_', '%' or
    '-' character becomes one underscore (a run of [k] such characters gives
    [k] underscores), every other character is lower-cased; the name of the
    example is as the specification gives it. *)
Theorem sanitize_per_character (s : string) :
  TableName.sanitize s = TableName.map_string TableName.sanitize_char s
  ∧ String.length (TableName.sanitize s) = String.length s
  ∧ TableName.sanitize "de10_na_openaq_pm2.5 ug/m3" = "de10_na_openaq_pm2.5_ug_m3".
Proof.
  assert (TableName.sanitize s = TableName.map_string TableName.sanitize_char s) as Heq.
  { unfold TableName.sanitize, TableName.sanitize_char.
    induction s as [|c s IH]; [done|]. simpl.
    destruct (TableName.in_class c); simpl; f_equal; apply IH. }
  split; [done|]. split; [|reflexivity].
  rewrite Heq. clear Heq. induction s as [|c s IH]; [done|]. simpl. by rewrite IH.
Qed.

(** Where no two separator characters are neighbours, the sanitised name is
    the one the wording of the specification describes. *)
Lemma sanitize_isolated (s : string) :
  TableName.isolated TableName.in_class false s = true →
  TableName.sanitize s = TableName.spec_sanitize s.
Proof.
  unfold TableName.sanitize, TableName.spec_sanitize.
  assert (∀ prev, TableName.isolated TableName.in_class prev s = true →
            TableName.collapse_runs TableName.in_class prev s
            = TableName.re_sub TableName.in_class "_" s) as Hgen.
  { induction s as [|c s IH]; intros prev; [done|]. simpl.
    destruct (TableName.in_class c) eqn:Hc; simpl.
    - destruct prev; simpl; [done|]. intros Hs. by rewrite IH.
    - rewrite andb_false_r. simpl. intros Hs. by rewrite IH. }
  intros Hs. by rewrite Hgen.
Qed.

(** * Further properties of the code *)

(** ** Table names ([data_loader.py], lines 198-199) *)

(** A statement about every character, checked on the 256 of them. *)
Local Ltac by_cases_on_char c :=
  destruct c as [[] [] [] [] [] [] [] []]; vm_compute; reflexivity.

Lemma sanitize_as_map (s : string) :
  TableName.sanitize s = TableName.map_string TableName.sanitize_char s.
Proof.
  unfold TableName.sanitize, TableName.sanitize_char.
  induction s as [|c s IH]; [done|]. simpl.
  destruct (TableName.in_class c); simpl; f_equal; apply IH.
Qed.

Lemma map_string_app (f : ascii → ascii) (s1 s2 : string) :
  TableName.map_string f (s1 +:+ s2)
  = TableName.map_string f s1 +:+ TableName.map_string f s2.
Proof. induction s1 as [|c s1 IH]; [done|]. simpl. by rewrite IH. Qed.

Lemma map_string_ext (f g : ascii → ascii) (s : string) :
  (∀ c, f c = g c) → TableName.map_string f s = TableName.map_string g s.
Proof. intros Hfg. induction s as [|c s IH]; [done|]. simpl. by rewrite Hfg, IH. Qed.

Lemma map_string_compose (f g : ascii → ascii) (s : string) :
  TableName.map_string f (TableName.map_string g s)
  = TableName.map_string (λ c, f (g c)) s.
Proof. induction s as [|c s IH]; [done|]. simpl. by rewrite IH. Qed.

Lemma lower_as_map (s : string) :
  TableName.lower s = TableName.map_string TableName.lower_char s.
Proof. induction s as [|c s IH]; [done|]. simpl. by rewrite IH. Qed.

Lemma chars_map_string (f : ascii → ascii) (s : string) :
  chars (TableName.map_string f s) = f <$> chars s.
Proof. induction s as [|c s IH]; [done|]. simpl. by rewrite IH. Qed.

Lemma sanitize_char_idempotent (c : ascii) :
  TableName.sanitize_char (TableName.sanitize_char c) = TableName.sanitize_char c.
Proof. by_cases_on_char c. Qed.

Lemma sanitize_char_lower_char (c : ascii) :
  TableName.sanitize_char (TableName.lower_char c) = TableName.sanitize_char c.
Proof. by_cases_on_char c. Qed.

Lemma sanitize_char_alphabet (c : ascii) :
  (Ascii.eqb (TableName.sanitize_char c) "_"
   || negb (TableName.in_class (TableName.sanitize_char c)))
  && Ascii.eqb (TableName.lower_char (TableName.sanitize_char c))
               (TableName.sanitize_char c) = true.
Proof. by_cases_on_char c. Qed.

Lemma sanitize_app (s1 s2 : string) :
  TableName.sanitize (s1 +:+ s2) = TableName.sanitize s1 +:+ TableName.sanitize s2.
Proof. by rewrite !sanitize_as_map, map_string_app. Qed.

(** X1 — The table name of a group is the fixed prefix, the sanitised
    parameter, an underscore and the sanitised unit: sanitisation acts on
    the two parts separately and leaves the prefix as it is. *)
Theorem parameter_table_name_parts (parameter unit_ : string) :
  TableName.parameter_table_name parameter unit_
  = "de10_na_openaq_" +:+ TableName.sanitize parameter +:+ "_"
    +:+ TableName.sanitize unit_.
Proof.
  unfold TableName.parameter_table_name. by rewrite !sanitize_app.
Qed.

(** X2 — Sanitising a sanitised name changes nothing. *)
Theorem sanitize_idempotent (s : string) :
  TableName.sanitize (TableName.sanitize s) = TableName.sanitize s.
Proof.
  rewrite !sanitize_as_map, map_string_compose.
  apply map_string_ext, sanitize_char_idempotent.
Qed.

(** X3 — A sanitised name holds no whitespace, '/', '%' or '-' and no
    upper-case letter: each of its characters is an underscore or outside
    the character class, and is its own lower case. *)
Theorem sanitize_alphabet (s : string) :
  Forall (λ c, (c = "_"%char ∨ TableName.in_class c = false)
               ∧ TableName.lower_char c = c)
         (chars (TableName.sanitize s)).
Proof.
  rewrite sanitize_as_map, chars_map_string, Forall_fmap.
  apply Forall_forall. intros c _. simpl.
  pose proof (sanitize_char_alphabet c) as Hc.
  apply andb_true_iff in Hc as [Hc Hlow]. apply orb_true_iff in Hc.
  split.
  - destruct Hc as [Hc|Hc]; [left; by apply Ascii.eqb_eq|right].
    by apply negb_true_iff.
  - by apply Ascii.eqb_eq.
Qed.

Lemma sanitize_lower (s : string) :
  TableName.sanitize (TableName.lower s) = TableName.sanitize s.
Proof.
  rewrite !sanitize_as_map, lower_as_map, map_string_compose.
  apply map_string_ext, sanitize_char_lower_char.
Qed.

Lemma append_assoc (s1 s2 s3 : string) : (s1 +:+ s2) +:+ s3 = s1 +:+ (s2 +:+ s3).
Proof.
  induction s1 as [|c s1 IH]; [done|].
  change (String c ((s1 +:+ s2) +:+ s3) = String c (s1 +:+ (s2 +:+ s3))).
  by rewrite IH.
Qed.

(** X4 — Different groups can share a table.  The name does not depend on
    the letter case of the parameter and of the unit, and it does not show
    where the parameter ends and the unit begins. *)
Theorem parameter_table_name_collisions (p q u : string) :
  TableName.parameter_table_name (TableName.lower p) (TableName.lower u)
  = TableName.parameter_table_name p u
  ∧ TableName.parameter_table_name (p +:+ "_" +:+ q) u
    = TableName.parameter_table_name p (q +:+ "_" +:+ u).
Proof.
  unfold TableName.parameter_table_name. split.
  - by rewrite !sanitize_app, !sanitize_lower.
  - by rewrite !append_assoc.
Qed.

(** ** Parameter tables ([data_processor.py], lines 150-168) *)

Lemma group_le_total : Total group_le.
Proof.
  intros a b. unfold group_le.
  rewrite (String.compare_antisym b.1 a.1).
  destruct (String.compare a.1 b.1) eqn:Hc; simpl; [|by left|by right].
  destruct (String.leb_total a.2 b.2) as [->| ->]; [by left|by right].
Qed.

(** Distributing a list over the keys of its elements loses and repeats
    nothing. *)
Lemma bind_cons_at {A K} `{EqDecision K} (k0 : K) (x : A) (g : K → list A) (ks : list K) :
  NoDup ks →
  ks ≫= (λ k, if decide (k0 = k) then x :: g k else g k)
  ≡ₚ (if decide (k0 ∈ ks) then [x] else []) ++ (ks ≫= g).
Proof.
  induction 1 as [|k ks Hk Hnd IH];
    [by rewrite decide_False by apply not_elem_of_nil|].
  rewrite !bind_cons, IH.
  destruct (decide (k0 = k)) as [->|Hne].
  - rewrite (decide_False (P:=k ∈ ks)) by done.
    by rewrite (decide_True (P:=k ∈ k :: ks)) by left.
  - destruct (decide (k0 ∈ ks)) as [Hin|Hin].
    + rewrite (decide_True (P:=k0 ∈ k :: ks)) by by right.
      simpl. by rewrite Permutation_middle.
    + rewrite (decide_False (P:=k0 ∈ k :: ks)); [done|].
      by intros [?|?]%elem_of_cons.
Qed.

Lemma bind_filter_partition {A K} `{EqDecision K} (f : A → K) (ks : list K) (l : list A) :
  NoDup ks → (∀ x, x ∈ l → f x ∈ ks) →
  ks ≫= (λ k, filter (λ x, f x = k) l) ≡ₚ l.
Proof.
  intros Hnd. induction l as [|x l IH]; intros Hin.
  - clear Hnd Hin. induction ks as [|k ks IHks]; [done|].
    rewrite bind_cons. apply IHks.
  - assert (ks ≫= (λ k, filter (λ y, f y = k) (x :: l))
            = ks ≫= (λ k, if decide (f x = k) then x :: filter (λ y, f y = k) l
                          else filter (λ y, f y = k) l)) as ->.
    { apply list_bind_ext; [|done]. intros k. rewrite filter_cons.
      by destruct (decide _). }
    rewrite bind_cons_at by done.
    rewrite decide_True by (apply Hin; left). simpl.
    f_equiv. apply IH. intros y Hy. apply Hin. by right.
Qed.

Section ParameterTables.

Context {F : Type} `{Countable F}.

Lemma create_parameter_tables_Ok (measurements_df : list (Measurement.t F (option Z))) :
  measurements_df ≠ [] →
  create_parameter_tables measurements_df = Ok (groupby_parameter_unit measurements_df).
Proof. by destruct measurements_df. Qed.

Lemma groupby_parameter_unit_keys (measurements_df : list (Measurement.t F (option Z))) :
  (groupby_parameter_unit measurements_df).*1
  = merge_sort group_le (remove_dups (group_key <$> measurements_df)).
Proof.
  unfold groupby_parameter_unit. cbv zeta. rewrite <- list_fmap_compose.
  apply list_fmap_id.
Qed.

Lemma elem_of_groupby_parameter_unit
    (measurements_df : list (Measurement.t F (option Z)))
    (key : string * string) (df : list (ParameterRow.t F)) :
  (key, df) ∈ groupby_parameter_unit measurements_df ↔
  (∃ row, row ∈ measurements_df ∧ group_key row = key)
  ∧ df = parameter_row <$> filter (λ row, group_key row = key) measurements_df.
Proof.
  unfold groupby_parameter_unit. cbv zeta. rewrite list_elem_of_fmap. split.
  - intros (k & [= -> ->] & Hk). split; [|done].
    rewrite (@merge_sort_Permutation _ group_le _) in Hk.
    apply elem_of_remove_dups, list_elem_of_fmap in Hk as (row & -> & Hrow).
    by exists row.
  - intros [(row & Hrow & <-) ->]. exists (group_key row). split; [done|].
    rewrite (@merge_sort_Permutation _ group_le _).
    apply elem_of_remove_dups, list_elem_of_fmap_2, Hrow.
Qed.

(** X5 — For a frame with at least one row, [create_parameter_tables]
    returns, and yields one table per (parameter, unit) pair that occurs in
    the measurement rows: the pairs of the tables are pairwise different,
    they come in increasing order (by parameter, then by unit), every
    occurring pair has a table and no table is empty. *)
Theorem parameter_tables_keys (measurements_df : list (Measurement.t F (option Z))) :
  measurements_df ≠ [] →
  ∃ tables,
    create_parameter_tables measurements_df = Ok tables
    ∧ NoDup tables.*1
    ∧ Sorted group_le tables.*1
    ∧ (∀ key, key ∈ tables.*1 ↔ ∃ row, row ∈ measurements_df ∧ group_key row = key)
    ∧ (∀ key df, (key, df) ∈ tables → df ≠ []).
Proof.
  intros Hrows. eexists. split; [by apply create_parameter_tables_Ok|].
  rewrite groupby_parameter_unit_keys. split; [|split; [|split]].
  - rewrite (@merge_sort_Permutation _ group_le _). apply NoDup_remove_dups.
  - apply (@Sorted_merge_sort _ group_le _ group_le_total).
  - intros key. rewrite (@merge_sort_Permutation _ group_le _), elem_of_remove_dups,
      list_elem_of_fmap. naive_solver.
  - intros key df [(row & Hrow & Hkey) ->]%elem_of_groupby_parameter_unit Hnil.
    apply fmap_nil_inv in Hnil.
    assert (row ∈ filter (λ row, group_key row = key) measurements_df) as Hin
      by by apply list_elem_of_filter.
    rewrite Hnil in Hin. by apply not_elem_of_nil in Hin.
Qed.


(** X7 — The parameter tables of a frame with at least one row hold,
    together, the measurement rows, each as often as it occurs: no row is
    lost and none is written twice. *)
Theorem parameter_tables_conserve_rows
    (measurements_df : list (Measurement.t F (option Z))) :
  measurements_df ≠ [] →
  ∃ tables,
    create_parameter_tables measurements_df = Ok tables
    ∧ concat tables.*2 ≡ₚ parameter_row <$> measurements_df.
Proof.
  intros Hrows. eexists. split; [by apply create_parameter_tables_Ok|].
  assert ((groupby_parameter_unit measurements_df).*2
          = (λ key, parameter_row <$> filter (λ row, group_key row = key) measurements_df)
              <$> (groupby_parameter_unit measurements_df).*1) as ->.
  { unfold groupby_parameter_unit. cbv zeta.
    by rewrite <- !list_fmap_compose. }
  rewrite groupby_parameter_unit_keys.
  assert (∀ ks : list (string * string),
            concat ((λ key, parameter_row <$>
                       filter (λ row, group_key row = key) measurements_df) <$> ks)
            = parameter_row <$>
                (ks ≫= (λ key, filter (λ row, group_key row = key) measurements_df)))
    as ->.
  { intros ks. induction ks as [|k ks IH]; [done|].
    rewrite fmap_cons, bind_cons, fmap_app. simpl. by rewrite IH. }
  apply fmap_Permutation, bind_filter_partition.
  - rewrite (@merge_sort_Permutation _ group_le _). apply NoDup_remove_dups.
  - intros row Hrow. rewrite (@merge_sort_Permutation _ group_le _).
    apply elem_of_remove_dups, list_elem_of_fmap_2, Hrow.
Qed.

End ParameterTables.

(** ** The id maps ([data_processor.py], lines 77-121) *)

Section RegistryProperties.

Context {K R : Type} `{Countable K}.
Variables (key_cols : R → K) (id_col : R → Z).

Lemma populate_id_map_last_wins (l1 l2 : list R) (row : R) (m : gmap K Z) (c : Z) :
  key_cols row ∉ key_cols <$> l2 →
  (populate_id_map (l1 ++ row :: l2) m id_col key_cols c).1 !! key_cols row
  = Some (id_col row).
Proof.
  induction l2 as [|row' l2 IH] using rev_ind; intros Hlast.
  - rewrite populate_id_map_snoc. simpl. apply lookup_insert_eq.
  - rewrite fmap_app, not_elem_of_app in Hlast. destruct Hlast as [Hl2 Hrow'].
    rewrite app_comm_cons, app_assoc, populate_id_map_snoc. simpl.
    rewrite lookup_insert_ne; [by apply IH|].
    intros Heq. apply Hrow'. simpl. apply list_elem_of_singleton. congruence.
Qed.

Lemma populate_id_map_lookup_other (l : list R) (m : gmap K Z) (c : Z) (k : K) :
  k ∉ key_cols <$> l →
  (populate_id_map l m id_col key_cols c).1 !! k = m !! k.
Proof.
  induction l as [|row l IH] using rev_ind; [done|].
  rewrite fmap_app, not_elem_of_app. intros [Hl Hrow].
  rewrite populate_id_map_snoc. simpl.
  rewrite lookup_insert_ne; [by apply IH|].
  intros Heq. apply Hrow. simpl. apply list_elem_of_singleton. congruence.
Qed.

(** X8 — [populate_id_map] as a function of the rows [df], the map
    [id_map] and the counter it is called with.  A key is bound afterwards
    exactly when it was bound before or some row has it; for a key that
    several rows share, the last of these rows gives the id; the keys of no
    row keep their binding.  The counter returned is at least the counter
    given and greater than the id of every row, and it is the counter given
    or the id of some row plus one. *)
Theorem populate_id_map_result (df : list R) (id_map : gmap K Z) (counter : Z) :
  (∀ k, (populate_id_map df id_map id_col key_cols counter).1 !! k = None
        ↔ id_map !! k = None ∧ k ∉ key_cols <$> df)
  ∧ (∀ l1 row l2, df = l1 ++ row :: l2 → key_cols row ∉ key_cols <$> l2 →
       (populate_id_map df id_map id_col key_cols counter).1 !! key_cols row
       = Some (id_col row))
  ∧ (∀ k, k ∉ key_cols <$> df →
       (populate_id_map df id_map id_col key_cols counter).1 !! k = id_map !! k)
  ∧ counter ≤ (populate_id_map df id_map id_col key_cols counter).2
  ∧ (∀ row, row ∈ df →
       id_col row < (populate_id_map df id_map id_col key_cols counter).2)
  ∧ ((populate_id_map df id_map id_col key_cols counter).2 = counter
     ∨ ∃ row, row ∈ df
              ∧ (populate_id_map df id_map id_col key_cols counter).2 = id_col row + 1).
Proof.
  split; [|split; [|split; [|split; [|split]]]].
  - apply populate_id_map_lookup_None.
  - intros l1 row l2 -> Hlast. by apply populate_id_map_last_wins.
  - intros k. apply populate_id_map_lookup_other.
  - apply populate_id_map_counter_ge.
  - intros row. apply populate_id_map_counter_gt.
  - apply populate_id_map_counter_cases.
Qed.

(** The rows that a registry seeded from the stored rows adds keep ids and
    keys unique. *)
Lemma registry_inv_unique (existing : list R) (tr : list (K * Z))
    (reg : gmap K Z * Z * list R) :
  registry_inv key_cols id_col
    (populate_id_map existing ∅ id_col key_cols 1).1
    (populate_id_map existing ∅ id_col key_cols 1).2 tr reg →
  (NoDup (id_col <$> existing) → NoDup (id_col <$> (existing ++ reg.2)))
  ∧ (NoDup (key_cols <$> existing) → NoDup (key_cols <$> (existing ++ reg.2))).
Proof.
  intros Hinv. split; intros Hnd; rewrite fmap_app; apply NoDup_app.
  - split; [done|]. split.
    + intros i (row & -> & Hrow)%list_elem_of_fmap.
      rewrite (inv_ids _ _ _ _ _ _ Hinv), elem_of_seqZ.
      pose proof (populate_id_map_counter_gt key_cols id_col existing ∅ 1 row Hrow).
      lia.
    + rewrite (inv_ids _ _ _ _ _ _ Hinv). apply NoDup_seqZ.
  - split; [done|]. split; [|apply Hinv].
    intros k Hk Hnew. apply (inv_new _ _ _ _ _ _ Hinv) in Hnew as [_ Hnone].
    by apply populate_id_map_lookup_None in Hnone as [_ ?].
Qed.

(** A registry that starts from nothing numbers its rows from 1 and makes
    a row for every key it resolves. *)
Lemma registry_inv_unseeded (tr : list (K * Z)) (reg : gmap K Z * Z * list R) :
  registry_inv key_cols id_col ∅ 1 tr reg →
  id_col <$> reg.2 = seqZ 1 (Z.of_nat (length (reg.2)))
  ∧ ∀ k, k ∈ tr.*1 → k ∈ key_cols <$> reg.2.
Proof.
  intros Hinv. split; [apply Hinv|].
  intros k Hk. apply (inv_new _ _ _ _ _ _ Hinv). split; [done|apply lookup_empty].
Qed.

End RegistryProperties.

Section ProcessorProperties.

Context {F : Type} `{Countable F}.
Variable to_datetime : string → option Timestamp.

(** The ids and the identity keys of a table stay unique when the rows of
    a run are added. *)
Lemma appended_rows_unique (existing : frames F) (results : list (Raw.result F))
    (out : frames F) :
  process_frames to_datetime existing results = Ok out →
  ((NoDup (Country.country_id <$> countries_df existing) →
    NoDup (Country.country_id <$> (countries_df existing ++ countries_df out)))
   ∧ (NoDup (Country.country_name <$> countries_df existing) →
      NoDup (Country.country_name <$> (countries_df existing ++ countries_df out))))
  ∧ ((NoDup (City.city_id <$> cities_df existing) →
      NoDup (City.city_id <$> (cities_df existing ++ cities_df out)))
     ∧ (NoDup (city_key_cols <$> cities_df existing) →
        NoDup (city_key_cols <$> (cities_df existing ++ cities_df out))))
  ∧ ((NoDup (Location.location_id <$> locations_df existing) →
      NoDup (Location.location_id <$> (locations_df existing ++ locations_df out)))
     ∧ (NoDup (location_key_cols <$> locations_df existing) →
        NoDup (location_key_cols <$> (locations_df existing ++ locations_df out)))).
Proof.
  intros (st & ts & Hloop & Hres & [Hc Hci Hl Hch Hm] & Hrec & Hne & ->)%run_facts.
  destruct (initial_state_maps (countries_df existing) (cities_df existing)
              (locations_df existing)) as (Hmc & Hmci & Hml).
  cbv zeta in Hmc, Hmci, Hml. simpl.
  split; [|split].
  - apply (registry_inv_unique _ _ _ (country_trace ts) (country_registry st)).
    by rewrite <- Hmc.
  - apply (registry_inv_unique _ _ _ (city_trace ts) (city_registry st)).
    by rewrite <- Hmci.
  - apply (registry_inv_unique _ _ _ (location_trace ts) (location_registry st)).
    by rewrite <- Hml.
Qed.

(** X9 — A run keeps the ids and the identity keys of the three entity
    tables unique: when no two stored rows of a table share an id, no two
    rows of the table share one after the new rows are added, and the same
    holds of the identity keys (the country name; the city name with the
    country id; the location name with the city id and the coordinates). *)
Theorem appended_rows_stay_unique (existing : frames F) (results : list (Raw.result F))
    (out : frames F) :
  process_frames to_datetime existing results = Ok out →
  ((NoDup (Country.country_id <$> countries_df existing) →
    NoDup (Country.country_id <$> (countries_df existing ++ countries_df out)))
   ∧ (NoDup (Country.country_name <$> countries_df existing) →
      NoDup (Country.country_name <$> (countries_df existing ++ countries_df out))))
  ∧ ((NoDup (City.city_id <$> cities_df existing) →
      NoDup (City.city_id <$> (cities_df existing ++ cities_df out)))
     ∧ (NoDup (city_key_cols <$> cities_df existing) →
        NoDup (city_key_cols <$> (cities_df existing ++ cities_df out))))
  ∧ ((NoDup (Location.location_id <$> locations_df existing) →
      NoDup (Location.location_id <$> (locations_df existing ++ locations_df out)))
     ∧ (NoDup (location_key_cols <$> locations_df existing) →
        NoDup (location_key_cols <$> (locations_df existing ++ locations_df out)))).
Proof. apply appended_rows_unique. Qed.

Variable fails : database F → db_op F → bool.

(** X10 — A table that cannot be read counts as empty.  When the check for
    the countries table or the read of it fails, a run that completes
    numbers its new country rows 1, 2, ... and makes a country row for
    every record of the batch, whatever the table holds; likewise for the
    cities and the locations table. *)
Theorem unreadable_table_restarts_numbering (db : database F)
    (results : list (Raw.result F)) (out : frames F) :
  process_air_quality_data to_datetime fails db results = Ok out →
  (unreadable fails db CountriesTable →
     Country.country_id <$> countries_df out
     = seqZ 1 (Z.of_nat (length (countries_df out)))
     ∧ ∀ r, r ∈ results →
         ∃ row, row ∈ countries_df out
                ∧ Raw.country r = Some (Country.country_name row))
  ∧ (unreadable fails db CitiesTable →
       City.city_id <$> cities_df out = seqZ 1 (Z.of_nat (length (cities_df out)))
       ∧ ∀ r, r ∈ results →
           ∃ row, row ∈ cities_df out ∧ Raw.city r = Some (City.city_name row))
  ∧ (unreadable fails db LocationsTable →
       Location.location_id <$> locations_df out
       = seqZ 1 (Z.of_nat (length (locations_df out)))
       ∧ ∀ r, r ∈ results →
           ∃ row, row ∈ locations_df out
                  ∧ Raw.location r = Some (Location.location_name row)).
Proof.
  unfold process_air_quality_data.
  intros (st & ts & Hloop & Hres & [Hc Hci Hl Hch Hm] & Hrec & Hne & ->)%run_facts.
  simpl in *.
  destruct (initial_state_maps
              (__fetch_table_as_dataframe fails db CountriesTable
                 (countries_df (read_sql (stored db))))
              (__fetch_table_as_dataframe fails db CitiesTable
                 (cities_df (read_sql (stored db))))
              (__fetch_table_as_dataframe fails db LocationsTable
                 (locations_df (read_sql (stored db)))))
    as (Hmc & Hmci & Hml).
  cbv zeta in Hmc, Hmci, Hml.
  assert (∀ (A : Type) (t : table) (rows : list A),
            unreadable fails db t → __fetch_table_as_dataframe fails db t rows = [])
    as Hempty.
  { intros A t rows [Ht|Ht]; unfold __fetch_table_as_dataframe; rewrite Ht; [done|].
    by destruct (fails db (CheckTableExists t)). }
  assert (∀ r, r ∈ results → ∃ t, t ∈ ts ∧ resolution_of r t) as Hof.
  { intros r [j Hj]%list_elem_of_lookup.
    destruct (Forall2_lookup_l _ _ _ _ _ Hrec Hj) as (t & Ht & Hrt).
    exists t. split; [by eapply list_elem_of_lookup_2|done]. }
  split; [|split]; intros Hfail.
  - apply (f_equal fst) in Hmc as Hm0. apply (f_equal snd) in Hmc as Hc0.
    simpl in Hm0, Hc0. rewrite Hm0, Hc0, (Hempty _ _ _ Hfail) in Hc.
    unfold populate_id_map in Hc. simpl in Hc.
    apply registry_inv_unseeded in Hc as [Hids Hkeys]. split; [done|].
    intros r (t & Ht & Hr & _)%Hof.
    assert (country_key t ∈ (country_trace ts).*1) as Hk.
    { unfold country_trace. rewrite (trace_keys country_key res_country_id).
      by apply list_elem_of_fmap_2. }
    apply Hkeys, list_elem_of_fmap in Hk as (row & Hkey & Hrow).
    exists row. split; [done|]. by rewrite Hr, Hkey.
  - apply (f_equal fst) in Hmci as Hm0. apply (f_equal snd) in Hmci as Hc0.
    simpl in Hm0, Hc0. rewrite Hm0, Hc0, (Hempty _ _ _ Hfail) in Hci.
    unfold populate_id_map in Hci. simpl in Hci.
    apply registry_inv_unseeded in Hci as [Hids Hkeys]. split; [done|].
    intros r (t & Ht & _ & Hr & _)%Hof.
    assert (city_key t ∈ (city_trace ts).*1) as Hk.
    { unfold city_trace. rewrite (trace_keys city_key res_city_id).
      by apply list_elem_of_fmap_2. }
    apply Hkeys, list_elem_of_fmap in Hk as (row & Hkey & Hrow).
    exists row. split; [done|]. by rewrite Hr, Hkey.
  - apply (f_equal fst) in Hml as Hm0. apply (f_equal snd) in Hml as Hc0.
    simpl in Hm0, Hc0. rewrite Hm0, Hc0, (Hempty _ _ _ Hfail) in Hl.
    unfold populate_id_map in Hl. simpl in Hl.
    apply registry_inv_unseeded in Hl as [Hids Hkeys]. split; [done|].
    intros r (t & Ht & _ & _ & Hr & _)%Hof.
    assert (location_key t ∈ (location_trace ts).*1) as Hk.
    { unfold location_trace. rewrite (trace_keys location_key res_location_id).
      by apply list_elem_of_fmap_2. }
    apply Hkeys, list_elem_of_fmap in Hk as (row & Hkey & Hrow).
    exists row. split; [done|]. by rewrite Hr, Hkey.
Qed.

End ProcessorProperties.

(** ** The order of allocation ([data_processor.py], lines 88-121) *)

Lemma drop_duplicates_from_snoc `{EqDecision A} (seen l : list A) (x : A) :
  drop_duplicates_from seen (l ++ [x])
  = drop_duplicates_from seen l ++ (if decide (x ∈ seen ∨ x ∈ l) then [] else [x]).
Proof.
  revert seen. induction l as [|y l IH]; intros seen; simpl.
  - destruct (decide (x ∈ seen)) as [Hin|Hin].
    + by rewrite decide_True by by left.
    + rewrite decide_False; [done|]. by intros [?|?%not_elem_of_nil].
  - destruct (decide (y ∈ seen)) as [Hy|Hy].
    + rewrite IH. f_equal. apply decide_ext. rewrite elem_of_cons. naive_solver.
    + rewrite IH. simpl. f_equal. f_equal. apply decide_ext.
      rewrite !elem_of_cons. naive_solver.
Qed.

Lemma elem_of_drop_duplicates_filter `{EqDecision A} (P : A → Prop)
    `{∀ x, Decision (P x)} (l : list A) (x : A) :
  x ∈ drop_duplicates (filter P l) ↔ P x ∧ x ∈ l.
Proof. by rewrite elem_of_drop_duplicates, list_elem_of_filter. Qed.

Lemma zip_with_fmap_same {A B C} (f : B → C → A) (g : A → B) (h : A → C) (l : list A) :
  Forall (λ a, a = f (g a) (h a)) l → l = zip_with f (g <$> l) (h <$> l).
Proof. induction 1 as [|a l Ha _ IH]; [done|]. rewrite !fmap_cons. simpl. by f_equal. Qed.

Section RegistryOrder.

Context {K R : Type} `{Countable K}.
Variables (key_cols : R → K) (id_col : R → Z) (new_row : K → Z → R).
Hypothesis key_new_row : ∀ k i, key_cols (new_row k i) = k.
Hypothesis id_new_row : ∀ k i, id_col (new_row k i) = i.

Lemma allocated_in_order_step (m0 : gmap K Z) (c0 : Z) (tr : list (K * Z))
    (reg : gmap K Z * Z * list R) (k : K) (i : Z) :
  registry_inv key_cols id_col m0 c0 tr reg →
  allocated_in_order key_cols id_col new_row m0 tr (reg.2) →
  allocated_in_order key_cols id_col new_row m0 (tr ++ [(k, i)])
    ((resolve_key new_row k reg).2).
Proof.
  intros Hinv [Hkeys Hrows]. unfold allocated_in_order.
  rewrite fmap_app, filter_app. simpl. unfold resolve_key.
  destruct (m0 !! k) as [j|] eqn:Hk0.
  - rewrite filter_cons_False, filter_nil, app_nil_r by (by rewrite Hk0).
    eapply lookup_weaken in Hk0; [|apply Hinv]. by rewrite Hk0.
  - rewrite filter_cons_True, filter_nil by done.
    unfold drop_duplicates in *. rewrite drop_duplicates_from_snoc, <- Hkeys.
    destruct (reg.1.1 !! k) as [j|] eqn:Hk.
    + rewrite decide_True, app_nil_r; [done|]. right.
      apply list_elem_of_filter. split; [done|].
      apply (inv_map _ _ _ _ _ _ Hinv) in Hk as [?|(row & Hrow & <- & _)];
        [congruence|].
      apply (inv_new _ _ _ _ _ _ Hinv). by apply list_elem_of_fmap_2.
    + simpl. rewrite decide_False.
      * rewrite fmap_app. simpl. rewrite key_new_row. split; [done|].
        apply Forall_app. split; [done|].
        apply Forall_singleton. by rewrite key_new_row, id_new_row.
      * intros [?%not_elem_of_nil|[_ Hin]%list_elem_of_filter]; [done|].
        assert (k ∈ key_cols <$> reg.2) as (row & -> & Hrow)%list_elem_of_fmap
          by by apply (inv_new _ _ _ _ _ _ Hinv).
        assert (reg.1.1 !! key_cols row = Some (id_col row)); [|congruence].
        apply (inv_map _ _ _ _ _ _ Hinv). right. by exists row.
Qed.

(** The rows of a registry, from its invariants. *)
Lemma allocated_in_order_rows (existing : list R) (tr : list (K * Z))
    (reg : gmap K Z * Z * list R) :
  registry_inv key_cols id_col
    (populate_id_map existing ∅ id_col key_cols 1).1
    (populate_id_map existing ∅ id_col key_cols 1).2 tr reg →
  allocated_in_order key_cols id_col new_row
    (populate_id_map existing ∅ id_col key_cols 1).1 tr (reg.2) →
  let unseen :=
    drop_duplicates (filter (λ k, k ∉ key_cols <$> existing) (tr.*1)) in
  reg.2 = zip_with new_row unseen
            (seqZ (populate_id_map existing ∅ id_col key_cols 1).2
                  (Z.of_nat (length unseen))).
Proof.
  intros Hinv [Hkeys Hrows]. cbv zeta.
  assert (filter (λ k, k ∉ key_cols <$> existing) (tr.*1)
          = filter (λ k, (populate_id_map existing ∅ id_col key_cols 1).1 !! k = None)
                   (tr.*1)) as ->.
  { apply list_filter_iff. intros k.
    rewrite populate_id_map_lookup_None, lookup_empty. naive_solver. }
  rewrite <- Hkeys, length_fmap, <- (inv_ids _ _ _ _ _ _ Hinv).
  by apply zip_with_fmap_same.
Qed.

End RegistryOrder.

Section AllocationOrder.

Context {F : Type} `{Countable F}.
Variable to_datetime : string → option Timestamp.

Lemma run_loop_order (st0 : state F) (rs : list (resolved F)) (st : state F)
    (results : list (Raw.result F)) (st' : state F) (ts : list (resolved F)) :
  state_inv st0 rs st →
  allocated_in_order Country.country_name Country.country_id new_country
    (country_id_map st0) (country_trace rs) (countries st) →
  allocated_in_order city_key_cols City.city_id new_city
    (city_id_map st0) (city_trace rs) (cities st) →
  allocated_in_order location_key_cols Location.location_id new_location
    (location_id_map st0) (location_trace rs) (locations st) →
  run_loop st results = Ok (st', ts) →
  allocated_in_order Country.country_name Country.country_id new_country
    (country_id_map st0) (country_trace (rs ++ ts)) (countries st')
  ∧ allocated_in_order city_key_cols City.city_id new_city
      (city_id_map st0) (city_trace (rs ++ ts)) (cities st')
  ∧ allocated_in_order location_key_cols Location.location_id new_location
      (location_id_map st0) (location_trace (rs ++ ts)) (locations st').
Proof.
  revert rs st ts. induction results as [|r results IH]; intros rs st ts Hinv Hc Hci Hl.
  - intros [= <- <-]. by rewrite app_nil_r.
  - intros (st1 & t & ts' & Hbody & Hrest & ->)%run_loop_Ok_cons.
    pose proof (state_inv_step _ _ _ _ _ _ Hinv Hbody) as Hinv1.
    destruct Hinv as [Hic Hici Hil _ _].
    apply loop_body_Ok in Hbody
      as (_ & _ & _ & _ & _ & Hrc & _ & Hrci & _ & Hrl & _ & _).
    replace (rs ++ t :: ts') with ((rs ++ [t]) ++ ts') by by rewrite <- app_assoc.
    apply (IH (rs ++ [t]) st1 ts' Hinv1); [| | |done].
    + unfold country_trace. rewrite fmap_app. simpl.
      replace (countries st1) with (country_registry st1).2 by done. rewrite Hrc.
      by apply (allocated_in_order_step Country.country_name Country.country_id
                  new_country (λ _ _, eq_refl) (λ _ _, eq_refl)
                  _ (country_id_counter st0)).
    + unfold city_trace. rewrite fmap_app. simpl.
      replace (cities st1) with (city_registry st1).2 by done. rewrite Hrci.
      by apply (allocated_in_order_step city_key_cols City.city_id new_city
                  city_key_new_city (λ _ _, eq_refl) _ (city_id_counter st0)).
    + unfold location_trace. rewrite fmap_app. simpl.
      replace (locations st1) with (location_registry st1).2 by done. rewrite Hrl.
      by apply (allocated_in_order_step location_key_cols Location.location_id
                  new_location location_key_new_location (λ _ _, eq_refl)
                  _ (location_id_counter st0)).
Qed.

(** X23 — The new rows of a completed run are determined by the order of
    the batch.  For each entity type, take the keys resolved for the
    records, in order, keep those that no stored row has and of these the
    first occurrence of each: the new rows are the rows of these keys, in
    this order, with the ids [c], [c + 1], ... where [c] is the counter
    that [populate_id_map] returns for the stored rows. *)
Theorem new_rows_follow_first_appearance (existing : frames F)
    (results : list (Raw.result F)) (out : frames F) :
  process_frames to_datetime existing results = Ok out →
  ∃ ts,
    resolutions existing results = Ok ts
    ∧ Forall2 resolution_of results ts
    ∧ (let unseen :=
         drop_duplicates
           (filter (λ k, k ∉ Country.country_name <$> countries_df existing)
                   (country_key <$> ts)) in
       countries_df out
       = zip_with new_country unseen
           (seqZ (populate_id_map (countries_df existing) ∅ Country.country_id
                    Country.country_name 1).2
                 (Z.of_nat (length unseen))))
    ∧ (let unseen :=
         drop_duplicates
           (filter (λ k, k ∉ city_key_cols <$> cities_df existing) (city_key <$> ts)) in
       cities_df out
       = zip_with new_city unseen
           (seqZ (populate_id_map (cities_df existing) ∅ City.city_id
                    city_key_cols 1).2
                 (Z.of_nat (length unseen))))
    ∧ (let unseen :=
         drop_duplicates
           (filter (λ k, k ∉ location_key_cols <$> locations_df existing)
                   (location_key <$> ts)) in
       locations_df out
       = zip_with new_location unseen
           (seqZ (populate_id_map (locations_df existing) ∅ Location.location_id
                    location_key_cols 1).2
                 (Z.of_nat (length unseen)))).
Proof.
  intros (st & ts & Hloop & Hres & Hinv & Hrec & Hne & ->)%run_facts.
  cbv zeta in Hloop.
  destruct (initial_state_rows (countries_df existing) (cities_df existing)
              (locations_df existing)) as (Hc0 & Hci0 & Hl0 & _).
  destruct (run_loop_order _ [] _ _ _ _
              (state_inv_initial (countries_df existing) (cities_df existing)
                 (locations_df existing))
              ltac:(by rewrite Hc0) ltac:(by rewrite Hci0) ltac:(by rewrite Hl0) Hloop)
    as (Hoc & Hoci & Hol).
  simpl in Hoc, Hoci, Hol.
  destruct Hinv as [Hc Hci Hl _ _].
  destruct (initial_state_maps (countries_df existing) (cities_df existing)
              (locations_df existing)) as (Hmc & Hmci & Hml).
  cbv zeta in Hmc, Hmci, Hml.
  apply (f_equal fst) in Hmc as Hmc1. apply (f_equal snd) in Hmc as Hmc2.
  apply (f_equal fst) in Hmci as Hmci1. apply (f_equal snd) in Hmci as Hmci2.
  apply (f_equal fst) in Hml as Hml1. apply (f_equal snd) in Hml as Hml2.
  simpl in Hmc1, Hmc2, Hmci1, Hmci2, Hml1, Hml2.
  rewrite Hmc1 in Hoc. rewrite Hmc1, Hmc2 in Hc.
  rewrite Hmci1 in Hoci. rewrite Hmci1, Hmci2 in Hci.
  rewrite Hml1 in Hol. rewrite Hml1, Hml2 in Hl.
  exists ts. split; [done|]. split; [done|]. simpl. split; [|split].
  - rewrite <- (trace_keys country_key res_country_id).
    by apply (allocated_in_order_rows Country.country_name Country.country_id
                new_country _ (country_trace ts) (country_registry st)).
  - rewrite <- (trace_keys city_key res_city_id).
    by apply (allocated_in_order_rows city_key_cols City.city_id
                new_city _ (city_trace ts) (city_registry st)).
  - rewrite <- (trace_keys location_key res_location_id).
    by apply (allocated_in_order_rows location_key_cols Location.location_id
                new_location _ (location_trace ts) (location_registry st)).
Qed.

End AllocationOrder.

(** ** The loader ([data_loader.py], lines 31-207) *)

Section LoaderProperties.

Context {F : Type} `{Countable F}.
Variable fails : database F → db_op F → bool.

Lemma db_extends_refl (db : database F) : db_extends db db.
Proof. by constructor. Qed.

Lemma db_extends_trans (db1 db2 db3 : database F) :
  db_extends db1 db2 → db_extends db2 db3 → db_extends db1 db3.
Proof.
  intros [Hc Hci Hl Hm Hp Hpk Hfk] [Hc' Hci' Hl' Hm' Hp' Hpk' Hfk'].
  constructor; try (etrans; eassumption).
  - intros name. etrans; [apply Hp|apply Hp'].
  - intros t Ht. by apply Hpk', Hpk.
  - intros t Ht. by apply Hfk', Hfk.
Qed.

Lemma only_extends_ret {A} (a : A) : only_extends (ret (F:=F) a).
Proof. intros db. apply db_extends_refl. Qed.

Lemma only_extends_raise {A} (e : exn) : only_extends (raise (F:=F) (A:=A) e).
Proof. intros db. apply db_extends_refl. Qed.

Lemma only_extends_lift {A} (r : res A) : only_extends (lift (F:=F) r).
Proof. intros db. apply db_extends_refl. Qed.

Lemma only_extends_bind {A B} (m : action A) (f : A → action B) :
  only_extends m → (∀ a, only_extends (f a)) → only_extends (bind (F:=F) m f).
Proof.
  intros Hm Hf db. unfold bind. specialize (Hm db).
  destruct (m db) as [db' [a|e]]; simpl in *; [|done].
  eapply db_extends_trans; [done|apply Hf].
Qed.

Lemma only_extends_try_except {A} (m : action A) (handler : exn → action A) :
  only_extends m → (∀ e, only_extends (handler e)) →
  only_extends (try_except (F:=F) m handler).
Proof.
  intros Hm Hh db. unfold try_except. specialize (Hm db).
  destruct (m db) as [db' [a|e]]; simpl in *; [done|].
  eapply db_extends_trans; [done|apply Hh].
Qed.

Lemma only_extends_for_each {A} (f : A → action ()) (l : list A) :
  (∀ x, only_extends (f x)) → only_extends (for_each (F:=F) f l).
Proof.
  intros Hf. induction l as [|x l IH]; simpl; [apply only_extends_ret|].
  apply only_extends_bind; [apply Hf|done].
Qed.

Lemma to_sql_extends (df : dataframe F) (t : table) (db db' : database F) :
  to_sql df t db = Some db' → db_extends db db'.
Proof.
  unfold to_sql.
  destruct df, t; intros [= <-]; constructor; simpl; try done;
    try (by apply prefix_app_r).
  intros name'. unfold parameter_table. simpl.
  destruct (decide (name = name')) as [->|Hne].
  - rewrite lookup_insert_eq. simpl. by apply prefix_app_r.
  - by rewrite lookup_insert_ne.
Qed.

Lemma only_extends_upload (df : dataframe F) (t : table) :
  only_extends (__upload_to_db fails df t).
Proof.
  intros db. unfold __upload_to_db.
  destruct (fails _ _); [apply db_extends_refl|].
  destruct (to_sql df t db) eqn:Hsql; [|apply db_extends_refl].
  by eapply to_sql_extends.
Qed.

Lemma only_extends_cast (t : table) : only_extends (__cast_data_types (F:=F) fails t).
Proof. intros db. unfold __cast_data_types. destruct (fails _ _); apply db_extends_refl. Qed.

Lemma only_extends_check (t : table) (key : constraint_type) :
  only_extends (__check_key_exists (F:=F) fails t key).
Proof. intros db. unfold __check_key_exists. destruct (fails _ _); apply db_extends_refl. Qed.

Lemma only_extends_add_primary_key (t : table) :
  only_extends (__add_primary_key (F:=F) fails t).
Proof.
  intros db. unfold __add_primary_key.
  destruct (_ || _); [apply db_extends_refl|].
  constructor; simpl; try done. intros t' ?. by right.
Qed.

Lemma only_extends_add_foreign_key (t : table) :
  only_extends (__add_foreign_key (F:=F) fails t).
Proof.
  intros db. unfold __add_foreign_key.
  destruct (fails _ _); [apply db_extends_refl|].
  constructor; simpl; try done. intros t' ?. by right.
Qed.

Lemma only_extends_upload_and_configure (entry : dataframe F * table) :
  only_extends (upload_and_configure fails entry).
Proof.
  destruct entry as [df t]. unfold upload_and_configure.
  apply only_extends_bind; [apply only_extends_upload|]. intros _.
  apply only_extends_bind; [apply only_extends_cast|]. intros _.
  apply only_extends_bind.
  - destruct (primary_key t); [|apply only_extends_ret].
    apply only_extends_bind; [apply only_extends_check|].
    intros []; [apply only_extends_ret|apply only_extends_add_primary_key].
  - intros _. destruct (fk_dict t); [|apply only_extends_ret].
    apply only_extends_bind; [apply only_extends_check|].
    intros []; [apply only_extends_ret|apply only_extends_add_foreign_key].
Qed.

Lemma only_extends_upload_parameter_table
    (entry : string * string * list (ParameterRow.t F)) :
  only_extends (upload_parameter_table fails entry).
Proof.
  destruct entry as [[parameter unit_] df]. unfold upload_parameter_table.
  apply only_extends_bind; [apply only_extends_upload|]. intros _.
  apply only_extends_bind; [apply only_extends_cast|]. intros _.
  apply only_extends_add_foreign_key.
Qed.

(** X11 — [_upload_data] only adds to the store, also when it fails half
    way: every table keeps the rows it had, at the places they had, and
    every constraint stays. *)
Theorem upload_only_appends (out : frames F) (db : database F) :
  db_extends db (_upload_data fails out db).1.
Proof.
  revert db. unfold _upload_data. apply only_extends_try_except.
  - apply only_extends_bind.
    + apply only_extends_for_each, only_extends_upload_and_configure.
    + intros _. apply only_extends_bind; [apply only_extends_lift|].
      intros tables. apply only_extends_for_each, only_extends_upload_parameter_table.
  - intros e. apply only_extends_raise.
Qed.

Lemma upload_only_extends (out : frames F) : only_extends (_upload_data fails out).
Proof.
  unfold _upload_data. apply only_extends_try_except.
  - apply only_extends_bind.
    + apply only_extends_for_each, only_extends_upload_and_configure.
    + intros _. apply only_extends_bind; [apply only_extends_lift|].
      intros tables. apply only_extends_for_each, only_extends_upload_parameter_table.
  - intros e. apply only_extends_raise.
Qed.

Lemma _upload_data_Raise (out : frames F) (db db' : database F) (e : exn) :
  _upload_data fails out db = (db', Raise e) → ∃ cause, e = RuntimeError cause.
Proof.
  unfold _upload_data, try_except, raise.
  destruct (bind _ _ db) as [db1 [[]|e1]]; [done|]. intros [= _ <-]. by eexists.
Qed.

(** *** Runs that end normally *)

(** What every step establishes on success, and what later steps keep,
    holds at the end of a loop for every element. *)
Lemma for_each_Ok_post {A} (f : A → action ()) (post : A → database F → Prop)
    (l : list A) (db db' : database F) :
  (∀ x d d', f x d = (d', Ok ()) → post x d') →
  (∀ x, only_extends (f x)) →
  (∀ x d d', post x d → db_extends d d' → post x d') →
  for_each (F:=F) f l db = (db', Ok ()) → ∀ x, x ∈ l → post x db'.
Proof.
  intros Hpost Hext Hmono. revert db.
  induction l as [|y l IH]; intros db Hrun x Hx; [by apply not_elem_of_nil in Hx|].
  simpl in Hrun. apply bind_Ok in Hrun as (db1 & [] & Hy & Hrest).
  apply elem_of_cons in Hx as [->|Hx]; [|by eapply IH].
  eapply Hmono; [by eapply Hpost|].
  pose proof (only_extends_for_each f l Hext db1) as Hl. by rewrite Hrest in Hl.
Qed.

Lemma _upload_data_Ok (out : frames F) (db db' : database F) :
  _upload_data fails out db = (db', Ok ()) ↔
  ∃ db1,
    for_each (upload_and_configure fails) (table_data out) db = (db1, Ok ())
    ∧ measurements_df out ≠ []
    ∧ for_each (upload_parameter_table fails)
        (groupby_parameter_unit (measurements_df out)) db1 = (db', Ok ()).
Proof.
  unfold _upload_data, try_except.
  generalize (for_each (F:=F) (upload_and_configure fails) (table_data out)).
  intros core. unfold bind at 1.
  destruct (core db) as [db1 [[]|e]].
  - unfold bind, lift, create_parameter_tables.
    destruct (measurements_df out) as [|row rows] eqn:Hrows.
    + split; [done|]. by intros (? & _ & ? & _).
    + rewrite <- Hrows.
      destruct (for_each _ (groupby_parameter_unit (measurements_df out)) db1)
        as [db2 [[]|e]] eqn:Hparams; split.
      * intros [= <-]. exists db1. split; [done|]. split; [by rewrite Hrows|done].
      * intros (? & [= <-] & _ & Hrun). rewrite Hparams in Hrun. by injection Hrun as <-.
      * done.
      * intros (? & [= <-] & _ & Hrun). by rewrite Hparams in Hrun.
  - split; [done|]. by intros (? & [=] & _).
Qed.

(** A run of [_upload_data] that ends normally has appended the four frames. *)
Lemma _upload_data_Ok_stored (out : frames F) (db db' : database F) :
  _upload_data fails out db = (db', Ok ()) →
  stored db' = append_frames (stored db) out.
Proof.
  intros Hrun. apply _upload_data_Ok in Hrun as (db1 & Hcore & _ & Hparams).
  destruct (upload_core_tables fails out db) as (n & _ & Hstored & Hall).
  cbv zeta in Hstored, Hall. rewrite Hcore in Hstored, Hall. simpl in Hstored, Hall.
  rewrite (Hall eq_refl) in Hstored.
  pose proof (keeps_stored_for_each (upload_parameter_table fails)
                (groupby_parameter_unit (measurements_df out))
                (keeps_stored_upload_parameter_table fails) db1) as Hkeep.
  rewrite Hparams in Hkeep. simpl in Hkeep. by rewrite Hkeep.
Qed.

Lemma constrained_extends (t : table) (db db' : database F) :
  constrained db t → db_extends db db' → constrained db' t.
Proof.
  intros [Hpk Hfk] Hext. split; intros Ht.
  - by apply (ext_primary_keys _ _ Hext), Hpk.
  - by apply (ext_foreign_keys _ _ Hext), Hfk.
Qed.

Lemma upload_and_configure_constrained (df : dataframe F) (t : table)
    (db db' : database F) :
  upload_and_configure fails (df, t) db = (db', Ok ()) → constrained db' t.
Proof.
  unfold upload_and_configure.
  intros (db1 & [] & _ & (db2 & [] & _ & (db3 & [] & Hpk & Hfk)%bind_Ok)%bind_Ok)%bind_Ok.
  assert (is_Some (primary_key t) → t ∈ primary_keys db3) as Hpk3.
  { intros [col Hcol]. rewrite Hcol in Hpk.
    apply bind_Ok in Hpk as (d & present & Hcheck & Hadd).
    unfold __check_key_exists in Hcheck. destruct present.
    - injection Hadd as <-. destruct (fails _ _); [done|].
      injection Hcheck as <- Hin. by apply bool_decide_eq_true in Hin.
    - unfold __add_primary_key in Hadd. destruct (_ || _); [done|].
      injection Hadd as <-. simpl. by left. }
  assert (db_extends db3 db') as Hext.
  { pose proof (only_extends_bind
      (__check_key_exists fails t FOREIGN_KEY)
      (λ present, if present then ret () else __add_foreign_key fails t)
      (only_extends_check t FOREIGN_KEY)
      ltac:(intros []; [apply only_extends_ret|apply only_extends_add_foreign_key])
      db3) as Hext.
    destruct (fk_dict t); [by rewrite Hfk in Hext|].
    injection Hfk as <-. apply db_extends_refl. }
  split.
  - intros Hsome. by apply (ext_primary_keys _ _ Hext), Hpk3.
  - intros Hdict. rewrite Hdict in Hfk.
    apply bind_Ok in Hfk as (d & present & Hcheck & Hadd).
    unfold __check_key_exists in Hcheck. destruct present.
    + injection Hadd as <-. destruct (fails _ _); [done|].
      injection Hcheck as <- Hin. by apply bool_decide_eq_true in Hin.
    + unfold __add_foreign_key in Hadd. destruct (fails _ (AddForeignKey t)); [done|].
      injection Hadd as <-. simpl. by left.
Qed.

Lemma upload_parameter_table_Ok (parameter unit_ : string)
    (df : list (ParameterRow.t F)) (db db' : database F) :
  upload_parameter_table fails (parameter, unit_, df) db = (db', Ok ()) →
  (∀ prow, prow ∈ df →
     prow ∈ parameter_table db' (TableName.parameter_table_name parameter unit_))
  ∧ ParameterTable (TableName.parameter_table_name parameter unit_) ∈ foreign_keys db'.
Proof.
  unfold upload_parameter_table.
  intros (db1 & [] & Hup & (db2 & [] & Hcast & Hfk)%bind_Ok)%bind_Ok.
  unfold __upload_to_db in Hup. destruct (fails _ (ToSql _ _)); [done|].
  simpl in Hup. injection Hup as <-.
  unfold __cast_data_types in Hcast. destruct (fails _ (CastDataTypes _)); [done|].
  injection Hcast as <-.
  unfold __add_foreign_key in Hfk. destruct (fails _ (AddForeignKey _)); [done|].
  injection Hfk as <-. simpl. split; [|by left].
  intros prow Hprow. unfold parameter_table. simpl.
  rewrite lookup_insert_eq. simpl. apply elem_of_app. by right.
Qed.

(** X12 — After a run of [_upload_data] that ends normally, the countries,
    cities and locations tables have a primary key, the cities, locations
    and measurements tables have a foreign key, and so has the table of
    every (parameter, unit) pair of the measurement rows. *)
Theorem upload_leaves_tables_constrained (out : frames F) (db db' : database F) :
  _upload_data fails out db = (db', Ok ()) →
  (CountriesTable ∈ primary_keys db' ∧ CitiesTable ∈ primary_keys db'
   ∧ LocationsTable ∈ primary_keys db')
  ∧ (CitiesTable ∈ foreign_keys db' ∧ LocationsTable ∈ foreign_keys db'
     ∧ MeasurementsTable ∈ foreign_keys db')
  ∧ ∀ row, row ∈ measurements_df out →
      ParameterTable (TableName.parameter_table_name (Measurement.parameter row)
                        (Measurement.unit row)) ∈ foreign_keys db'.
Proof.
  intros Hrun. apply _upload_data_Ok in Hrun as (db1 & Hcore & _ & Hparams).
  pose proof (only_extends_for_each _
                (groupby_parameter_unit (measurements_df out))
                only_extends_upload_parameter_table db1) as Hext.
  rewrite Hparams in Hext. simpl in Hext.
  assert (∀ entry : dataframe F * table,
            entry ∈ table_data out → constrained db' entry.2) as Hcon.
  { intros entry Hentry. eapply constrained_extends; [|exact Hext].
    revert entry Hentry.
    apply (for_each_Ok_post (upload_and_configure fails)
             (λ entry d, constrained d entry.2) _ db db1); [| | |done].
    - intros [df t] d d'. apply upload_and_configure_constrained.
    - apply only_extends_upload_and_configure.
    - intros [df t] d d'. apply constrained_extends. }
  destruct (Hcon (CountriesDf (countries_df out), CountriesTable)) as [Hpk1 _];
    [set_solver|].
  destruct (Hcon (CitiesDf (cities_df out), CitiesTable)) as [Hpk2 Hfk2];
    [set_solver|].
  destruct (Hcon (LocationsDf (locations_df out), LocationsTable)) as [Hpk3 Hfk3];
    [set_solver|].
  destruct (Hcon (MeasurementsDf (measurements_df out), MeasurementsTable))
    as [_ Hfk4]; [set_solver|].
  simpl in *.
  split; [by auto|]. split; [by auto|].
  intros row Hrow.
  apply (for_each_Ok_post (upload_parameter_table fails)
           (λ entry d, ParameterTable (TableName.parameter_table_name entry.1.1 entry.1.2)
                         ∈ foreign_keys d)
           (groupby_parameter_unit (measurements_df out)) db1 db'
           ltac:(by intros [[p u] df] d d' [_ ?]%upload_parameter_table_Ok)
           only_extends_upload_parameter_table
           ltac:(intros entry d d' Hin Hd; by apply (ext_foreign_keys _ _ Hd))
           Hparams
           (group_key row,
            parameter_row <$> filter (λ row', group_key row' = group_key row)
                                     (measurements_df out))).
  apply elem_of_groupby_parameter_unit. split; [by exists row|done].
Qed.

(** X13 — After a run of [_upload_data] that ends normally, every
    measurement row is, without its parameter and unit, a row of the table
    named after its parameter and unit. *)
Theorem upload_fills_parameter_tables (out : frames F) (db db' : database F) :
  _upload_data fails out db = (db', Ok ()) →
  ∀ row, row ∈ measurements_df out →
    parameter_row row
    ∈ parameter_table db' (TableName.parameter_table_name (Measurement.parameter row)
                             (Measurement.unit row)).
Proof.
  intros Hrun row Hrow. apply _upload_data_Ok in Hrun as (db1 & _ & _ & Hparams).
  apply (for_each_Ok_post (upload_parameter_table fails)
           (λ entry d, ∀ prow, prow ∈ entry.2 →
              prow ∈ parameter_table d (TableName.parameter_table_name entry.1.1 entry.1.2))
           (groupby_parameter_unit (measurements_df out)) db1 db'
           ltac:(by intros [[p u] df] d d' [? _]%upload_parameter_table_Ok)
           only_extends_upload_parameter_table
           ltac:(intros entry d d' Hin Hd prow Hprow;
                 eapply elem_of_prefix; [by apply Hin|apply (ext_parameters _ _ Hd)])
           Hparams
           (group_key row,
            parameter_row <$> filter (λ row', group_key row' = group_key row)
                                     (measurements_df out))).
  - apply elem_of_groupby_parameter_unit. split; [by exists row|done].
  - simpl. apply list_elem_of_fmap_2. by apply list_elem_of_filter.
Qed.

(** *** Runs in which the database refuses nothing *)






(** X22 — An error in the check for the primary key reads as "no key"
    (lines 117-119), so the loader adds the key; when the countries table
    has its key already, that statement fails: [_upload_data] raises
    [RuntimeError] with the country rows appended and nothing else
    written. *)
Theorem failed_key_check_aborts_upload (out : frames F) (db : database F) :
  CountriesTable ∈ primary_keys db →
  fails db (ToSql (CountriesDf (countries_df out)) CountriesTable) = false →
  fails (countries_appended out db) (CastDataTypes CountriesTable) = false →
  fails (countries_appended out db) (CheckKeyExists CountriesTable PRIMARY_KEY) = true →
  _upload_data fails out db
  = (Database (Frames (countries_df (stored db) ++ countries_df out)
                      (cities_df (stored db)) (locations_df (stored db))
                      (measurements_df (stored db)))
              (parameter_tables db) (primary_keys db) (foreign_keys db),
     Raise (RuntimeError (RuntimeError SQLAlchemyError))).
Proof.
  intros Hpk Hsql Hcast Hcheck.
  unfold _upload_data, try_except, raise. simpl.
  unfold bind at 1. unfold bind at 1.
  unfold upload_and_configure, bind, __upload_to_db, __cast_data_types,
    __check_key_exists, __add_primary_key.
  rewrite Hsql. simpl. fold (countries_appended out db).
  rewrite Hcast, Hcheck. simpl.
  assert (bool_decide (CountriesTable ∈ primary_keys db) = true) as Hin
    by by apply bool_decide_eq_true.
  unfold countries_appended at 2 3. simpl.
  by rewrite Hin, orb_true_r.
Qed.

End LoaderProperties.

(** ** The whole run ([data_processor.py], lines 59-147; [main.py], lines 22-42) *)

Section RunProperties.

Context {F : Type} `{Countable F}.
Variable to_datetime : string → option Timestamp.
Variable fails : database F → db_op F → bool.








(** X15 — A batch of complete records none of which has a measurement
    entry ends in the error handler, like the empty batch: line 138
    subscripts a frame that has no columns.  Nothing is stored, also not
    the countries, cities and locations of the records. *)
Theorem batch_without_entries_is_logged_as_error (results : list (Raw.result F))
    (db : database F) :
  Forall complete_record results → raw_measurements results = [] →
  fetch_process_load_data to_datetime fails results db
  = (db, ErrorLogged (KeyError "last_updated")).
Proof.
  intros Hcomplete Hempty.
  unfold fetch_process_load_data, process_air_quality_data.
  by rewrite process_frames_empty_rows.
Qed.

(** X16 — One timestamp with another UTC offset than the others, or one
    with an offset among timestamps without, fails the whole batch: the
    column is not datetime-like, [.dt] raises [AttributeError], the error
    is logged and nothing is stored. *)
Theorem mixed_offsets_abort_batch (results : list (Raw.result F)) (db : database F) :
  Forall complete_record results →
  datetimelike (to_datetime <$> raw_timestamps results) = false →
  fetch_process_load_data to_datetime fails results db
  = (db, ErrorLogged
           (AttributeError "Can only use .dt accessor with datetimelike values")).
Proof.
  intros Hcomplete Hdt.
  assert (∀ existing : frames F,
            process_frames to_datetime existing results
            = Raise (AttributeError "Can only use .dt accessor with datetimelike values"))
    as Hraise.
  { intros existing. unfold process_frames.
    destruct (run_loop_total (initial_state (countries_df existing)
                (cities_df existing) (locations_df existing)) results Hcomplete)
      as (st & ts & Hloop).
    rewrite Hloop. simpl.
    destruct (run_loop_rows _ _ _ _ Hloop) as (rows & Hrows & Hall).
    destruct (initial_state_rows (countries_df existing) (cities_df existing)
                (locations_df existing)) as (_ & _ & _ & Hm0).
    rewrite Hm0 in Hrows. simpl in Hrows. subst rows.
    apply rows_last_updated in Hall.
    unfold normalise_last_updated.
    destruct (measurements st) as [|row rows] eqn:Hrows.
    - simpl in Hall. by rewrite <- Hall in Hdt.
    - simpl. unfold dt_tz_localize_none.
      rewrite <- Hall in Hdt. simpl in Hdt. by rewrite Hdt. }
  unfold fetch_process_load_data, process_air_quality_data. by rewrite Hraise.
Qed.

(** X17 — What the outcome of [fetch_process_load_data] says about the
    store.  After "No new data to process" the store is as before.  After
    a load the four frames that processing returned, with at least one
    measurement row, are appended to the four core tables.  After a logged
    error the store holds what it held, and either processing raised the
    error and nothing was written, or the error is the [RuntimeError] of
    the loader. *)
Theorem outcome_tells_what_was_stored (results : list (Raw.result F)) (db : database F) :
  match (fetch_process_load_data to_datetime fails results db).2 with
  | NoNewData =>
      (fetch_process_load_data to_datetime fails results db).1 = db
      ∧ ∃ out, process_air_quality_data to_datetime fails db results = Ok out
               ∧ measurements_df out = []
  | Loaded =>
      ∃ out, process_air_quality_data to_datetime fails db results = Ok out
             ∧ measurements_df out ≠ []
             ∧ stored (fetch_process_load_data to_datetime fails results db).1
               = append_frames (stored db) out
  | ErrorLogged e =>
      db_extends db (fetch_process_load_data to_datetime fails results db).1
      ∧ ((process_air_quality_data to_datetime fails db results = Raise e
          ∧ (fetch_process_load_data to_datetime fails results db).1 = db)
         ∨ ∃ cause, e = RuntimeError cause)
  end.
Proof.
  unfold fetch_process_load_data.
  destruct (process_air_quality_data to_datetime fails db results) as [out|e];
    [|simpl; split; [apply db_extends_refl|by left]].
  destruct (measurements_df out) as [|row rows] eqn:Hrows;
    [simpl; split; [done|by exists out]|].
  pose proof (upload_only_extends fails out db) as Hext.
  pose proof (_upload_data_Ok_stored fails out db) as Hstored.
  pose proof (_upload_data_Raise fails out db) as Hraise.
  destruct (_upload_data fails out db) as [db' [[]|e]]; simpl in *.
  - exists out. split; [done|]. split; [by rewrite Hrows|]. by apply Hstored.
  - split; [done|]. right. by eapply Hraise.
Qed.




End RunProperties.

(** ** The database connector ([db_connector.py]) *)

Section ConnectorProperties.

Context {URL Engine : Type}.
Variable quote_plus : string → string.
Variable URL_create : DBConnector.url_args → DBConnector.result URL.
Variable create_engine : URL → DBConnector.result Engine.

Lemma missing_keys_nil (db_creds : gmap string string) :
  DBConnector.missing_keys db_creds = [] ↔
  ∀ key, key ∈ DBConnector.required_keys → is_Some (db_creds !! key).
Proof.
  unfold DBConnector.missing_keys. split.
  - intros Hnil key Hkey. destruct (db_creds !! key) eqn:Hlook; [by eexists|].
    assert (key ∈ filter (λ key, db_creds !! key = None) DBConnector.required_keys)
      as Hin by by apply list_elem_of_filter.
    rewrite Hnil in Hin. by apply not_elem_of_nil in Hin.
  - intros Hall. apply elem_of_nil_inv. intros key [Hnone Hkey]%list_elem_of_filter.
    destruct (Hall key Hkey) as [v Hv]. congruence.
Qed.

(** X20 — Credentials with the six required keys are read without
    [KeyError]: [_init_db_engine] gets as far as [URL.create], called with
    the driver, user, host, port and database as given and with the
    password quoted, and then [create_engine], called with that URL.  It
    returns the URL with the engine, or raises what one of the two raised,
    as a [RuntimeError] when that is one of the four handled exceptions. *)
Theorem complete_credentials_reach_create_engine (db_creds : gmap string string) :
  (∀ key, key ∈ DBConnector.required_keys → is_Some (db_creds !! key)) →
  ∃ driver user pass host port database,
    db_creds !! "DRIVER" = Some driver ∧ db_creds !! "USER" = Some user
    ∧ db_creds !! "PASSWORD" = Some pass ∧ db_creds !! "HOST" = Some host
    ∧ db_creds !! "PORT" = Some port ∧ db_creds !! "DATABASE" = Some database
    ∧ DBConnector._init_db_engine quote_plus URL_create create_engine
        (DBConnector.Return db_creds)
      = match URL_create (DBConnector.UrlArgs driver user (quote_plus pass)
                            host port database) with
        | DBConnector.Raised e =>
            if DBConnector.handled e
            then DBConnector.Raised (DBConnector.RuntimeError e)
            else DBConnector.Raised e
        | DBConnector.Return db_url =>
            match create_engine db_url with
            | DBConnector.Raised e =>
                if DBConnector.handled e
                then DBConnector.Raised (DBConnector.RuntimeError e)
                else DBConnector.Raised e
            | DBConnector.Return engine => DBConnector.Return (db_url, engine)
            end
        end.
Proof.
  intros Hall.
  destruct (Hall "DRIVER") as [driver Hdriver]; [set_solver|].
  destruct (Hall "USER") as [user Huser]; [set_solver|].
  destruct (Hall "PASSWORD") as [pass Hpass]; [set_solver|].
  destruct (Hall "HOST") as [host Hhost]; [set_solver|].
  destruct (Hall "PORT") as [port Hport]; [set_solver|].
  destruct (Hall "DATABASE") as [database Hdatabase]; [set_solver|].
  exists driver, user, pass, host, port, database.
  repeat (split; [done|]).
  unfold DBConnector._init_db_engine, DBConnector.init_db_engine_body,
    DBConnector.__validate_db_creds.
  rewrite (proj2 (missing_keys_nil db_creds) Hall).
  unfold DBConnector.__build_url_object, DBConnector.creds_getitem.
  rewrite Hdriver, Huser, Hpass, Hhost, Hport, Hdatabase.
  destruct (URL_create _) as [db_url|e]; [|done].
  by destruct (create_engine db_url).
Qed.

(** X21 — Credentials that lack a required key stop the connector before
    any URL or engine is made: [DBConnector(...)] raises the
    [RuntimeError] of [__init__] around the [RuntimeError] of
    [_init_db_engine] around the [ValueError] of the validation, whose
    message names the missing keys (the key in question among them), in
    the order of [required_keys]. *)
Theorem missing_credentials_are_reported (db_creds : gmap string string) (key : string) :
  key ∈ DBConnector.required_keys → db_creds !! key = None →
  key ∈ DBConnector.missing_keys db_creds
  ∧ DBConnector.missing_keys db_creds `sublist_of` DBConnector.required_keys
  ∧ DBConnector.__init__ quote_plus URL_create create_engine
      (DBConnector.Return db_creds)
    = DBConnector.Raised
        (DBConnector.RuntimeError
           (DBConnector.RuntimeError
              (DBConnector.ValueError
                 ("Error: Missing required database credentials: "
                  +:+ DBConnector.join ", " (DBConnector.missing_keys db_creds))))).
Proof.
  intros Hkey Hnone.
  assert (key ∈ DBConnector.missing_keys db_creds) as Hin
    by by apply list_elem_of_filter.
  split; [done|]. split; [apply sublist_filter|].
  unfold DBConnector.__init__, DBConnector._init_db_engine,
    DBConnector.init_db_engine_body, DBConnector.__validate_db_creds.
  destruct (DBConnector.missing_keys db_creds) as [|k ks];
    [by apply not_elem_of_nil in Hin|done].
Qed.

End ConnectorProperties.

(** ** The examples of the specification, and the properties at sample inputs *)

(** The first example of the specification: [station_a] against the empty
    store. *)
Example first_run :
  process_frames Sample.to_datetime Sample.no_rows [Sample.station_a]
  = Ok Sample.after_station_a.
Proof. vm_compute. reflexivity. Qed.

(** The second example: the same batch against the store of the first run. *)
Example second_run :
  process_frames Sample.to_datetime Sample.after_station_a [Sample.station_a]
  = Ok (Frames [] [] [] []).
Proof. vm_compute. reflexivity. Qed.

Example empty_batch_example :
  fetch_process_load_data Sample.to_datetime Sample.never [] Sample.empty_db
  = (Sample.empty_db, ErrorLogged (KeyError "last_updated")).
Proof. vm_compute. reflexivity. Qed.

Example resolved_ids_sample :
  match resolutions Sample.after_station_a
          [Sample.station_a; Sample.station_b; Sample.station_c; Sample.station_b] with
  | Ok ts => (λ t, (res_country_id t, res_city_id t, res_location_id t)) <$> ts
  | Raise _ => []
  end = [(1, 1, 1); (1, 1, 2); (2, 2, 3); (1, 1, 2)].
Proof. vm_compute. reflexivity. Qed.

Lemma key_stability_witness :
  ∃ out,
    process_frames Sample.to_datetime Sample.after_station_a
      [Sample.station_a; Sample.station_b; Sample.station_c; Sample.station_b] = Ok out
    ∧ ∃ ts,
        resolutions Sample.after_station_a
          [Sample.station_a; Sample.station_b; Sample.station_c; Sample.station_b] = Ok ts
        ∧ Forall2 resolution_of
            [Sample.station_a; Sample.station_b; Sample.station_c; Sample.station_b] ts
        ∧ ∀ t1 t2, t1 ∈ ts → t2 ∈ ts →
            (country_key t1 = country_key t2 → res_country_id t1 = res_country_id t2)
            ∧ (city_key t1 = city_key t2 → res_city_id t1 = res_city_id t2)
            ∧ (location_key t1 = location_key t2 → res_location_id t1 = res_location_id t2).
Proof.
  assert (∃ out, process_frames Sample.to_datetime Sample.after_station_a
      [Sample.station_a; Sample.station_b; Sample.station_c; Sample.station_b] = Ok out)
    as [out Hrun] by (eexists; vm_compute; reflexivity).
  exists out. split; [exact Hrun|].
  destruct (key_stability Sample.to_datetime _ _ _ Hrun) as (ts & Hts & Hres & Hsame & _).
  exists ts. split; [exact Hts|]. split; [exact Hres|exact Hsame].
Defined.

Lemma monotonic_allocation_witness :
  ∃ out,
    process_frames Sample.to_datetime Sample.after_station_a
      [Sample.station_a; Sample.station_b; Sample.station_c] = Ok out
    ∧ ∃ ts,
        resolutions Sample.after_station_a
          [Sample.station_a; Sample.station_b; Sample.station_c] = Ok ts
        ∧ allocates_from (λ M, M + 1) Country.country_name Country.country_id
            (countries_df Sample.after_station_a) (country_key <$> ts) (countries_df out)
        ∧ allocates_from (λ M, M + 1) city_key_cols City.city_id
            (cities_df Sample.after_station_a) (city_key <$> ts) (cities_df out)
        ∧ allocates_from (λ M, M + 1) location_key_cols Location.location_id
            (locations_df Sample.after_station_a) (location_key <$> ts) (locations_df out)
        ∧ Forall (λ row, 1 ≤ Country.country_id row) (countries_df out)
        ∧ Forall (λ row, 1 ≤ City.city_id row) (cities_df out)
        ∧ Forall (λ row, 1 ≤ Location.location_id row) (locations_df out).
Proof.
  eexists. split; [vm_compute; reflexivity|].
  apply (monotonic_allocation Sample.to_datetime Sample.after_station_a
           [Sample.station_a; Sample.station_b; Sample.station_c]).
  - vm_compute. reflexivity.
  - repeat constructor; simpl; lia.
  - repeat constructor; simpl; lia.
  - repeat constructor; simpl; lia.
Defined.

Lemma dedup_correctness_witness :
  ∃ out,
    process_frames Sample.to_datetime Sample.after_station_a
      [Sample.station_a; Sample.station_b] = Ok out
    ∧ length (measurements_df out) = 2%nat
    ∧ NoDup (measurements_df out)
    ∧ ∀ row, row ∈ measurements_df out → row ∉ measurements_df Sample.after_station_a.
Proof.
  eexists. split; [vm_compute; reflexivity|]. split; [reflexivity|].
  apply (dedup_correctness Sample.to_datetime Sample.after_station_a
           [Sample.station_a; Sample.station_b]).
  vm_compute. reflexivity.
Defined.

Lemma no_orphans_witness :
  ∃ out,
    process_frames Sample.to_datetime Sample.after_station_a
      [Sample.station_b; Sample.station_c] = Ok out
    ∧ (∀ row, row ∈ cities_df out →
         City.country_id row ∈
           Country.country_id <$> (countries_df Sample.after_station_a ++ countries_df out))
    ∧ (∀ row, row ∈ locations_df out →
         Location.city_id row ∈
           City.city_id <$> (cities_df Sample.after_station_a ++ cities_df out))
    ∧ (∀ row, row ∈ measurements_df out →
         Measurement.location_id row ∈
           Location.location_id <$>
             (locations_df Sample.after_station_a ++ locations_df out)).
Proof.
  eexists. split; [vm_compute; reflexivity|].
  apply (no_orphans Sample.to_datetime Sample.after_station_a
           [Sample.station_b; Sample.station_c]).
  vm_compute. reflexivity.
Defined.

Lemma malformed_record_aborts_batch_witness :
  (∃ key, record_error Sample.no_city = Some (KeyError key))
  ∧ ∃ before r0 after e,
      [Sample.station_a; Sample.no_city] = before ++ r0 :: after
      ∧ Forall (λ r', record_error r' = None) before
      ∧ record_error r0 = Some e
      ∧ process_frames Sample.to_datetime Sample.no_rows
          [Sample.station_a; Sample.no_city] = Raise e
      ∧ fetch_process_load_data Sample.to_datetime Sample.never
          [Sample.station_a; Sample.no_city] Sample.empty_db
        = (Sample.empty_db, ErrorLogged e).
Proof.
  apply (malformed_record_aborts_batch Sample.to_datetime Sample.never Sample.no_rows
           [Sample.station_a; Sample.no_city] Sample.no_city Sample.empty_db).
  - apply list_elem_of_further, list_elem_of_here.
  - right. left. reflexivity.
Defined.

(** A city given as null is a name like any other: the record is processed,
    with a city row without name.  Coordinates given as null stop the batch
    with a [TypeError], also when a later record lacks a field. *)
Example null_name_is_a_key :
  (∃ out, process_frames Sample.to_datetime Sample.no_rows [Sample.null_city] = Ok out
          ∧ cities_df out = [City.Build 1 None 1]
          ∧ length (measurements_df out) = 1%nat)
  ∧ process_frames Sample.to_datetime Sample.no_rows
      [Sample.null_coordinates; Sample.no_city]
    = Raise (TypeError "'NoneType' object is not subscriptable").
Proof. split; [eexists; split; [vm_compute; reflexivity|done]|vm_compute; reflexivity]. Qed.


(** The record without city is not skipped: the batch is aborted and the
    complete record after it yields no row. *)
Lemma malformed_record_is_not_skipped :
  process_frames Sample.to_datetime Sample.no_rows [Sample.no_city; Sample.station_a]
  = Raise (KeyError "city")
  ∧ process_frames Sample.to_datetime Sample.no_rows [Sample.station_a]
    = Ok Sample.after_station_a
  ∧ fetch_process_load_data Sample.to_datetime Sample.never
      [Sample.no_city; Sample.station_a] Sample.empty_db
    = (Sample.empty_db, ErrorLogged (KeyError "city")).
Proof. repeat split; vm_compute; reflexivity. Qed.

(** A run of two separators gives two underscores, not one. *)
Lemma sanitize_keeps_runs :
  TableName.parameter_table_name "relativehumidity" "%"
  = "de10_na_openaq_relativehumidity__"
  ∧ TableName.spec_sanitize "de10_na_openaq_relativehumidity_%"
    = "de10_na_openaq_relativehumidity_"
  ∧ TableName.sanitize "de10_na_openaq_relativehumidity_%"
    ≠ TableName.spec_sanitize "de10_na_openaq_relativehumidity_%".
Proof. repeat split; try reflexivity. vm_compute. discriminate. Qed.

(** When the write of the cities fails, the countries stay appended and
    the other three frames are not. *)
Lemma partial_commit :
  let run := fetch_process_load_data Sample.to_datetime Sample.cities_upload_fails
               [Sample.station_a] Sample.empty_db in
  run.2 = ErrorLogged (RuntimeError SQLAlchemyError)
  ∧ stored (run.1) = Frames [Country.Build 1 (Some "UK")] [] [] []
  ∧ stored (run.1) ≠ stored Sample.empty_db
  ∧ stored (run.1) ≠ append_frames (stored Sample.empty_db) Sample.after_station_a.
Proof. repeat split; try (vm_compute; reflexivity); vm_compute; discriminate. Qed.


(** ** The further properties at sample inputs *)

Example loaded_db_sample :
  stored Sample.loaded_db = Sample.after_station_a
  ∧ primary_keys Sample.loaded_db = [LocationsTable; CitiesTable; CountriesTable]
  ∧ foreign_keys Sample.loaded_db
    = [ParameterTable "de10_na_openaq_pm25_ug_m3"; MeasurementsTable; LocationsTable;
       CitiesTable]
  ∧ parameter_table Sample.loaded_db "de10_na_openaq_pm25_ug_m3"
    = [ParameterRow.Build 1 (Sample.float_of 12) (Some 1704067200000000000)].
Proof. split; [|split; [|split]]; vm_compute; reflexivity. Qed.

Lemma parameter_tables_keys_witness :
  Sample.readings ≠ []
  ∧ ∃ tables,
      create_parameter_tables Sample.readings = Ok tables
      ∧ tables.*1 = [("pm10", "ug/m3"); ("pm25", "ug/m3")]
      ∧ NoDup tables.*1
      ∧ Sorted group_le tables.*1.
Proof.
  split; [discriminate|].
  destruct (parameter_tables_keys Sample.readings) as (tables & Hrun & Hnd & Hsorted & _);
    [discriminate|].
  exists tables. split; [exact Hrun|].
  split; [injection Hrun as <-; vm_compute; reflexivity|].
  split; [exact Hnd|exact Hsorted].
Defined.

Lemma parameter_tables_conserve_rows_witness :
  Sample.readings ≠ []
  ∧ ∃ tables,
      create_parameter_tables Sample.readings = Ok tables
      ∧ concat tables.*2 ≡ₚ parameter_row <$> Sample.readings.
Proof.
  split; [discriminate|].
  apply (parameter_tables_conserve_rows Sample.readings). discriminate.
Defined.

Lemma appended_rows_stay_unique_witness :
  ∃ out,
    process_frames Sample.to_datetime Sample.after_station_a
      [Sample.station_a; Sample.station_b; Sample.station_c] = Ok out
    ∧ NoDup (Location.location_id <$> locations_df Sample.after_station_a)
    ∧ NoDup (Location.location_id <$> (locations_df Sample.after_station_a
                                         ++ locations_df out)).
Proof.
  assert (∃ out, process_frames Sample.to_datetime Sample.after_station_a
      [Sample.station_a; Sample.station_b; Sample.station_c] = Ok out)
    as [out Hrun] by (eexists; vm_compute; reflexivity).
  exists out. split; [exact Hrun|].
  assert (NoDup (Location.location_id <$> locations_df Sample.after_station_a))
    as Hnd by apply NoDup_singleton.
  split; [exact Hnd|].
  destruct (appended_rows_stay_unique Sample.to_datetime _ _ _ Hrun)
    as (_ & _ & Hlocations & _).
  exact (Hlocations Hnd).
Defined.

Lemma unreadable_table_restarts_numbering_witness :
  ∃ out,
    process_air_quality_data Sample.to_datetime Sample.countries_unreadable
      Sample.loaded_db [Sample.station_a] = Ok out
    ∧ unreadable Sample.countries_unreadable Sample.loaded_db CountriesTable
    ∧ countries_df out = [Country.Build 1 (Some "UK")]
    ∧ Country.country_id <$> countries_df out
      = seqZ 1 (Z.of_nat (length (countries_df out))).
Proof.
  assert (∃ out, process_air_quality_data Sample.to_datetime Sample.countries_unreadable
      Sample.loaded_db [Sample.station_a] = Ok out
      ∧ countries_df out = [Country.Build 1 (Some "UK")])
    as (out & Hrun & Hrows) by (eexists; split; vm_compute; reflexivity).
  assert (unreadable Sample.countries_unreadable Sample.loaded_db CountriesTable)
    as Hfail by (right; reflexivity).
  exists out. split; [exact Hrun|]. split; [exact Hfail|]. split; [exact Hrows|].
  destruct (unreadable_table_restarts_numbering Sample.to_datetime
              Sample.countries_unreadable _ _ _ Hrun) as (Hcountries & _).
  exact (proj1 (Hcountries Hfail)).
Defined.

Lemma upload_leaves_tables_constrained_witness :
  ∃ db',
    _upload_data Sample.never Sample.after_station_a Sample.empty_db = (db', Ok ())
    ∧ CountriesTable ∈ primary_keys db'
    ∧ MeasurementsTable ∈ foreign_keys db'.
Proof.
  assert (∃ db', _upload_data Sample.never Sample.after_station_a Sample.empty_db
                 = (db', Ok ()))
    as [db' Hrun] by (eexists; vm_compute; reflexivity).
  exists db'. split; [exact Hrun|].
  destruct (upload_leaves_tables_constrained Sample.never _ _ _ Hrun)
    as ((Hpk & _) & (_ & _ & Hfk) & _).
  split; [exact Hpk|exact Hfk].
Defined.

Lemma upload_fills_parameter_tables_witness :
  ∃ db',
    _upload_data Sample.never Sample.after_station_a Sample.empty_db = (db', Ok ())
    ∧ ∀ row, row ∈ measurements_df Sample.after_station_a →
        parameter_row row
        ∈ parameter_table db'
            (TableName.parameter_table_name (Measurement.parameter row)
               (Measurement.unit row)).
Proof.
  assert (∃ db', _upload_data Sample.never Sample.after_station_a Sample.empty_db
                 = (db', Ok ()))
    as [db' Hrun] by (eexists; vm_compute; reflexivity).
  exists db'. split; [exact Hrun|].
  exact (upload_fills_parameter_tables Sample.never _ _ _ Hrun).
Defined.


Lemma batch_without_entries_is_logged_as_error_witness :
  fetch_process_load_data Sample.to_datetime Sample.never
    [Sample.silent_station] Sample.empty_db
  = (Sample.empty_db, ErrorLogged (KeyError "last_updated")).
Proof.
  apply (batch_without_entries_is_logged_as_error Sample.to_datetime Sample.never
           [Sample.silent_station] Sample.empty_db).
  - repeat first [ apply Forall_cons_2 | apply Forall_nil_2 | split
                 | eexists; split; [reflexivity|] | eexists; reflexivity ].
  - reflexivity.
Defined.

Lemma mixed_offsets_abort_batch_witness :
  fetch_process_load_data Sample.to_datetime Sample.never
    [Sample.station_a; Sample.station_east] Sample.empty_db
  = (Sample.empty_db,
     ErrorLogged (AttributeError "Can only use .dt accessor with datetimelike values")).
Proof.
  apply (mixed_offsets_abort_batch Sample.to_datetime Sample.never
           [Sample.station_a; Sample.station_east] Sample.empty_db).
  - repeat first [ apply Forall_cons_2 | apply Forall_nil_2 | split
                 | eexists; split; [reflexivity|] | eexists; reflexivity ].
  - vm_compute. reflexivity.
Defined.




Lemma complete_credentials_reach_create_engine_witness :
  (∀ key, key ∈ DBConnector.required_keys → is_Some (Sample.creds !! key))
  ∧ DBConnector._init_db_engine Sample.quote_plus Sample.URL_create Sample.create_engine
      (DBConnector.Return Sample.creds)
    = DBConnector.Return
        (DBConnector.UrlArgs "postgresql" "aq" "s3cret" "localhost" "5432" "openaq", ()).
Proof.
  assert (∀ key, key ∈ DBConnector.required_keys → is_Some (Sample.creds !! key))
    as Hall.
  { intros key Hkey.
    repeat (apply elem_of_cons in Hkey as [->|Hkey]; [by eexists|]).
    by apply not_elem_of_nil in Hkey. }
  split; [exact Hall|].
  destruct (complete_credentials_reach_create_engine Sample.quote_plus
              Sample.URL_create Sample.create_engine Sample.creds Hall)
    as (driver & user & pass & host & port & database
        & Hdriver & Huser & Hpass & Hhost & Hport & Hdatabase & ->).
  vm_compute in Hdriver, Huser, Hpass, Hhost, Hport, Hdatabase.
  injection Hdriver as <-. injection Huser as <-. injection Hpass as <-.
  injection Hhost as <-. injection Hport as <-. injection Hdatabase as <-.
  reflexivity.
Defined.

Lemma missing_credentials_are_reported_witness :
  DBConnector.__init__ Sample.quote_plus Sample.URL_create Sample.create_engine
    (DBConnector.Return Sample.creds_without_port)
  = DBConnector.Raised
      (DBConnector.RuntimeError
         (DBConnector.RuntimeError
            (DBConnector.ValueError
               "Error: Missing required database credentials: PORT"))).
Proof.
  destruct (missing_credentials_are_reported Sample.quote_plus Sample.URL_create
              Sample.create_engine Sample.creds_without_port "PORT")
    as (_ & _ & ->).
  - do 3 apply list_elem_of_further. apply list_elem_of_here.
  - reflexivity.
  - vm_compute. reflexivity.
Defined.

Lemma failed_key_check_aborts_upload_witness :
  CountriesTable ∈ primary_keys Sample.loaded_db
  ∧ _upload_data Sample.key_check_fails
      (Frames [Country.Build 2 (Some "FR")] [City.Build 2 (Some "Lyon") 2] [] [])
      Sample.loaded_db
    = (Database (Frames [Country.Build 1 (Some "UK"); Country.Build 2 (Some "FR")]
                        (cities_df Sample.after_station_a)
                        (locations_df Sample.after_station_a)
                        (measurements_df Sample.after_station_a))
                (parameter_tables Sample.loaded_db) (primary_keys Sample.loaded_db)
                (foreign_keys Sample.loaded_db),
       Raise (RuntimeError (RuntimeError SQLAlchemyError))).
Proof.
  assert (CountriesTable ∈ primary_keys Sample.loaded_db) as Hpk
    by (apply (bool_decide_unpack _); vm_compute; exact I).
  split; [exact Hpk|].
  exact (failed_key_check_aborts_upload Sample.key_check_fails
           (Frames [Country.Build 2 (Some "FR")] [City.Build 2 (Some "Lyon") 2] [] [])
           Sample.loaded_db Hpk eq_refl eq_refl eq_refl).
Defined.

Lemma new_rows_follow_first_appearance_witness :
  ∃ out ts,
    process_frames Sample.to_datetime Sample.after_station_a
      [Sample.station_c; Sample.station_b; Sample.station_a; Sample.station_c] = Ok out
    ∧ resolutions Sample.after_station_a
        [Sample.station_c; Sample.station_b; Sample.station_a; Sample.station_c] = Ok ts
    ∧ locations_df out
      = zip_with new_location
          (drop_duplicates
             (filter (λ k, k ∉ location_key_cols <$> locations_df Sample.after_station_a)
                     (location_key <$> ts)))
          (seqZ 2 (Z.of_nat (length
             (drop_duplicates
                (filter (λ k, k ∉ location_key_cols
                                    <$> locations_df Sample.after_station_a)
                        (location_key <$> ts)))))).
Proof.
  assert (∃ out, process_frames Sample.to_datetime Sample.after_station_a
      [Sample.station_c; Sample.station_b; Sample.station_a; Sample.station_c] = Ok out)
    as [out Hrun] by (eexists; vm_compute; reflexivity).
  destruct (new_rows_follow_first_appearance Sample.to_datetime _ _ _ Hrun)
    as (ts & Hts & _ & _ & _ & Hlocations).
  exists out, ts. split; [exact Hrun|]. split; [exact Hts|]. exact Hlocations.
Defined.

Example new_rows_sample :
  match process_frames Sample.to_datetime Sample.after_station_a
          [Sample.station_c; Sample.station_b; Sample.station_a; Sample.station_c] with
  | Ok out => (λ row, (Location.location_id row, Location.location_name row))
                <$> locations_df out
  | Raise _ => []
  end = [(2, Some "Station C"); (3, Some "Station B")].
Proof. vm_compute. reflexivity. Qed.
